(** * scilpy.reconst.sh: spherical-harmonics fitting, peaks, maps and conversions

    A shallow embedding of [scilpy/reconst/sh.py], followed by
    [rescale_dwi] of [scilpy/dwi/utils.py] and the [main] of
    [scripts/scil_resample_tractogram.py].

    Conventions of the embedding.
    - A 4-D array of shape (X, Y, Z, C) is the list of its X*Y*Z voxel rows
      in C order (the order in which numpy's boolean-mask indexing visits
      them); a 3-D mask is the list of its X*Y*Z booleans in the same order.
      So [data_shape[0:3]] is the length of the list and [data_shape[3]]
      the length of a row.
    - Array elements belong to a type [T] with the operations of the
      interface [Num].  The instance [float64] is IEEE-754 binary64 (the
      kernel's primitive floats), which is what numpy computes with; laws of
      exact arithmetic are assumed only where a statement says so.
    - A Python exception is a value [Raise e] of the type [result].
    - dipy's functions ([sh_to_sf_matrix], [peak_directions], [gfa],
      [sf_to_sh], ...) are not part of the repository: they are section
      variables, and [multiprocessing.cpu_count()] is the variable
      [cpu_count].  [pool.map] is the list [map]: it returns the results in
      the order of its inputs. *)

From Stdlib Require Import String Floats.
From Stdlib Require Import ZArith Bool Lia Arith PeanoNat List Sorted.
From Stdlib Require QArith.
Import ListNotations.

(** ** Numbers *)

(** The ring part of numpy's arithmetic. *)
Class Arith (T : Type) := {
  zero : T;
  one : T;
  add : T -> T -> T;
  mul : T -> T -> T
}.

(** The rest of what the module uses of a floating-point dtype. *)
Class Num (T : Type) {A : Arith T} := {
  sub : T -> T -> T;
  div : T -> T -> T;
  sqrt : T -> T;
  abs : T -> T;
  ltb : T -> T -> bool;        (* x < y *)
  leb : T -> T -> bool;        (* x <= y *)
  eqb : T -> T -> bool;        (* x == y *)
  isnan : T -> bool;
  neg_inf : T;                 (* -np.inf *)
  of_Z : Z -> T;               (* an integer used as a float *)
  to_float32 : T -> T          (* the value after [astype(np.float32)] *)
}.

Declare Scope num_scope.
Delimit Scope num_scope with num.
Infix "+" := add : num_scope.
Infix "*" := mul : num_scope.
Infix "-" := sub : num_scope.
Infix "/" := div : num_scope.
Infix "<?" := ltb : num_scope.
Infix "<=?" := leb : num_scope.
Infix "=?" := eqb : num_scope.

(** Laws of exact (real) arithmetic, for the statements that are identities
    of real numbers.  binary64 does not satisfy [add_assoc]. *)
Class ExactArith (T : Type) {A : Arith T} : Prop := {
  add_assoc : forall x y z : T, add x (add y z) = add (add x y) z;
  add_0_l : forall x : T, add zero x = x;
  add_0_r : forall x : T, add x zero = x;
  mul_1_r : forall x : T, mul x one = x;
  mul_0_r : forall x : T, mul x zero = zero;
  mul_0_l : forall x : T, mul zero x = zero
}.

(** Facts about the constants zero and -inf; binary64 has them by
    computation. *)
Class ZeroFacts (T : Type) {A : Arith T} {N : Num T} : Prop := {
  add_0_0 : add zero zero = zero;
  eqb_0_0 : eqb zero zero = true;
  leb_0_0 : leb zero zero = true;
  ltb_ninf_ninf : ltb neg_inf neg_inf = false
}.

Set Implicit Arguments.

(** *** binary64 *)

(** Rounding of a binary64 value to binary32 (24 bits of precision,
    infinities at exponent 128), through the Standard Library's
    specification of IEEE-754 rounding to nearest even. *)
Definition round_binary32 (x : float) : float :=
  match Prim2SF x with
  | S754_finite s m e => SF2Prim (binary_round 24 128 s m e)
  | _ => x
  end.

#[export] Instance float64_arith : Arith float := {
  zero := PrimFloat.zero;
  one := PrimFloat.one;
  add := PrimFloat.add;
  mul := PrimFloat.mul
}.

#[export] Instance float64 : Num float := {
  sub := PrimFloat.sub;
  div := PrimFloat.div;
  sqrt := PrimFloat.sqrt;
  abs := PrimFloat.abs;
  ltb := PrimFloat.ltb;
  leb := PrimFloat.leb;
  eqb := PrimFloat.eqb;
  isnan := PrimFloat.is_nan;
  neg_inf := PrimFloat.neg_infinity;
  of_Z := fun z =>
    match z with
    | Z0 => PrimFloat.zero
    | Zpos _ => PrimFloat.of_uint63 (Uint63.of_Z z)
    | Zneg _ => PrimFloat.opp (PrimFloat.of_uint63 (Uint63.of_Z (Z.opp z)))
    end;
  to_float32 := round_binary32
}.

(** *** Exact integers, the instance used to inhabit [ExactArith] *)

#[export] Instance Z_arith : Arith Z := {
  zero := 0%Z;
  one := 1%Z;
  add := Z.add;
  mul := Z.mul
}.

(** ** Exceptions *)

Inductive exn : Type :=
| ValueError (msg : string)
| TypeError (msg : string).

Inductive result (A : Type) : Type :=
| Ok (a : A)
| Raise (e : exn).

Arguments Ok {A} a.
Arguments Raise {A} e.

Definition bind {A B : Type} (r : result A) (k : A -> result B) : result B :=
  match r with
  | Ok a => k a
  | Raise e => Raise e
  end.

Notation "x <- r ;; k" := (bind r (fun x => k))
  (at level 61, r at next level, right associativity).

(** ** numpy on lists *)

Section Numpy.
Context {T : Type} {A : Arith T} {N : Num T}.
Local Open Scope num_scope.

(** [np.zeros(n)] and [np.zeros((n, m))]. *)
Definition zeros (n : nat) : list T := repeat zero n.
Definition zeros2 (n m : nat) : list (list T) := repeat (zeros m) n.

(** [np.sum(a)] of a 1-D array: the terms are added from the left. *)
Definition np_sum (a : list T) : T := fold_left add a zero.

(** [np.dot(a, b)] of two 1-D arrays. *)
Definition dot (a b : list T) : T :=
  np_sum (map (fun p => fst p * snd p) (combine a b)).

(** A 2-D array is the list of its rows; [ncols] is [B.shape[1]]. *)
Definition matrix : Type := list (list T).
Definition ncols (B : matrix) : nat := length (hd [] B).
Definition column (B : matrix) (j : nat) : list T :=
  map (fun r => nth j r zero) B.

(** [np.dot(a, B)] of a 1-D array of length C and a (C, D) array. *)
Definition np_dot (a : list T) (B : matrix) : list T :=
  map (fun j => dot a (column B j)) (seq 0 (ncols B)).

(** [bool(x)] of a number: everything but (plus or minus) zero. *)
Definition nonzero (x : T) : bool := negb (x =? zero).

(** [a.any()] of a 1-D array. *)
Definition any (a : list T) : bool := existsb nonzero a.

(** [np.maximum(a, b)] and [np.minimum(a, b)]: a NaN operand wins. *)
Definition np_maximum (a b : T) : T := if (b <=? a) || isnan a then a else b.
Definition np_minimum (a b : T) : T := if (a <=? b) || isnan a then a else b.

(** Python's builtin [max(a, b)]: [b] only when [b > a]. *)
Definition py_max (a b : T) : T := if a <? b then b else a.

(** [a.max()] and [a.min()] of a 1-D array (numpy raises on an empty one;
    the module only calls them on rows of the sphere's or [npeaks]'
    length, and [zero] stands for that case). *)
Definition arr_max (a : list T) : T :=
  match a with
  | [] => zero
  | x :: r => fold_left np_maximum r x
  end.
Definition arr_min (a : list T) : T :=
  match a with
  | [] => zero
  | x :: r => fold_left np_minimum r x
  end.

(** [a.clip(min=m)]. *)
Definition clip_min (m : T) (a : list T) : list T :=
  map (fun x => np_maximum x m) a.

(** [np.linalg.norm(a)] of a 1-D array. *)
Definition norm (a : list T) : T := sqrt (dot a a).
End Numpy.

(** ** Indexing *)

Section Indexing.
Context {R : Type}.

(** [a[lo:hi]] for [0 <= lo]. *)
Definition slice (lo hi : nat) (a : list R) : list R :=
  firstn (hi - lo) (skipn lo a).

(** [a[idx] = v] for an index in range (Python raises otherwise; the loops
    below only index with [range(len(a))]). *)
Fixpoint set_nth (idx : nat) (v : R) (a : list R) {struct a} : list R :=
  match a, idx with
  | [], _ => []
  | _ :: r, O => v :: r
  | x :: r, S i => x :: set_nth i v r
  end.

(** [a[:n] = src] where [src] has [n] rows. *)
Definition assign_prefix (n : nat) (src a : list R) : list R :=
  firstn n src ++ skipn n a.

(** [a[mask]]: the rows at the true positions of the mask, in order. *)
Fixpoint mask_select (mask : list bool) (a : list R) : list R :=
  match mask, a with
  | true :: m, x :: r => x :: mask_select m r
  | false :: m, _ :: r => mask_select m r
  | _, _ => []
  end.

(** [a[mask] = src] where [src] has one row per true position. *)
Fixpoint mask_assign (mask : list bool) (src a : list R) : list R :=
  match mask, a with
  | true :: m, x :: r =>
      match src with
      | s :: src' => s :: mask_assign m src' r
      | [] => x :: mask_assign m [] r
      end
  | false :: m, x :: r => x :: mask_assign m src r
  | _, _ => a
  end.

(** [a[mask] = row]: one row broadcast to every true position. *)
Fixpoint mask_assign_row (mask : list bool) (row : R) (a : list R) : list R :=
  match mask, a with
  | true :: m, _ :: r => row :: mask_assign_row m row r
  | false :: m, x :: r => x :: mask_assign_row m row r
  | _, _ => a
  end.

(** [np.count_nonzero(mask)]. *)
Definition count_nonzero (mask : list bool) : nat :=
  length (filter (fun b => b) mask).

(** [a[lo:hi] = src] where [src] has [hi - lo] rows. *)
Definition assign_slice (lo hi : nat) (src a : list R) : list R :=
  firstn lo a ++ firstn (hi - lo) src ++ skipn (lo + length (firstn (hi - lo) src)) a.

(** [a[lo:hi] = row]: one row broadcast to the slice. *)
Definition assign_slice_row (lo hi : nat) (row : R) (a : list R) : list R :=
  firstn lo a ++ repeat row (Nat.min hi (length a) - lo) ++ skipn (Nat.max lo (Nat.min hi (length a))) a.

(** [np.cumsum(l)]. *)
Fixpoint cumsum_from (acc : nat) (l : list nat) : list nat :=
  match l with
  | [] => []
  | x :: r => (acc + x) :: cumsum_from (acc + x) r
  end.
Definition cumsum (l : list nat) : list nat := cumsum_from 0 l.

(** [np.array_split(a, n)] along the first axis: [len(a) % n] sections of
    [len(a) // n + 1] rows, then the rest of [len(a) // n] rows; a
    [ValueError] when [n <= 0]. *)
Definition section_sizes (total sections : nat) : list nat :=
  repeat (S (total / sections)) (total mod sections)
  ++ repeat (total / sections) (sections - total mod sections).

Definition div_points (total : nat) (n : Z) : list nat :=
  cumsum (0 :: section_sizes total (Z.to_nat n)).

Definition array_split (a : list R) (n : Z) : result (list (list R)) :=
  if (n <=? 0)%Z then Raise (ValueError "number sections must be larger than 0.")
  else
    Ok (map (fun i => slice (nth i (div_points (length a) n) 0)
                            (nth (S i) (div_points (length a) n) 0) a)
            (seq 0 (Z.to_nat n))).

(** A list cut into consecutive blocks of the given sizes. *)
Fixpoint chunks_from (a : list R) (sizes : list nat) : list (list R) :=
  match sizes with
  | [] => []
  | n :: rest => firstn n a :: chunks_from (skipn n a) rest
  end.
End Indexing.

(** ** Spheres, bases and worker counts *)

(** The two SH bases dipy knows by name. *)
Inductive basis : Type := descoteaux07 | tournier07.

(** dipy's [Sphere], as far as the module reads it: its vertices, a (D, 3)
    array. *)
Record Sphere (T : Type) : Type := { vertices : list (list T) }.

(** [x if nbr_processes is None or nbr_processes <= 0 else nbr_processes],
    the line of [peaks_from_sh]. *)
Definition resolve_le0 (cpu_count : Z) (nbr_processes : option Z) : Z :=
  match nbr_processes with
  | None => cpu_count
  | Some n => if (n <=? 0)%Z then cpu_count else n
  end.

(** [x if nbr_processes is None or nbr_processes < 0 else nbr_processes],
    the line of [maps_from_sh] and [convert_sh_basis]. *)
Definition resolve_lt0 (cpu_count : Z) (nbr_processes : option Z) : Z :=
  match nbr_processes with
  | None => cpu_count
  | Some n => if (n <? 0)%Z then cpu_count else n
  end.

(** [chunk_len = np.cumsum([0] + [len(c) for c in chunks])]. *)
Definition chunk_offsets {R : Type} (chunks : list (list R)) : list nat :=
  cumsum (0 :: map (@length R) chunks).

(** ** Peak extraction *)

Section Peaks.
Context {T : Type} {A : Arith T} {N : Num T}.
Local Open Scope num_scope.

(** [multiprocessing.cpu_count()]. *)
Variable cpu_count : Z.
(** dipy: [order_from_ncoef(ncoef, full_basis)]. *)
Variable order_from_ncoef : nat -> bool -> Z.
(** dipy: [sh_to_sf_matrix(sphere, sh_order, basis_type, full_basis, legacy)],
    the pair (B, invB). *)
Variable sh_to_sf_matrix :
  Sphere T -> Z -> basis -> bool -> bool -> list (list T) * list (list T).
(** dipy: [peak_directions(odf, sphere, relative_peak_threshold,
    min_separation_angle, is_symmetric)], the triple (directions, values,
    indices). *)
Variable peak_directions :
  list T -> Sphere T -> T -> T -> bool -> list (list T) * list T * list Z.

(** The three arrays the loop fills: shapes (N, npeaks, 3), (N, npeaks) and
    (N, npeaks). *)
Definition peaks_arrays : Type :=
  (list (list (list T)) * list (list T) * list (list Z))%type.

(** The body of the loop of [_peaks_from_sh_loop] at index [idx]. *)
Definition _peaks_from_sh_body (shm_coeff B : list (list T)) (sphere : Sphere T)
    (relative_peak_threshold absolute_threshold min_separation_angle : T)
    (npeaks : nat) (normalize_peaks is_symmetric : bool)
    (st : peaks_arrays) (idx : nat) : peaks_arrays :=
  let '(peak_dirs, peak_values, peak_indices) := st in
  let coeff := nth idx shm_coeff [] in
  if any coeff then
    let odf := np_dot coeff B in
    let odf := map (fun x => if x <? absolute_threshold then zero else x) odf in
    let '(dirs, peaks, ind) :=
      peak_directions odf sphere relative_peak_threshold
                      min_separation_angle is_symmetric in
    if negb (length peaks =? 0)%nat then
      let n := Nat.min npeaks (length peaks) in
      let dirs_row := assign_prefix n dirs (nth idx peak_dirs []) in
      let ind_row := assign_prefix n ind (nth idx peak_indices []) in
      let val_row := assign_prefix n peaks (nth idx peak_values []) in
      if normalize_peaks then
        let val_row' :=
          map (fun v => v / nth 0 peaks zero) (firstn n val_row)
          ++ skipn n val_row in
        let dirs_row' :=
          map (fun p => map (fun c => c * snd p) (fst p))
              (combine dirs_row val_row') in
        (set_nth idx dirs_row' peak_dirs,
         set_nth idx val_row' peak_values,
         set_nth idx ind_row peak_indices)
      else
        (set_nth idx dirs_row peak_dirs,
         set_nth idx val_row peak_values,
         set_nth idx ind_row peak_indices)
    else st
  else st.

(** [_peaks_from_sh_loop]: the arrays start at zero, zero and -1, and the
    loop visits [range(len(shm_coeff))]. *)
Definition _peaks_from_sh_loop (shm_coeff B : list (list T)) (sphere : Sphere T)
    (relative_peak_threshold absolute_threshold min_separation_angle : T)
    (npeaks : nat) (normalize_peaks is_symmetric : bool) : peaks_arrays :=
  let data_shape := length shm_coeff in
  let peak_dirs := repeat (zeros2 npeaks 3) data_shape in
  let peak_values := zeros2 data_shape npeaks in
  let peak_indices := repeat (repeat (-1)%Z npeaks) data_shape in
  fold_left
    (_peaks_from_sh_body shm_coeff B sphere relative_peak_threshold
       absolute_threshold min_separation_angle npeaks normalize_peaks
       is_symmetric)
    (seq 0 (length shm_coeff))
    (peak_dirs, peak_values, peak_indices).

(** What the loop leaves in row [idx] of its three arrays, as a function of
    the coefficients of the voxel: the body of the loop read on the rows the
    arrays are allocated with. *)
Definition peaks_voxel (B : list (list T)) (sphere : Sphere T)
    (relative_peak_threshold absolute_threshold min_separation_angle : T)
    (npeaks : nat) (normalize_peaks is_symmetric : bool) (coeff : list T)
    : list (list T) * list T * list Z :=
  let unset := (zeros2 npeaks 3, zeros npeaks, repeat (-1)%Z npeaks) in
  if any coeff then
    let odf := np_dot coeff B in
    let odf := map (fun x => if x <? absolute_threshold then zero else x) odf in
    let '(dirs, peaks, ind) :=
      peak_directions odf sphere relative_peak_threshold
                      min_separation_angle is_symmetric in
    if negb (length peaks =? 0)%nat then
      let n := Nat.min npeaks (length peaks) in
      let dirs_row := assign_prefix n dirs (zeros2 npeaks 3) in
      let ind_row := assign_prefix n ind (repeat (-1)%Z npeaks) in
      let val_row := assign_prefix n peaks (zeros npeaks) in
      if normalize_peaks then
        let val_row' :=
          map (fun v => v / nth 0 peaks zero) (firstn n val_row)
          ++ skipn n val_row in
        let dirs_row' :=
          map (fun p => map (fun c => c * snd p) (fst p))
              (combine dirs_row val_row') in
        (dirs_row', val_row', ind_row)
      else (dirs_row, val_row, ind_row)
    else unset
  else unset.

(** [_peaks_from_sh_parallel]: the loop on one chunk, tagged with its id. *)
Definition _peaks_from_sh_parallel
    (args : list (list T) * list (list T) * Sphere T * T * T * T * nat * bool
            * nat * bool) : nat * peaks_arrays :=
  let '(shm_coeff, B, sphere, relative_peak_threshold, absolute_threshold,
        min_separation_angle, npeaks, normalize_peaks, chunk_id,
        is_symmetric) := args in
  (chunk_id,
   _peaks_from_sh_loop shm_coeff B sphere relative_peak_threshold
     absolute_threshold min_separation_angle npeaks normalize_peaks
     is_symmetric).

(** The default mask: [np.sum(shm_coeff, axis=3).astype(bool)]. *)
Definition default_mask (shm_coeff : list (list T)) : list bool :=
  map (fun coeff => nonzero (np_sum coeff)) shm_coeff.

(** The reassembly loop of [peaks_from_sh]:
    [for i, peak_dirs, peak_values, peak_indices in results: ...]. *)
Definition peaks_reassemble (chunk_len : list nat)
    (results : list (nat * peaks_arrays)) (tmp : peaks_arrays) : peaks_arrays :=
  fold_left
    (fun (acc : peaks_arrays) (r : nat * peaks_arrays) =>
       let '(tmp_dirs, tmp_values, tmp_indices) := acc in
       let '(i, (peak_dirs, peak_values, peak_indices)) := r in
       let lo := nth i chunk_len 0 in
       let hi := nth (S i) chunk_len 0 in
       (assign_slice lo hi peak_dirs tmp_dirs,
        assign_slice lo hi peak_values tmp_values,
        assign_slice lo hi peak_indices tmp_indices))
    results tmp.

(** [peaks_from_sh].  The index array it returns is a float array holding
    integers; its entries are kept as integers here. *)
Definition peaks_from_sh (shm_coeff : list (list T)) (sphere : Sphere T)
    (mask : option (list bool))
    (relative_peak_threshold absolute_threshold min_separation_angle : T)
    (normalize_peaks : bool) (npeaks : nat) (sh_basis_type : basis)
    (is_legacy : bool) (nbr_processes : option Z)
    (full_basis is_symmetric : bool) : result peaks_arrays :=
  let sh_order := order_from_ncoef (ncols shm_coeff) full_basis in
  let B := fst (sh_to_sf_matrix sphere sh_order sh_basis_type full_basis
                                is_legacy) in
  let data_shape := length shm_coeff in
  let mask := match mask with
              | None => default_mask shm_coeff
              | Some m => m
              end in
  let nbr_processes := resolve_le0 cpu_count nbr_processes in
  let shm_coeff := mask_select mask shm_coeff in
  tmp <-
    (if (nbr_processes =? 1)%Z then
       Ok (_peaks_from_sh_loop shm_coeff B sphere relative_peak_threshold
             absolute_threshold min_separation_angle npeaks normalize_peaks
             is_symmetric)
     else
       chunks <- array_split shm_coeff nbr_processes ;;
       let results :=
         map (fun ci : list (list T) * nat =>
                _peaks_from_sh_parallel
                  (fst ci, B, sphere, relative_peak_threshold,
                   absolute_threshold, min_separation_angle, npeaks,
                   normalize_peaks, snd ci, is_symmetric))
             (combine chunks (seq 0 (length chunks))) in
       let chunk_len := chunk_offsets chunks in
       let tmp_peak_dirs_array :=
         repeat (zeros2 npeaks 3) (count_nonzero mask) in
       let tmp_peak_values_array := zeros2 (count_nonzero mask) npeaks in
       let tmp_peak_indices_array :=
         repeat (repeat 0%Z npeaks) (count_nonzero mask) in
       Ok (peaks_reassemble chunk_len results
             (tmp_peak_dirs_array, tmp_peak_values_array,
              tmp_peak_indices_array))) ;;
  let '(tmp_peak_dirs_array, tmp_peak_values_array, tmp_peak_indices_array) :=
    tmp in
  let peak_dirs_array := repeat (zeros2 npeaks 3) data_shape in
  let peak_values_array := zeros2 data_shape npeaks in
  let peak_indices_array := repeat (repeat 0%Z npeaks) data_shape in
  Ok (mask_assign mask tmp_peak_dirs_array peak_dirs_array,
      mask_assign mask tmp_peak_values_array peak_values_array,
      mask_assign mask tmp_peak_indices_array peak_indices_array).

End Peaks.

(** ** Derived maps *)

Section Maps.
Context {T : Type} {A : Arith T} {N : Num T}.
Local Open Scope num_scope.

Variable cpu_count : Z.
Variable order_from_ncoef : nat -> bool -> Z.
Variable sh_to_sf_matrix :
  Sphere T -> Z -> basis -> bool -> bool -> list (list T) * list (list T).
(** dipy: [gfa(samples)]. *)
Variable gfa : list T -> T.

(** The variable [qa_map] of the loop holds an (N, npeaks) array until the
    loop body rebinds it to a 1-D array of length npeaks. *)
Inductive qa_array : Type :=
| Qa2D (rows : list (list T))
| Qa1D (row : list T).

(** The local variables of [_maps_from_sh_loop]. *)
Record maps_state : Type := {
  nufo_map : list T;
  afd_max : list T;
  afd_sum : list T;
  rgb_map : list (list T);
  gfa_map : list T;
  qa_map : qa_array;
  max_odf : T;
  global_max : T
}.

(** [np.sum(peak_indices[idx] > -1)]. *)
Definition count_valid (indices : list Z) : nat :=
  length (filter (fun i => (-1 <? i)%Z) indices).

(** [np.dot(np.abs(sphere.vertices).T, odf)]. *)
Definition abs_vertices_dot (sphere : Sphere T) (odf : list T) : list T :=
  let absv := map (map abs) (vertices sphere) in
  map (fun c => dot (column absv c) odf) (seq 0 3).

(** The body of the loop of [_maps_from_sh_loop] at index [idx]. *)
Definition _maps_from_sh_body (shm_coeff peak_values : list (list T))
    (peak_indices : list (list Z)) (B : list (list T)) (sphere : Sphere T)
    (gfa_thr : T) (st : maps_state) (idx : nat) : maps_state :=
  let coeff := nth idx shm_coeff [] in
  if any coeff then
    let odf := np_dot coeff B in
    let odf := clip_min zero odf in
    let sum_odf := np_sum odf in
    let max_odf' := np_maximum (max_odf st) sum_odf in
    let rgb_map' :=
      if zero <? sum_odf then
        let rgb := abs_vertices_dot sphere odf in
        let rgb := map (fun x => x / norm rgb) rgb in
        let rgb := map (fun x => x * sum_odf) rgb in
        set_nth idx rgb (rgb_map st)
      else rgb_map st in
    let gfa_map' := set_nth idx (gfa odf) (gfa_map st) in
    if nth idx gfa_map' zero <? gfa_thr then
      {| nufo_map := nufo_map st; afd_max := afd_max st;
         afd_sum := afd_sum st; rgb_map := rgb_map'; gfa_map := gfa_map';
         qa_map := qa_map st; max_odf := max_odf';
         global_max := py_max (global_max st) (arr_max odf) |}
    else if negb (count_valid (nth idx peak_indices []) =? 0)%nat then
      {| nufo_map :=
           set_nth idx (of_Z (Z.of_nat (count_valid (nth idx peak_indices []))))
                   (nufo_map st);
         afd_max := set_nth idx (arr_max (nth idx peak_values [])) (afd_max st);
         afd_sum := set_nth idx (sqrt (dot coeff coeff)) (afd_sum st);
         rgb_map := rgb_map'; gfa_map := gfa_map';
         qa_map := Qa1D (map (fun v => v - arr_min odf) (nth idx peak_values []));
         max_odf := max_odf';
         global_max :=
           py_max (global_max st) (nth 0 (nth idx peak_values []) zero) |}
    else
      {| nufo_map := nufo_map st; afd_max := afd_max st;
         afd_sum := afd_sum st; rgb_map := rgb_map'; gfa_map := gfa_map';
         qa_map := qa_map st; max_odf := max_odf';
         global_max := global_max st |}
  else st.

(** [_maps_from_sh_loop]. *)
Definition _maps_from_sh_loop (shm_coeff peak_values : list (list T))
    (peak_indices : list (list Z)) (B : list (list T)) (sphere : Sphere T)
    (gfa_thr : T) : maps_state :=
  let data_shape := length shm_coeff in
  fold_left
    (_maps_from_sh_body shm_coeff peak_values peak_indices B sphere gfa_thr)
    (seq 0 (length shm_coeff))
    {| nufo_map := zeros data_shape;
       afd_max := zeros data_shape;
       afd_sum := zeros data_shape;
       rgb_map := zeros2 data_shape 3;
       gfa_map := zeros data_shape;
       qa_map := Qa2D (zeros2 data_shape (ncols peak_values));
       max_odf := zero;
       global_max := neg_inf |}.

(** [_maps_from_sh_parallel]. *)
Definition _maps_from_sh_parallel
    (args : list (list T) * list (list T) * list (list Z) * list (list T)
            * Sphere T * T * nat) : nat * maps_state :=
  let '(shm_coeff, peak_values, peak_indices, B, sphere, gfa_thr, chunk_id) :=
    args in
  (chunk_id,
   _maps_from_sh_loop shm_coeff peak_values peak_indices B sphere gfa_thr).

(** [tmp[lo:hi, :] = qa_map] for either shape of [qa_map]. *)
Definition assign_slice_qa (lo hi : nat) (qa : qa_array)
    (tmp : list (list T)) : list (list T) :=
  match qa with
  | Qa2D rows => assign_slice lo hi rows tmp
  | Qa1D row => assign_slice_row lo hi row tmp
  end.

(** The reduction loop of [maps_from_sh]:
    [for (i, nufo_map, ..., max_odf, global_max) in results: ...].  The
    state holds the tmp arrays and, as [max_odf] and [global_max], the
    variables [all_time_max_odf] and [all_time_global_max]. *)
Definition maps_reduce_step (chunk_len : list nat) (acc : maps_state)
    (r : nat * maps_state) : maps_state :=
  let i := fst r in
  let res := snd r in
  let lo := nth i chunk_len 0 in
  let hi := nth (S i) chunk_len 0 in
  {| max_odf := py_max (global_max acc) (max_odf res);
     global_max := py_max (global_max acc) (global_max res);
     nufo_map := assign_slice lo hi (nufo_map res) (nufo_map acc);
     afd_max := assign_slice lo hi (afd_max res) (afd_max acc);
     afd_sum := assign_slice lo hi (afd_sum res) (afd_sum acc);
     rgb_map := assign_slice lo hi (rgb_map res) (rgb_map acc);
     gfa_map := assign_slice lo hi (gfa_map res) (gfa_map acc);
     qa_map :=
       match qa_map acc with
       | Qa2D tmp => Qa2D (assign_slice_qa lo hi (qa_map res) tmp)
       | Qa1D row => Qa1D row
       end |}.

Definition maps_reduce (chunk_len : list nat)
    (results : list (nat * maps_state)) (init : maps_state) : maps_state :=
  fold_left (maps_reduce_step chunk_len) results init.

(** The first half of [maps_from_sh], up to the comment "Bring back to the
    original shape": the mask, the ravelled inputs, and the tmp arrays with
    the two all-time trackers. *)
Definition maps_from_sh_mask (shm_coeff : list (list T))
    (mask : option (list bool)) : list bool :=
  match mask with
  | None => default_mask shm_coeff
  | Some m => m
  end.

Definition maps_from_sh_tmp (shm_coeff peak_values : list (list T))
    (peak_indices : list (list Z)) (sphere : Sphere T)
    (mask : option (list bool)) (gfa_thr : T) (sh_basis_type : basis)
    (nbr_processes : option Z) : result maps_state :=
  let sh_order := order_from_ncoef (ncols shm_coeff) false in
  let B := fst (sh_to_sf_matrix sphere sh_order sh_basis_type false true) in
  let mask := maps_from_sh_mask shm_coeff mask in
  let nbr_processes := resolve_lt0 cpu_count nbr_processes in
  let npeaks := ncols peak_values in
  let shm_coeff := mask_select mask shm_coeff in
  let peak_values := mask_select mask peak_values in
  let peak_indices := mask_select mask peak_indices in
  if (nbr_processes =? 1)%Z then
    Ok (_maps_from_sh_loop shm_coeff peak_values peak_indices B sphere gfa_thr)
  else
    shm_coeff_chunks <- array_split shm_coeff nbr_processes ;;
    peak_values_chunks <- array_split peak_values nbr_processes ;;
    peak_indices_chunks <- array_split peak_indices nbr_processes ;;
    let results :=
      map (fun a : list (list T) * list (list T) * list (list Z) * nat =>
             let '(c, pv, pi, i) := a in
             _maps_from_sh_parallel (c, pv, pi, B, sphere, gfa_thr, i))
          (combine (combine (combine shm_coeff_chunks peak_values_chunks)
                            peak_indices_chunks)
                   (seq 0 (length shm_coeff_chunks))) in
    let chunk_len := chunk_offsets shm_coeff_chunks in
    Ok (maps_reduce chunk_len results
          {| nufo_map := zeros (count_nonzero mask);
             afd_max := zeros (count_nonzero mask);
             afd_sum := zeros (count_nonzero mask);
             rgb_map := zeros2 (count_nonzero mask) 3;
             gfa_map := zeros (count_nonzero mask);
             qa_map := Qa2D (zeros2 (count_nonzero mask) npeaks);
             max_odf := neg_inf;
             global_max := neg_inf |}).

(** The six arrays [maps_from_sh] returns. *)
Record maps : Type := {
  nufo_map_array : list T;
  afd_max_array : list T;
  afd_sum_array : list T;
  rgb_map_array : list (list T);
  gfa_map_array : list T;
  qa_map_array : list (list T)
}.

(** [qa_map_array[mask] = tmp_qa_map_array] for either shape of the tmp
    array. *)
Definition mask_assign_qa (mask : list bool) (tmp : qa_array)
    (a : list (list T)) : list (list T) :=
  match tmp with
  | Qa2D rows => mask_assign mask rows a
  | Qa1D row => mask_assign_row mask row a
  end.

(** The second half of [maps_from_sh]: the scatter into the volume, then
    the two divisions.  (The warning about AFD_max values is only logged.) *)
Definition maps_scatter (data_shape npeaks : nat) (mask : list bool)
    (tmp : maps_state) : maps :=
  {| nufo_map_array := mask_assign mask (nufo_map tmp) (zeros data_shape);
     afd_max_array := mask_assign mask (afd_max tmp) (zeros data_shape);
     afd_sum_array := mask_assign mask (afd_sum tmp) (zeros data_shape);
     rgb_map_array := mask_assign mask (rgb_map tmp) (zeros2 data_shape 3);
     gfa_map_array := mask_assign mask (gfa_map tmp) (zeros data_shape);
     qa_map_array :=
       mask_assign_qa mask (qa_map tmp) (zeros2 data_shape npeaks) |}.

Definition maps_normalize (all_time_max_odf all_time_global_max : T)
    (m : maps) : maps :=
  {| nufo_map_array := nufo_map_array m;
     afd_max_array := afd_max_array m;
     afd_sum_array := afd_sum_array m;
     rgb_map_array :=
       map (map (fun x => (x / all_time_max_odf) * of_Z 255)) (rgb_map_array m);
     gfa_map_array := gfa_map_array m;
     qa_map_array :=
       map (map (fun x => x / all_time_global_max)) (qa_map_array m) |}.

(** [maps_from_sh]. *)
Definition maps_from_sh (shm_coeff peak_values : list (list T))
    (peak_indices : list (list Z)) (sphere : Sphere T)
    (mask : option (list bool)) (gfa_thr : T) (sh_basis_type : basis)
    (nbr_processes : option Z) : result maps :=
  tmp <- maps_from_sh_tmp shm_coeff peak_values peak_indices sphere mask
           gfa_thr sh_basis_type nbr_processes ;;
  Ok (maps_normalize (max_odf tmp) (global_max tmp)
        (maps_scatter (length shm_coeff) (ncols peak_values)
           (maps_from_sh_mask shm_coeff mask) tmp)).

End Maps.

(** ** Conversions *)

(** The two dtypes [convert_sh_to_sf] accepts. *)
Inductive dtype : Type := Float32 | Float64.

(** numpy's type promotion on the two dtypes. *)
Definition promote (d1 d2 : dtype) : dtype :=
  match d1, d2 with
  | Float32, Float32 => Float32
  | _, _ => Float64
  end.

Section Convert.
Context {T : Type} {A : Arith T} {N : Num T}.
Local Open Scope num_scope.

Variable cpu_count : Z.
Variable order_from_ncoef : nat -> bool -> Z.
Variable sh_to_sf_matrix :
  Sphere T -> Z -> basis -> bool -> bool -> list (list T) * list (list T).

(** The body and the loop of [_convert_sh_basis_loop]: the rows of [sh] are
    overwritten in place. *)
Definition _convert_sh_basis_body (B_in invB_out : list (list T))
    (sh : list (list T)) (idx : nat) : list (list T) :=
  if any (nth idx sh []) then
    let sf := np_dot (nth idx sh []) B_in in
    set_nth idx (np_dot sf invB_out) sh
  else sh.

Definition _convert_sh_basis_loop (sh B_in invB_out : list (list T))
    : list (list T) :=
  fold_left (_convert_sh_basis_body B_in invB_out) (seq 0 (length sh)) sh.

(** What the loop leaves in a row, as a function of the row it finds. *)
Definition convert_basis_voxel (B_in invB_out : list (list T))
    (coeff : list T) : list T :=
  if any coeff then np_dot (np_dot coeff B_in) invB_out else coeff.

Definition _convert_sh_basis_parallel
    (args : list (list T) * list (list T) * list (list T) * nat)
    : nat * list (list T) :=
  let '(sh, B_in, invB_out, chunk_id) := args in
  (chunk_id, _convert_sh_basis_loop sh B_in invB_out).

(** [for i, new in results: tmp[chunk_len[i]:chunk_len[i+1], :] = new]. *)
Definition rows_reassemble {R : Type} (chunk_len : list nat)
    (results : list (nat * list R)) (tmp : list R) : list R :=
  fold_left
    (fun acc (r : nat * list R) =>
       assign_slice (nth (fst r) chunk_len 0) (nth (S (fst r)) chunk_len 0)
                    (snd r) acc)
    results tmp.

Definition basis_eqb (b1 b2 : basis) : bool :=
  match b1, b2 with
  | descoteaux07, descoteaux07 | tournier07, tournier07 => true
  | _, _ => false
  end.

(** [convert_sh_basis]. *)
Definition convert_sh_basis (shm_coeff : list (list T)) (sphere : Sphere T)
    (mask : option (list bool)) (input_basis output_basis : basis)
    (is_input_legacy is_output_legacy : bool) (nbr_processes : option Z)
    : result (list (list T)) :=
  if basis_eqb input_basis output_basis
     && Bool.eqb is_input_legacy is_output_legacy
  then Ok shm_coeff
  else
    let sh_order := order_from_ncoef (ncols shm_coeff) false in
    let B_in :=
      fst (sh_to_sf_matrix sphere sh_order input_basis false is_input_legacy) in
    let invB_out :=
      snd (sh_to_sf_matrix sphere sh_order output_basis false
                           is_output_legacy) in
    let data_shape := (length shm_coeff, ncols shm_coeff) in
    let mask := match mask with
                | None => default_mask shm_coeff
                | Some m => m
                end in
    let nbr_processes := resolve_lt0 cpu_count nbr_processes in
    let shm_coeff := mask_select mask shm_coeff in
    tmp_shm_coeff_array <-
      (if (nbr_processes =? 1)%Z then
         Ok (_convert_sh_basis_loop shm_coeff B_in invB_out)
       else
         shm_coeff_chunks <- array_split shm_coeff nbr_processes ;;
         let results :=
           map (fun ci : list (list T) * nat =>
                  _convert_sh_basis_parallel (fst ci, B_in, invB_out, snd ci))
               (combine shm_coeff_chunks (seq 0 (length shm_coeff_chunks))) in
         let chunk_len := chunk_offsets shm_coeff_chunks in
         Ok (rows_reassemble chunk_len results
               (zeros2 (count_nonzero mask) (snd data_shape)))) ;;
    Ok (mask_assign mask tmp_shm_coeff_array
          (zeros2 (fst data_shape) (snd data_shape))).

(** *** SH to SF, with dtypes *)

(** An array with its dtype; a [Float32] array holds binary32 values. *)
Record ndarray : Type := { dtype_of : dtype; rows : list (list T) }.

(** A real number as a value of dtype [d]. *)
Definition cast (d : dtype) (x : T) : T :=
  match d with
  | Float32 => to_float32 x
  | Float64 => x
  end.

(** A value held in an array of dtype [src], once assigned to an array of
    dtype [dst]: rounded when the destination is narrower, unchanged
    otherwise. *)
Definition store (src dst : dtype) (x : T) : T :=
  match src, dst with
  | Float64, Float32 => to_float32 x
  | _, _ => x
  end.

(** [a.astype(d)], and the rows of [a] once assigned to an array of dtype
    [d]. *)
Definition astype (d : dtype) (a : ndarray) : ndarray :=
  {| dtype_of := d; rows := map (map (store (dtype_of a) d)) (rows a) |}.

(** [np.dot(a, B)] computed in the dtype [d]: every product and every
    partial sum is a value of that dtype. *)
Definition dot_in (d : dtype) (a b : list T) : T :=
  fold_left (fun acc x => cast d (acc + x))
            (map (fun p => cast d (fst p * snd p)) (combine a b)) zero.

Definition np_dot_in (d : dtype) (a : list T) (B : list (list T)) : list T :=
  map (fun j => dot_in d a (column B j)) (seq 0 (ncols B)).

(** The body and the loop of [_convert_sh_to_sf_loop]: [sf] is allocated
    with [dtype=np.float32]; the product is computed in the promoted dtype
    of its operands and stored in [sf]. *)
Definition _convert_sh_to_sf_body (sh B_in : ndarray) (sf : list (list T))
    (idx : nat) : list (list T) :=
  if any (nth idx (rows sh) []) then
    set_nth idx
      (map (store (promote (dtype_of sh) (dtype_of B_in)) Float32)
           (np_dot_in (promote (dtype_of sh) (dtype_of B_in))
                      (nth idx (rows sh) []) (rows B_in)))
      sf
  else sf.

Definition _convert_sh_to_sf_loop (sh : ndarray) (new_output_dim : nat)
    (B_in : ndarray) : ndarray :=
  {| dtype_of := Float32;
     rows := fold_left (_convert_sh_to_sf_body sh B_in)
               (seq 0 (length (rows sh)))
               (zeros2 (length (rows sh)) new_output_dim) |}.

(** What the loop leaves in row [idx] of [sf], as a function of the
    coefficients of the voxel. *)
Definition sf_voxel (sh_dtype : dtype) (B_in : ndarray) (new_output_dim : nat)
    (coeff : list T) : list T :=
  if any coeff then
    map (store (promote sh_dtype (dtype_of B_in)) Float32)
        (np_dot_in (promote sh_dtype (dtype_of B_in)) coeff (rows B_in))
  else zeros new_output_dim.

Definition _convert_sh_to_sf_parallel
    (args : ndarray * ndarray * nat * nat) : nat * ndarray :=
  let '(sh, B_in, new_output_dim, chunk_id) := args in
  (chunk_id, _convert_sh_to_sf_loop sh new_output_dim B_in).

(** [np.array_split(a, n)] for the Python value [n]: [int(None)] is a
    [TypeError]. *)
Definition array_split_py {R : Type} (a : list R) (n : option Z)
    : result (list (list R)) :=
  match n with
  | None => Raise (TypeError "int() argument must be a string, a bytes-like object or a real number, not 'NoneType'")
  | Some n => array_split a n
  end.

(** [nbr_processes == 1] for the Python value [nbr_processes]. *)
Definition is_one (n : option Z) : bool :=
  match n with
  | Some n => (n =? 1)%Z
  | None => false
  end.

(** [convert_sh_to_sf].  [B] is the float64 matrix dipy returns;
    [nbr_processes] is the value the caller passes (the default of the
    parameter is [cpu_count], see [convert_sh_to_sf_unset]). *)
Definition convert_sh_to_sf (shm_coeff : ndarray) (sphere : Sphere T)
    (mask : option (list bool)) (dtype : dtype) (input_basis : basis)
    (input_full_basis is_input_legacy : bool) (nbr_processes : option Z)
    : result ndarray :=
  let sh_order :=
    order_from_ncoef (ncols (rows shm_coeff)) input_full_basis in
  let B_in :=
    {| dtype_of := Float64;
       rows := fst (sh_to_sf_matrix sphere sh_order input_basis
                                    input_full_basis is_input_legacy) |} in
  let B_in := astype dtype B_in in
  let data_shape := length (rows shm_coeff) in
  let mask := match mask with
              | None => default_mask (rows shm_coeff)
              | Some m => m
              end in
  let output_dim := length (vertices sphere) in
  let shm_coeff :=
    {| dtype_of := dtype_of shm_coeff;
       rows := mask_select mask (rows shm_coeff) |} in
  tmp_sf_array <-
    (if is_one nbr_processes then
       Ok (_convert_sh_to_sf_loop shm_coeff output_dim B_in)
     else
       shm_coeff_chunks <- array_split_py (rows shm_coeff) nbr_processes ;;
       let results :=
         map (fun ci : list (list T) * nat =>
                _convert_sh_to_sf_parallel
                  ({| dtype_of := dtype_of shm_coeff; rows := fst ci |},
                   B_in, output_dim, snd ci))
             (combine shm_coeff_chunks (seq 0 (length shm_coeff_chunks))) in
       let chunk_len := chunk_offsets shm_coeff_chunks in
       Ok {| dtype_of := dtype;
             rows :=
               rows_reassemble chunk_len
                 (map (fun r : nat * ndarray =>
                         (fst r, rows (astype dtype (snd r)))) results)
                 (zeros2 (count_nonzero mask) output_dim) |}) ;;
  Ok {| dtype_of := dtype;
        rows := mask_assign mask (rows (astype dtype tmp_sf_array))
                  (zeros2 data_shape output_dim) |}.

(** A call that leaves [nbr_processes] unset. *)
Definition convert_sh_to_sf_unset (shm_coeff : ndarray) (sphere : Sphere T)
    (mask : option (list bool)) (dtype : dtype) (input_basis : basis)
    (input_full_basis is_input_legacy : bool) : result ndarray :=
  convert_sh_to_sf shm_coeff sphere mask dtype input_basis input_full_basis
    is_input_legacy (Some cpu_count).

End Convert.

(** ** RISH features *)

Section StridesAndCounts.
Context {R : Type}.

(** [a[::step]] for [step >= 1]. *)
Fixpoint strided_aux (step skip : nat) (a : list R) : list R :=
  match a with
  | [] => []
  | x :: r =>
      match skip with
      | O => x :: strided_aux step (step - 1) r
      | S k => strided_aux step k r
      end
  end.
Definition strided (step : nat) (a : list R) : list R := strided_aux step 0 a.

(** [np.repeat(a, 2)]. *)
Definition repeat2 (a : list R) : list R := flat_map (fun x => [x; x]) a.
End StridesAndCounts.

(** [np.bincount(a)]: the number of occurrences of 0, 1, ..., max(a). *)
Definition bincount (a : list nat) : list nat :=
  match a with
  | [] => []
  | _ => map (fun v => count_occ Nat.eq_dec a v) (seq 0 (S (list_max a)))
  end.

(** [sorted(np.unique(a))]: the values that occur, ascending. *)
Definition sorted_unique (a : list nat) : list nat :=
  filter (fun v => negb (count_occ Nat.eq_dec a v =? 0)) (seq 0 (S (list_max a))).

(** dipy's [sph_harm_ind_list(sh_order, full_basis)]: the degrees m and the
    orders l of the coefficients, l in steps of 2 (of 1 for a full basis)
    from 0 to [sh_order] and m from -l to l for each l; a [ValueError] for an
    odd order of a symmetric basis. *)
Definition l_range (sh_order : Z) (full_basis : bool) : list nat :=
  if full_basis then seq 0 (Z.to_nat (sh_order + 1))
  else map (fun k => 2 * k) (seq 0 (Z.to_nat (sh_order / 2 + 1))).

Definition dipy_sph_harm_ind_list (sh_order : Z) (full_basis : bool)
    : result (list Z * list nat) :=
  if negb full_basis && negb (Z.even sh_order)
  then Raise (ValueError "sh_order must be an even integer >= 0")
  else
    Ok (flat_map (fun l => map (fun k => (Z.of_nat k - Z.of_nat l)%Z)
                               (seq 0 (2 * l + 1)))
                 (l_range sh_order full_basis),
        flat_map (fun l => repeat l (2 * l + 1)) (l_range sh_order full_basis)).

(** dipy's [order_from_ncoef(ncoef, full_basis)]:
    [int(sqrt(ncoef) - 1)] for a full basis, else
    [-1 + int(sqrt(9 - 4 * (2 - 2 * ncoef))) // 2]. *)
Definition dipy_order_from_ncoef (ncoef : nat) (full_basis : bool) : Z :=
  if full_basis then (Z.sqrt (Z.of_nat ncoef) - 1)%Z
  else (-1 + Z.sqrt (9 - 4 * (2 - 2 * Z.of_nat ncoef)) / 2)%Z.

Section Rish.
Context {T : Type} {A : Arith T}.
Local Open Scope num_scope.

(** [np.add.reduce(a)] of a non-empty 1-D array. *)
Definition add_reduce (a : list T) : T :=
  match a with
  | [] => zero
  | x :: r => fold_left add r x
  end.

(** [np.add.reduceat(a, indices)] on a 1-D array: entry i is the sum of
    [a[indices[i]:indices[i+1]]], or [a[indices[i]]] when
    [indices[i] >= indices[i+1]]; the last entry is the sum of
    [a[indices[-1]:]]. *)
Fixpoint reduceat (a : list T) (indices : list nat) : list T :=
  match indices with
  | [] => []
  | i :: rest =>
      match rest with
      | [] => add_reduce (skipn i a)
      | j :: _ => if (i <? j)%nat then add_reduce (slice i j a) else nth i a zero
      end :: reduceat a rest
  end.

(** A mask value as a number. *)
Definition of_bool (b : bool) : T := if b then one else zero.

(** [a * mask[..., None]]. *)
Definition apply_mask (mask : list bool) (a : list (list T)) : list (list T) :=
  map (fun p => map (fun x => x * of_bool (snd p)) (fst p)) (combine a mask).

(** [compute_rish], given the order dipy infers and the indices it lists. *)
Definition compute_rish (sh : list (list T)) (mask : option (list bool))
    (full_basis : bool) : result (list (list T) * list nat) :=
  let sh_order := dipy_order_from_ncoef (ncols sh) full_basis in
  ids <- dipy_sph_harm_ind_list sh_order full_basis ;;
  let order_ids := snd ids in
  let sh := match mask with
            | Some m => apply_mask m sh
            | None => sh
            end in
  let step := if full_basis then 1 else 2 in
  let n_indices_per_order := strided step (bincount order_ids) in
  let order_positions := removelast (0 :: cumsum n_indices_per_order) in
  let reduce_indices := tl (repeat2 order_positions) in
  let squared_sh := map (map (fun x => x * x)) sh in
  let rish :=
    map (fun row => strided 2 (reduceat row reduce_indices)) squared_sh in
  let rish := match mask with
              | Some m => apply_mask m rish
              | None => rish
              end in
  let orders := sorted_unique order_ids in
  Ok (rish, orders).

End Rish.

(** The number of coefficients of a basis of order [sh_order]:
    (order + 1)^2 for a full basis, (order + 1)(order + 2)/2 for a symmetric
    one. *)
Definition ncoef_of (sh_order : nat) (full_basis : bool) : nat :=
  if full_basis then (sh_order + 1) * (sh_order + 1)
  else (sh_order + 1) * (sh_order + 2) / 2.

(** The entries of a row whose SH order, as listed in [order_ids], is [l]. *)
Definition coefficients_of_order {R : Type} (order_ids : list nat) (l : nat)
    (row : list R) : list R :=
  map snd (filter (fun p => (fst p =? l)%nat) (combine order_ids row)).

(** The start of each block of a list cut into blocks of the given sizes,
    and the sums of the blocks, the last one running to the end of the
    list. *)
Fixpoint block_starts (start : nat) (sizes : list nat) : list nat :=
  match sizes with
  | [] => []
  | n :: rest => start :: block_starts (start + n) rest
  end.

Fixpoint block_sums {T : Type} {A : Arith T} (a : list T) (sizes : list nat)
    : list T :=
  match sizes with
  | [] => []
  | n :: rest =>
      match rest with
      | [] => [add_reduce a]
      | _ => add_reduce (firstn n a) :: block_sums (skipn n a) rest
      end
  end.

(** ** SH fit *)

(** What [compute_sh_coefficients] does besides returning: the warning it
    logs and its calls of the two numerical routines. *)
Inductive event : Type :=
| LogWarning (msg : string)
| CallAttenuation
| CallSfToSh.

Section Fit.
Context {T : Type} {A : Arith T} {N : Num T}.
Local Open Scope num_scope.

(** dipy's [GradientTable], as far as the function reads it. *)
Record GradientTable : Type := {
  b0s_mask : list bool;
  bvecs : list (list T);
  bvals : list T
}.

(** scilpy.gradients.bvec_bval_tools, not part of the sources at hand. *)
Variable is_normalized_bvecs : list (list T) -> bool.
Variable normalize_bvecs : list (list T) -> list (list T).
(** [identify_shells(bvals)]: the shell values and the shell of each volume. *)
Variable identify_shells : list T -> list T * list Z.
(** scilpy.dwi.operations. *)
Variable compute_dwi_attenuation : list (list T) -> list T -> list (list T).
(** dipy: [sf_to_sh(sf, sphere, sh_order, basis_type, smooth, legacy)]. *)
Variable sf_to_sh :
  list (list T) -> Sphere T -> nat -> basis -> T -> bool -> list (list T).

(** [a.sort()]: ascending, by insertion. *)
Fixpoint insert_sorted (x : T) (l : list T) : list T :=
  match l with
  | [] => [x]
  | y :: r => if x <=? y then x :: l else y :: insert_sorted x r
  end.
Definition sort (l : list T) : list T := fold_right insert_sorted [] l.

(** [a.mean()] of a 1-D array. *)
Definition mean (a : list T) : T := np_sum a / of_Z (Z.of_nat (length a)).

(** [compute_sh_coefficients]: the events in the order they happen, and the
    array it returns or the exception it raises. *)
Definition compute_sh_coefficients (dwi : list (list T))
    (gradient_table : GradientTable) (b0_threshold : T) (sh_order : nat)
    (basis_type : basis) (smooth : T) (use_attenuation : bool)
    (mask : option (list bool)) (sphere : option (Sphere T))
    (is_legacy : bool) : list event * result (list (list T)) :=
  let b0_mask := b0s_mask gradient_table in
  let bvecs0 := bvecs gradient_table in
  let bvals0 := bvals gradient_table in
  let '(log1, bvecs1) :=
    if negb (is_normalized_bvecs bvecs0)
    then ([LogWarning "Your b-vectors do not seem normalized..."],
          normalize_bvecs bvecs0)
    else ([], bvecs0) in
  let shell_values := sort (fst (identify_shells bvals0)) in
  if negb (length shell_values =? 2)%nat
     || (b0_threshold <? nth 0 shell_values zero)
  then (log1, Raise (ValueError "Can only work on single shell signals."))
  else
    let bvecs2 := mask_select (map negb b0_mask) bvecs1 in
    let weights := map (mask_select (map negb b0_mask)) dwi in
    let '(log2, weights) :=
      if use_attenuation
      then (log1 ++ [CallAttenuation],
            compute_dwi_attenuation weights
              (map (fun row => mean (mask_select b0_mask row)) dwi))
      else (log1, weights) in
    let sphere := match sphere with
                  | None => {| vertices := bvecs2 |}
                  | Some s => s
                  end in
    let sh := sf_to_sh weights sphere sh_order basis_type smooth is_legacy in
    let sh := match mask with
              | Some m => apply_mask m sh
              | None => sh
              end in
    (log2 ++ [CallSfToSh], Ok sh).

End Fit.

(** The distinct values of a list, in the order of their first occurrence,
    and the position of a value in a list (-1 when it is absent). *)
Fixpoint unique_values {T : Type} {A : Arith T} {N : Num T} (l : list T)
    : list T :=
  match l with
  | [] => []
  | x :: r => x :: filter (fun y => negb (eqb y x)) (unique_values r)
  end.

Fixpoint index_of {T : Type} {A : Arith T} {N : Num T} (x : T) (l : list T)
    : Z :=
  match l with
  | [] => (-1)%Z
  | y :: r => if eqb y x then 0%Z else
                match index_of x r with
                | Zneg _ => (-1)%Z
                | k => (k + 1)%Z
                end
  end.

(** Modelled from the spec: [identify_shells] of
    scilpy.gradients.bvec_bval_tools is not among the sources; the spec has
    it classify the gradient shells "by unique b-value clusters".  The shell
    values are the distinct b-values and the shell of a volume is the
    position of its b-value among them. *)
Definition identify_shells_spec {T : Type} {A : Arith T} {N : Num T}
    (bvals : list T) : list T * list Z :=
  (unique_values bvals,
   map (fun b => index_of b (unique_values bvals)) bvals).

(** ** dipy at the inputs of the concrete runs *)

(** dipy's [gfa(samples)], as its documentation gives it:
    [sqrt(n * sum((x - mean)^2) / ((n - 1) * sum(x^2)))], and 0 where the
    denominator is not positive. *)
Definition dipy_gfa {T : Type} {A : Arith T} {N : Num T} (samples : list T)
    : T :=
  let n := of_Z (Z.of_nat (length samples)) in
  let m := div (np_sum samples) n in
  let numer := mul n (np_sum (map (fun x => mul (sub x m) (sub x m)) samples)) in
  let denom := mul (sub n one) (np_sum (map (fun x => mul x x) samples)) in
  if ltb zero denom then sqrt (div numer denom) else zero.

Module Run.
#[local] Set Warnings "-inexact-float".
Local Open Scope float_scope.

(** The value of the SH function of order 0 at every direction,
    1 / (2 sqrt(pi)), in binary64. *)
Definition Y00 : float := 0.28209479177387814.

(** [sh_to_sf_matrix] for [sh_order = 0] (one coefficient; the two bases
    and their legacy forms agree there): B is the (1, D) matrix of [Y00] and
    invB, its pseudo-inverse, the (D, 1) matrix of 1 / (D * Y00). *)
Definition sh_to_sf_matrix0 (sphere : Sphere float) (sh_order : Z)
    (basis_type : basis) (full_basis legacy : bool)
    : list (list float) * list (list float) :=
  let D := length (vertices sphere) in
  ([repeat Y00 D],
   repeat [1 / (of_Z (Z.of_nat D) * Y00)] D).

(** A sphere of two antipodal directions. *)
Definition sphere2 : Sphere float :=
  {| vertices := [[1; 0; 0]; [-1; 0; 0]] |}.

(** A stand-in for dipy's [peak_directions] in the runs: one peak, at the
    first vertex of the largest sample, and none when no sample is
    positive. *)
Definition argmax (l : list float) : nat * float :=
  snd (fold_left
         (fun (acc : nat * (nat * float)) (x : float) =>
            let '(k, (bi, best)) := acc in
            if best <? x then (S k, (k, x)) else (S k, (bi, best)))
         l (0%nat, (0%nat, neg_infinity))).

Definition peak_directions_argmax (odf : list float) (sphere : Sphere float)
    (relative_peak_threshold min_separation_angle : float)
    (is_symmetric : bool) : list (list float) * list float * list Z :=
  let '(i, v) := argmax odf in
  if 0 <? v then ([nth i (vertices sphere) []], [v], [Z.of_nat i])
  else ([], [], []).

(** [peaks_from_sh] with five peaks on a volume of one-coefficient voxels. *)
Definition peaks_run (shm_coeff : list (list float))
    (mask : option (list bool)) (nbr_processes : option Z)
    : result peaks_arrays :=
  peaks_from_sh 8%Z dipy_order_from_ncoef sh_to_sf_matrix0
    peak_directions_argmax shm_coeff sphere2 mask 0.5 0 25 false 5
    descoteaux07 true nbr_processes false true.

(** [convert_sh_to_sf] on a float64 volume of one-coefficient voxels. *)
Definition sf_run (shm_coeff : list (list float)) (d : dtype)
    (nbr_processes : option Z) : result ndarray :=
  convert_sh_to_sf dipy_order_from_ncoef sh_to_sf_matrix0
    {| dtype_of := Float64; rows := shm_coeff |} sphere2 None d descoteaux07
    false true nbr_processes.

(** [maps_from_sh] on a volume of two voxels with one coefficient each. *)
Definition maps_run (shm_coeff peak_values : list (list float))
    (peak_indices : list (list Z)) (mask : option (list bool))
    (gfa_thr : float) (nbr_processes : option Z) : result maps :=
  maps_from_sh 8%Z dipy_order_from_ncoef sh_to_sf_matrix0 dipy_gfa shm_coeff
    peak_values peak_indices sphere2 mask gfa_thr descoteaux07 nbr_processes.

Definition maps_tmp_run (shm_coeff peak_values : list (list float))
    (peak_indices : list (list Z)) (mask : option (list bool))
    (gfa_thr : float) (nbr_processes : option Z) : result maps_state :=
  maps_from_sh_tmp 8%Z dipy_order_from_ncoef sh_to_sf_matrix0 dipy_gfa
    shm_coeff peak_values peak_indices sphere2 mask gfa_thr descoteaux07
    nbr_processes.

(** The trackers the chunks of a two-worker run return. *)
Definition chunk_trackers (shm_coeff peak_values : list (list float))
    (peak_indices : list (list Z)) (gfa_thr : float)
    : list (float * float) :=
  match array_split shm_coeff 2, array_split peak_values 2,
        array_split peak_indices 2 with
  | Ok cs, Ok pvs, Ok pis =>
      map (fun a : list (list float) * list (list float) * list (list Z) =>
             let '(c, pv, pi) := a in
             let st := _maps_from_sh_loop dipy_gfa c pv pi [repeat Y00 2]
                         sphere2 gfa_thr in
             (max_odf st, global_max st))
          (combine (combine cs pvs) pis)
  | _, _, _ => []
  end.

End Run.

(** ** The loops, voxel by voxel *)

Section MapsVoxel.
Context {T : Type} {A : Arith T} {N : Num T}.
Local Open Scope num_scope.

Variable gfa : list T -> T.

(** What the body of [_maps_from_sh_loop] leaves at index [idx] of
    [nufo_map], [afd_max], [afd_sum], [gfa_map] and [rgb_map], as a function
    of the coefficients, the peak values and the peak indices of the voxel:
    the body read on the zeros the arrays are allocated with. *)
Record voxel_maps : Type := {
  nufo_of : T;
  afd_max_of : T;
  afd_sum_of : T;
  gfa_of : T;
  rgb_of : list T
}.

Definition maps_voxel (B : list (list T)) (sphere : Sphere T) (gfa_thr : T)
    (v : list T * list T * list Z) : voxel_maps :=
  let coeff := fst (fst v) in
  let values := snd (fst v) in
  let indices := snd v in
  if any coeff then
    let odf := np_dot coeff B in
    let odf := clip_min zero odf in
    let sum_odf := np_sum odf in
    let rgb_row :=
      if zero <? sum_odf then
        let rgb := abs_vertices_dot sphere odf in
        let rgb := map (fun x => x / norm rgb) rgb in
        map (fun x => x * sum_odf) rgb
      else zeros 3 in
    if gfa odf <? gfa_thr then
      {| nufo_of := zero; afd_max_of := zero; afd_sum_of := zero;
         gfa_of := gfa odf; rgb_of := rgb_row |}
    else if negb (count_valid indices =? 0)%nat then
      {| nufo_of := of_Z (Z.of_nat (count_valid indices));
         afd_max_of := arr_max values;
         afd_sum_of := sqrt (dot coeff coeff);
         gfa_of := gfa odf; rgb_of := rgb_row |}
    else
      {| nufo_of := zero; afd_max_of := zero; afd_sum_of := zero;
         gfa_of := gfa odf; rgb_of := rgb_row |}
  else
    {| nufo_of := zero; afd_max_of := zero; afd_sum_of := zero;
       gfa_of := zero; rgb_of := zeros 3 |}.

(** The five arrays of the loop after [k] passes over the voxels [Tr],
    each voxel given with its peak values and its peak indices. *)
Definition maps_filled (B : list (list T)) (sphere : Sphere T) (gfa_thr : T)
    (Tr : list (list T * list T * list Z)) (k : nat) (st : maps_state)
    : Prop :=
  let mv := maps_voxel B sphere gfa_thr in
  nufo_map st
  = map (fun v => nufo_of (mv v)) (firstn k Tr)
    ++ repeat zero (length Tr - k)%nat
  /\ afd_max st
     = map (fun v => afd_max_of (mv v)) (firstn k Tr)
       ++ repeat zero (length Tr - k)%nat
  /\ afd_sum st
     = map (fun v => afd_sum_of (mv v)) (firstn k Tr)
       ++ repeat zero (length Tr - k)%nat
  /\ gfa_map st
     = map (fun v => gfa_of (mv v)) (firstn k Tr)
       ++ repeat zero (length Tr - k)%nat
  /\ rgb_map st
     = map (fun v => rgb_of (mv v)) (firstn k Tr)
       ++ repeat (zeros 3) (length Tr - k)%nat.

(** The row the body of the loop binds [qa_map] to at a voxel, when it does:
    the voxel has a non-zero coefficient, its GFA is not below the threshold
    and it has a valid peak. *)
Definition qa_voxel (B : list (list T)) (gfa_thr : T)
    (v : list T * list T * list Z) : option (list T) :=
  let coeff := fst (fst v) in
  let values := snd (fst v) in
  let indices := snd v in
  if any coeff then
    let odf := np_dot coeff B in
    let odf := clip_min zero odf in
    if gfa odf <? gfa_thr then None
    else if negb (count_valid indices =? 0)%nat then
      Some (map (fun p => p - arr_min odf) values)
    else None
  else None.

End MapsVoxel.

(** The last value given, over a list read in order. *)
Definition last_some {R : Type} (l : list (option R)) : option R :=
  fold_left (fun acc o => match o with Some r => Some r | None => acc end)
            l None.

(** ** The recommended number of volumes *)

(** A call of [logging.warning] with a formatted message: the template and
    the values given to [format]. *)
Inductive log_call : Type :=
| LoggingWarning (template : string) (args : list QArith_base.Q).

(** [verify_data_vs_sh_order(data, sh_order)], where [nb_volumes] is
    [data.shape[-1]].  The quotient [(sh_order + 1) * (sh_order + 2) / 2] is
    Python's true division, a rational number here; the function returns
    nothing, so its result is the list of the warnings it logs. *)
Definition verify_data_vs_sh_order (nb_volumes : nat) (sh_order : Z)
    : list log_call :=
  let recommended :=
    QArith_base.Qmake ((sh_order + 1) * (sh_order + 2)) 2 in
  let have := QArith_base.inject_Z (Z.of_nat nb_volumes) in
  if negb (QArith_base.Qle_bool recommended have) then
    [LoggingWarning
       "We recommend having at least {} unique DWIs volumes, but you currently have {} volumes. Try lowering the parameter --sh_order in case of non convergence."
       [recommended; have]]
  else [].

(** ** scilpy.dwi.utils: rescaling after a bias-field correction *)

Section Rescale.
Context {T : Type} {A : Arith T} {N : Num T}.
Local Open Scope num_scope.

(** [_rescale_intensity(val, slope, in_max, bc_max)]. *)
Definition _rescale_intensity (val slope in_max bc_max : T) : T :=
  in_max - slope * (bc_max - val).

(** [np.amin(a)] and [np.amax(a)] of a whole array, given as the list of its
    slabs along the first axis: the elements are compared in C order, and an
    array without elements raises. *)
Definition np_amin (a : list (list T)) : result T :=
  match concat a with
  | [] => Raise (ValueError "zero-size array to reduction operation minimum which has no identity")
  | x :: r => Ok (arr_min (x :: r))
  end.

Definition np_amax (a : list (list T)) : result T :=
  match concat a with
  | [] => Raise (ValueError "zero-size array to reduction operation maximum which has no identity")
  | x :: r => Ok (arr_max (x :: r))
  end.

(** [np.arange(0, stop, step)] for [step >= 1]. *)
Definition arange (stop step : nat) : list nat :=
  map (fun k => (k * step)%nat) (seq 0 ((stop + (step - 1)) / step)%nat).

(** The number of slabs [rescale_dwi] rescales at a time. *)
Definition chunk_rows : nat := Z.to_nat 100000.

(** [rescale_func(nz_bc_data, slope, in_max, bc_max)], where [rescale_func]
    is [np.vectorize(_rescale_intensity, otypes=[np.float32])]: the function
    at every element, the result stored as float32. *)
Definition rescale_func (nz_bc_data : list (list T)) (slope in_max bc_max : T)
    : list (list T) :=
  map (map (fun val => to_float32 (_rescale_intensity val slope in_max bc_max)))
      nz_bc_data.

(** The loop of [rescale_dwi] over [range(len(chunk) - 1)], for slabs of
    [step] rows. *)
Definition rescale_loop (step len_in : nat) (slope in_max bc_max : T)
    (bc_data : list (list T)) : list (list T) :=
  let chunk := arange len_in step ++ [len_in] in
  fold_left
    (fun bc_data i =>
       let nz_bc_data := slice (nth i chunk 0%nat) (nth (i + 1)%nat chunk 0%nat) bc_data in
       let rescaled_data := rescale_func nz_bc_data slope in_max bc_max in
       assign_slice (nth i chunk 0%nat) (nth (i + 1)%nat chunk 0%nat) rescaled_data
         bc_data)
    (seq 0 (length chunk - 1)%nat) bc_data.

(** [rescale_dwi(in_data, bc_data)] on float64 arrays: the slope is a
    binary64 quotient, and [np.vectorize] calls [_rescale_intensity] on
    Python floats.  An array is the list of its slabs along the first axis,
    each slab the list of its elements, so [len(in_data)] is the length of
    the list.  [bc_data] is rewritten in place and returned: the result is
    also the content of the caller's array after the call. *)
Definition rescale_dwi (in_data bc_data : list (list T))
    : result (list (list T)) :=
  in_min <- np_amin in_data ;;
  in_max <- np_amax in_data ;;
  bc_min <- np_amin bc_data ;;
  bc_max <- np_amax bc_data ;;
  let slope := (in_max - in_min) / (bc_max - bc_min) in
  Ok (rescale_loop chunk_rows (length in_data) slope in_max bc_max bc_data).

End Rescale.

(** ** scil_resample_tractogram.py *)

Section Resample.
Context {T : Type} {A : Arith T} {N : Num T}.
Local Open Scope num_scope.

(** The tractogram object (dipy's [StatefulTractogram]) and what the script
    does with it; none of these is part of the sources at hand. *)
Variable Sft : Type.
(** [len(sft.streamlines)]. *)
Variable nb_streamlines_of : Sft -> Z.
(** [assert_inputs_exist(parser, in_tractogram)] and
    [assert_outputs_exist(parser, args, out_tractogram)]: the message of the
    [parser.error] they end in, if they do. *)
Variable assert_inputs_exist : string -> option string.
Variable assert_outputs_exist : string -> bool -> option string.
Variable load_tractogram_with_reference : string -> Sft.
(** [upsample_tractogram(sft, nb, point_wise_std, streamline_wise_std,
    gaussian, spline, seed)]. *)
Variable upsample_tractogram :
  Sft -> Z -> option T -> option T -> option Z -> option (Z * Z) -> option Z
  -> Sft.
(** [get_subset_streamlines(sft, nb, seed)]. *)
Variable get_subset_streamlines : Sft -> Z -> option Z -> Sft.
(** [sft.remove_invalid_streamlines()], as the tractogram it leaves. *)
Variable remove_invalid_streamlines : Sft -> Sft.

(** The namespace [parser.parse_args()] returns. *)
Record resample_args : Type := {
  in_tractogram : string;
  nb_streamlines : Z;
  out_tractogram : string;
  point_wise_std : option T;
  streamline_wise_std : option T;
  gaussian : option Z;
  spline : option (Z * Z);
  never_upsample : bool;
  keep_invalid_streamlines : bool;
  seed : option Z;
  overwrite : bool
}.

(** What a run of [main] does to the tractogram, in order. *)
Inductive resample_call : Type :=
| CallLoad (path : string)
| CallUpsample (nb : Z)
| CallSubset (nb : Z)
| CallRemoveInvalid
| CallSave (path : string) (bbox_valid_check : bool).

(** How a run ends: [parser.error(msg)] leaves the interpreter, and a run
    that reaches [save_tractogram] writes the tractogram. *)
Inductive resample_outcome : Type :=
| ParserError (msg : string)
| Saved (sft : Sft).

(** [x is not None and x <= 0]. *)
Definition given_and_le0 (x : option T) : bool :=
  match x with
  | None => false
  | Some v => v <=? zero
  end.

(** [not x] for an optional number: [None] and zero are false values. *)
Definition py_not (x : option T) : bool :=
  match x with
  | None => true
  | Some v => v =? zero
  end.

(** [main], after [parser.parse_args()]. *)
Definition resample_main (args : resample_args)
    : list resample_call * resample_outcome :=
  if given_and_le0 (point_wise_std args)
     || given_and_le0 (streamline_wise_std args)
  then ([], ParserError "STD needs to be above 0.")
  else
    match assert_inputs_exist (in_tractogram args) with
    | Some msg => ([], ParserError msg)
    | None =>
        match assert_outputs_exist (out_tractogram args) (overwrite args) with
        | Some msg => ([], ParserError msg)
        | None =>
            let sft := load_tractogram_with_reference (in_tractogram args) in
            let log := [CallLoad (in_tractogram args)] in
            let original_number := nb_streamlines_of sft in
            let nb :=
              if never_upsample args
                 && (original_number <? nb_streamlines args)%Z
              then original_number else nb_streamlines args in
            let resampled :=
              if (original_number <? nb)%Z then
                if py_not (point_wise_std args)
                   && py_not (streamline_wise_std args)
                then
                  (log,
                   ParserError "one of the arguments --point_wise_std --streamline_wise_std is required")
                else
                  (log ++ [CallUpsample nb],
                   Saved (upsample_tractogram sft nb (point_wise_std args)
                            (streamline_wise_std args) (gaussian args)
                            (spline args) (seed args)))
              else if (nb <? original_number)%Z then
                (log ++ [CallSubset nb],
                 Saved (get_subset_streamlines sft nb (seed args)))
              else (log, Saved sft) in
            match resampled with
            | (log, ParserError msg) => (log, ParserError msg)
            | (log, Saved sft) =>
                let '(log, sft) :=
                  if negb (keep_invalid_streamlines args)
                  then (log ++ [CallRemoveInvalid], remove_invalid_streamlines sft)
                  else (log, sft) in
                (log ++ [CallSave (out_tractogram args)
                                  (negb (keep_invalid_streamlines args))],
                 Saved sft)
            end
        end
    end.

End Resample.

(** * Properties *)

(** ** Worker counts *)

(** C9.  A worker count of 0 is resolved to the number of hardware threads
    by [peaks_from_sh] only (its test is [<= 0]).  The test of
    [maps_from_sh] and [convert_sh_basis] is [< 0] and [convert_sh_to_sf] has
    none, so there a count of 0 reaches [np.array_split] and raises; an
    explicit [None] raises in [convert_sh_to_sf]. *)
Theorem nbr_processes_zero_is_not_autodetected :
  forall (T : Type) (A : Arith T) (N : Num T) (cpu_count : Z)
         (order_from_ncoef : nat -> bool -> Z)
         (sh_to_sf_matrix :
            Sphere T -> Z -> basis -> bool -> bool
            -> list (list T) * list (list T))
         (peak_directions :
            list T -> Sphere T -> T -> T -> bool
            -> list (list T) * list T * list Z)
         (gfa : list T -> T)
         (shm_coeff peak_values : list (list T)) (peak_indices : list (list Z))
         (sphere : Sphere T) (mask : option (list bool)) (thr rel sep : T)
         (npeaks : nat) (normalize legacy full sym : bool)
         (sh_basis_type : basis) (d dsh : dtype),
    resolve_le0 cpu_count (Some 0%Z) = cpu_count
    /\ peaks_from_sh cpu_count order_from_ncoef sh_to_sf_matrix peak_directions
         shm_coeff sphere mask rel thr sep normalize npeaks sh_basis_type
         legacy (Some 0%Z) full sym
       = peaks_from_sh cpu_count order_from_ncoef sh_to_sf_matrix
           peak_directions shm_coeff sphere mask rel thr sep normalize npeaks
           sh_basis_type legacy None full sym
    /\ maps_from_sh cpu_count order_from_ncoef sh_to_sf_matrix gfa shm_coeff
         peak_values peak_indices sphere mask thr sh_basis_type (Some 0%Z)
       = Raise (ValueError "number sections must be larger than 0.")
    /\ convert_sh_basis cpu_count order_from_ncoef sh_to_sf_matrix shm_coeff
         sphere mask descoteaux07 tournier07 legacy legacy (Some 0%Z)
       = Raise (ValueError "number sections must be larger than 0.")
    /\ convert_sh_to_sf order_from_ncoef sh_to_sf_matrix
         {| dtype_of := dsh; rows := shm_coeff |} sphere mask d sh_basis_type
         full legacy (Some 0%Z)
       = Raise (ValueError "number sections must be larger than 0.")
    /\ convert_sh_to_sf order_from_ncoef sh_to_sf_matrix
         {| dtype_of := dsh; rows := shm_coeff |} sphere mask d sh_basis_type
         full legacy None
       = Raise (TypeError "int() argument must be a string, a bytes-like object or a real number, not 'NoneType'").
Proof.
  intros.
  split; [reflexivity|].
  split; [unfold peaks_from_sh; reflexivity|].
  split; [unfold maps_from_sh, maps_from_sh_tmp; reflexivity|].
  split; [unfold convert_sh_basis; destruct legacy; reflexivity|].
  split; unfold convert_sh_to_sf; reflexivity.
Qed.

(** ** The two-phase reduction of [maps_from_sh] *)

(** C2.  Two voxels with coefficients 4 and 2 and no valid peak, split over
    two workers.  The chunks return the max-ODF trackers 8 Y00 and 4 Y00 and
    leave their global-max trackers at -inf.  The reduction computes
    [max(all_time_global_max, max_odf)], so it ends with the tracker of the
    last chunk, 4 Y00, and the RGB map is divided by it: the entry of the
    first voxel is 510. *)
Theorem maps_reduction_max_odf_of_last_chunk :
  Run.chunk_trackers [[4]; [2]]%float [[0; 0]; [0; 0]]%float
      [[-1; -1]; [-1; -1]]%Z 0%float
    = [(8 * Run.Y00, neg_infinity)%float; (4 * Run.Y00, neg_infinity)%float]
  /\ (exists st,
        Run.maps_tmp_run [[4]; [2]]%float [[0; 0]; [0; 0]]%float
            [[-1; -1]; [-1; -1]]%Z None 0%float (Some 2%Z) = Ok st
        /\ max_odf st = (4 * Run.Y00)%float
        /\ py_max (8 * Run.Y00)%float (4 * Run.Y00)%float = (8 * Run.Y00)%float
        /\ global_max st = neg_infinity)
  /\ (exists m,
        Run.maps_run [[4]; [2]]%float [[0; 0]; [0; 0]]%float
            [[-1; -1]; [-1; -1]]%Z None 0%float (Some 2%Z) = Ok m
        /\ rgb_map_array m = [[510; 0; 0]; [255; 0; 0]]%float).
Proof.
  split; [vm_compute; reflexivity|].
  split; eexists; (split; [vm_compute; reflexivity|]); vm_compute; auto.
Qed.

(** ** Worker counts and results *)

(** C1.  Two voxels with coefficients 4 and 2; the first has one valid peak
    of value 3.  With one worker the RGB rows are 255 and 127.5 and both QA
    rows are those of the first voxel; with two workers, and with the eight
    of [cpu_count], the RGB rows are divided by the global-max tracker 3 and
    the QA row of the second voxel is zero. *)
Theorem maps_from_sh_depends_on_worker_count :
  exists m1 m2 : maps,
    Run.maps_run [[4]; [2]]%float [[3; 0]; [0; 0]]%float
        [[0; -1]; [-1; -1]]%Z None 0%float (Some 1%Z) = Ok m1
    /\ Run.maps_run [[4]; [2]]%float [[3; 0]; [0; 0]]%float
        [[0; -1]; [-1; -1]]%Z None 0%float (Some 2%Z) = Ok m2
    /\ Run.maps_run [[4]; [2]]%float [[3; 0]; [0; 0]]%float
        [[0; -1]; [-1; -1]]%Z None 0%float None = Ok m2
    /\ rgb_map_array m1 = [[255; 0; 0]; [127.5; 0; 0]]%float
    /\ rgb_map_array m2
       = [[8 * Run.Y00 / 3 * 255; 0; 0]; [4 * Run.Y00 / 3 * 255; 0; 0]]%float
    /\ qa_map_array m1
       = [[(3 - 4 * Run.Y00) / 3; (0 - 4 * Run.Y00) / 3];
          [(3 - 4 * Run.Y00) / 3; (0 - 4 * Run.Y00) / 3]]%float
    /\ qa_map_array m2
       = [[(3 - 4 * Run.Y00) / 3; (0 - 4 * Run.Y00) / 3]; [0; 0]]%float
    /\ PrimFloat.eqb (8 * Run.Y00 / 3 * 255) 255 = false.
Proof.
  do 2 eexists.
  split; [vm_compute; reflexivity|].
  split; [vm_compute; reflexivity|].
  split; [vm_compute; reflexivity|].
  vm_compute. auto 10.
Qed.

(** ** The QA map *)

(** C3.  One worker, two voxels with coefficients 4 and 2, GFA 0 and
    threshold 0.  (a) Both voxels have valid peaks, of values (3, 0) and
    (5, 1): before the division by the global-max tracker 5, both QA rows
    are the row of the last voxel, (5, 1) minus its ODF minimum 2 Y00; the
    row of the first voxel is not (3, 0) minus 4 Y00.  (b) Only the first
    voxel has a valid peak: the QA row of the second voxel is not zero but
    the row of the first. *)
Theorem qa_map_is_the_last_row_everywhere :
  (exists st,
      Run.maps_tmp_run [[4]; [2]]%float [[3; 0]; [5; 1]]%float
          [[0; -1]; [0; 1]]%Z None 0%float (Some 1%Z) = Ok st
      /\ qa_map st = Qa1D [5 - 2 * Run.Y00; 1 - 2 * Run.Y00]%float
      /\ global_max st = 5%float)
  /\ (exists m,
      Run.maps_run [[4]; [2]]%float [[3; 0]; [5; 1]]%float
          [[0; -1]; [0; 1]]%Z None 0%float (Some 1%Z) = Ok m
      /\ qa_map_array m
         = [[(5 - 2 * Run.Y00) / 5; (1 - 2 * Run.Y00) / 5];
            [(5 - 2 * Run.Y00) / 5; (1 - 2 * Run.Y00) / 5]]%float
      /\ PrimFloat.eqb ((5 - 2 * Run.Y00) / 5) ((3 - 4 * Run.Y00) / 5) = false)
  /\ (exists m,
      Run.maps_run [[4]; [2]]%float [[3; 0]; [0; 0]]%float
          [[0; -1]; [-1; -1]]%Z None 0%float (Some 1%Z) = Ok m
      /\ nufo_map_array m = [1; 0]%float
      /\ qa_map_array m
         = [[(3 - 4 * Run.Y00) / 3; (0 - 4 * Run.Y00) / 3];
            [(3 - 4 * Run.Y00) / 3; (0 - 4 * Run.Y00) / 3]]%float
      /\ PrimFloat.eqb ((3 - 4 * Run.Y00) / 3) 0 = false).
Proof.
  split; [|split]; eexists; (split; [vm_compute; reflexivity|]);
    vm_compute; auto.
Qed.

(** ** Masks and scattering *)

Lemma nth_map_lt {X Y : Type} (f : X -> Y) (l : list X) (d : Y) (d' : X)
    (i : nat) :
  i < length l -> nth i (map f l) d = f (nth i l d').
Proof.
  revert i. induction l as [|x l IH]; intros i Hi; [simpl in Hi; lia|].
  destruct i as [|i]; simpl; [reflexivity|]. apply IH. simpl in Hi. lia.
Qed.

Section MaskFacts.
Context {R : Type}.

Lemma nth_repeat_lt (x d : R) (n i : nat) :
  i < n -> nth i (repeat x n) d = x.
Proof.
  revert i. induction n as [|n IH]; intros i Hi; [lia|].
  destruct i as [|i]; simpl; [reflexivity|]. apply IH. lia.
Qed.

Lemma mask_assign_length (mask : list bool) (src a : list R) :
  length (mask_assign mask src a) = length a.
Proof.
  revert src a. induction mask as [|b m IH]; intros src a; [reflexivity|].
  destruct a as [|x r]; [destruct b; reflexivity|].
  destruct b; simpl; [destruct src as [|s src']|]; simpl; now rewrite IH.
Qed.

Lemma mask_assign_row_length (mask : list bool) (row : R) (a : list R) :
  length (mask_assign_row mask row a) = length a.
Proof.
  revert a. induction mask as [|b m IH]; intros a; [reflexivity|].
  destruct a as [|x r]; [destruct b; reflexivity|].
  destruct b; simpl; now rewrite IH.
Qed.

(** A position the mask does not select keeps its row. *)
Lemma mask_assign_outside (mask : list bool) (src a : list R) (i : nat) (d : R) :
  nth i mask false = false ->
  nth i (mask_assign mask src a) d = nth i a d.
Proof.
  revert src a i. induction mask as [|b m IH]; intros src a i Hi; [reflexivity|].
  destruct a as [|x r]; [destruct b; reflexivity|].
  destruct i as [|i]; simpl in Hi.
  - subst b. reflexivity.
  - destruct b; simpl; [destruct src as [|s src']|]; simpl; now apply IH.
Qed.

Lemma mask_assign_row_outside (mask : list bool) (row : R) (a : list R)
    (i : nat) (d : R) :
  nth i mask false = false ->
  nth i (mask_assign_row mask row a) d = nth i a d.
Proof.
  revert a i. induction mask as [|b m IH]; intros a i Hi; [reflexivity|].
  destruct a as [|x r]; [destruct b; reflexivity|].
  destruct i as [|i]; simpl in Hi.
  - subst b. reflexivity.
  - destruct b; simpl; now apply IH.
Qed.

Lemma mask_select_length (mask : list bool) (a : list R) :
  length mask = length a ->
  length (mask_select mask a) = count_nonzero mask.
Proof.
  unfold count_nonzero. revert a.
  induction mask as [|b m IH]; intros a Hl; [reflexivity|].
  destruct a as [|x r]; [discriminate|]. injection Hl as Hl.
  destruct b; simpl; now rewrite IH.
Qed.

(** A selected position receives the row of its rank among the selected
    positions. *)
Lemma mask_assign_inside (mask : list bool) (src a : list R) (i : nat) (d : R) :
  nth i mask false = true ->
  i < length a ->
  count_nonzero mask <= length src ->
  nth i (mask_assign mask src a) d
  = nth (count_nonzero (firstn i mask)) src d.
Proof.
  unfold count_nonzero.
  revert src a i. induction mask as [|b m IH]; intros src a i Hi Hlt Hc.
  - destruct i; discriminate.
  - destruct a as [|x r]; [simpl in Hlt; lia|].
    destruct i as [|i]; simpl in Hi.
    + subst b. destruct src as [|s src']; [simpl in Hc; lia|]. reflexivity.
    + simpl in Hlt. destruct b; simpl in *.
      * destruct src as [|s src']; [simpl in Hc; lia|]. simpl.
        apply IH; auto; simpl in Hc; lia.
      * apply IH; auto; lia.
Qed.

End MaskFacts.

(** ** Sums of zeros *)

Section ZeroSums.
Context {T : Type} {A : Arith T} {N : Num T} {ZF : ZeroFacts T}.

Lemma np_sum_zeros (n : nat) : np_sum (zeros n) = zero.
Proof.
  unfold np_sum, zeros.
  induction n as [|n IH]; simpl; [reflexivity|]. now rewrite add_0_0.
Qed.

Lemma nonzero_zero : nonzero (zero : T) = false.
Proof. unfold nonzero. now rewrite eqb_0_0. Qed.

Lemma any_zeros (n : nat) : any (zeros n) = false.
Proof.
  unfold any, zeros. induction n as [|n IH]; simpl; [reflexivity|].
  now rewrite nonzero_zero.
Qed.

(** The default mask does not select a voxel whose coefficients are all
    zero. *)
Lemma default_mask_zero_voxel (shm_coeff : list (list T)) (i C : nat) :
  nth i shm_coeff [] = zeros C ->
  nth i (default_mask shm_coeff) false = false.
Proof.
  intros Hz. unfold default_mask.
  destruct (Nat.lt_ge_cases i (length shm_coeff)) as [Hlt|Hge].
  - rewrite (nth_map_lt (fun coeff => nonzero (np_sum coeff)) _ false [] Hlt).
    rewrite Hz, np_sum_zeros. apply nonzero_zero.
  - apply nth_overflow. now rewrite length_map.
Qed.

End ZeroSums.

Lemma float64_zero_facts : ZeroFacts float.
Proof. split; reflexivity. Qed.

#[export] Existing Instance float64_zero_facts.

(** ** Peaks outside the mask *)

Lemma resolve_le0_pos (cpu_count : Z) (n : option Z) :
  (1 <= cpu_count)%Z -> (1 <= resolve_le0 cpu_count n)%Z.
Proof.
  intros H. unfold resolve_le0. destruct n as [n|]; [|exact H].
  destruct (n <=? 0)%Z eqn:E; [exact H|]. apply Z.leb_gt in E. lia.
Qed.

Lemma array_split_ok {R : Type} (a : list R) (n : Z) :
  (1 <= n)%Z -> exists chunks, array_split a n = Ok chunks.
Proof.
  intros H. unfold array_split.
  destruct (n <=? 0)%Z eqn:E; [apply Z.leb_le in E; lia|]. eexists. reflexivity.
Qed.

(** Whatever the workers computed, [peaks_from_sh] returns, and a voxel the
    mask leaves out holds the zeros of the arrays allocated by
    [np.zeros]. *)
Lemma peaks_from_sh_outside_mask
    (T : Type) (A : Arith T) (N : Num T) (cpu_count : Z)
    (order_from_ncoef : nat -> bool -> Z)
    (sh_to_sf_matrix :
       Sphere T -> Z -> basis -> bool -> bool -> list (list T) * list (list T))
    (peak_directions :
       list T -> Sphere T -> T -> T -> bool -> list (list T) * list T * list Z)
    (shm_coeff : list (list T)) (sphere : Sphere T) (mask : option (list bool))
    (rel thr sep : T) (normalize : bool) (npeaks : nat) (sh_basis_type : basis)
    (legacy : bool) (nbr_processes : option Z) (full sym : bool) (i : nat) :
  (1 <= cpu_count)%Z ->
  i < length shm_coeff ->
  nth i (match mask with None => default_mask shm_coeff | Some m => m end)
      false = false ->
  exists dirs vals inds,
    peaks_from_sh cpu_count order_from_ncoef sh_to_sf_matrix peak_directions
      shm_coeff sphere mask rel thr sep normalize npeaks sh_basis_type legacy
      nbr_processes full sym = Ok (dirs, vals, inds)
    /\ nth i dirs [] = zeros2 npeaks 3
    /\ nth i vals [] = zeros npeaks
    /\ nth i inds [] = repeat 0%Z npeaks.
Proof.
  intros Hcpu Hi Hm. unfold peaks_from_sh.
  set (m := match mask with None => default_mask shm_coeff | Some m => m end) in *.
  set (n := resolve_le0 cpu_count nbr_processes).
  assert (Hn : (1 <= n)%Z) by (apply resolve_le0_pos; exact Hcpu).
  destruct (n =? 1)%Z.
  - simpl.
    destruct (_peaks_from_sh_loop _ _ _ _ _ _ _ _ _ _) as [[d v] ix].
    do 3 eexists. split; [reflexivity|].
    repeat split; rewrite mask_assign_outside by exact Hm;
      unfold zeros2; now apply nth_repeat_lt.
  - destruct (array_split_ok (mask_select m shm_coeff) Hn) as [chunks Hc].
    rewrite Hc. simpl.
    destruct (peaks_reassemble _ _ _) as [[d v] ix].
    do 3 eexists. split; [reflexivity|].
    repeat split; rewrite mask_assign_outside by exact Hm;
      unfold zeros2; now apply nth_repeat_lt.
Qed.

(** C7.  Under the default mask, a voxel of [peaks_from_sh] whose
    coefficients are all zero is returned with index 0 in each of its
    [npeaks] slots: the loop marks unused slots with -1, but the voxel is
    outside the mask and the returned index array is allocated with
    [np.zeros]. *)
Theorem peaks_from_sh_zero_voxel_has_index_zero
    (T : Type) (A : Arith T) (N : Num T) (ZF : ZeroFacts T) (cpu_count : Z)
    (order_from_ncoef : nat -> bool -> Z)
    (sh_to_sf_matrix :
       Sphere T -> Z -> basis -> bool -> bool -> list (list T) * list (list T))
    (peak_directions :
       list T -> Sphere T -> T -> T -> bool -> list (list T) * list T * list Z)
    (shm_coeff : list (list T)) (sphere : Sphere T)
    (rel thr sep : T) (normalize : bool) (npeaks : nat) (sh_basis_type : basis)
    (legacy : bool) (nbr_processes : option Z) (full sym : bool) (i C : nat) :
  (1 <= cpu_count)%Z ->
  i < length shm_coeff ->
  nth i shm_coeff [] = zeros C ->
  exists dirs vals inds,
    peaks_from_sh cpu_count order_from_ncoef sh_to_sf_matrix peak_directions
      shm_coeff sphere None rel thr sep normalize npeaks sh_basis_type legacy
      nbr_processes full sym = Ok (dirs, vals, inds)
    /\ nth i dirs [] = zeros2 npeaks 3
    /\ nth i vals [] = zeros npeaks
    /\ nth i inds [] = repeat 0%Z npeaks.
Proof.
  intros Hcpu Hi Hz.
  apply peaks_from_sh_outside_mask; auto.
  now apply default_mask_zero_voxel with (C := C).
Qed.

(** ** The default mask and the voxels outside it *)

Lemma nth_error_mask_assign_outside {R : Type} (mask : list bool)
    (src a : list R) (i : nat) :
  nth i mask false = false ->
  nth_error (mask_assign mask src a) i = nth_error a i.
Proof.
  revert src a i. induction mask as [|b m IH]; intros src a i Hi; [reflexivity|].
  destruct a as [|x r]; [destruct b; reflexivity|].
  destruct i as [|i]; simpl in Hi.
  - subst b. reflexivity.
  - destruct b; simpl; [destruct src as [|s src']|]; simpl; now apply IH.
Qed.

Lemma nth_error_mask_assign_row_outside {R : Type} (mask : list bool)
    (row : R) (a : list R) (i : nat) :
  nth i mask false = false ->
  nth_error (mask_assign_row mask row a) i = nth_error a i.
Proof.
  revert a i. induction mask as [|b m IH]; intros a i Hi; [reflexivity|].
  destruct a as [|x r]; [destruct b; reflexivity|].
  destruct i as [|i]; simpl in Hi.
  - subst b. reflexivity.
  - destruct b; simpl; now apply IH.
Qed.

Lemma nth_error_repeat_lt {R : Type} (x : R) (n i : nat) :
  i < n -> nth_error (repeat x n) i = Some x.
Proof.
  revert i. induction n as [|n IH]; intros i Hi; [lia|].
  destruct i as [|i]; simpl; [reflexivity|]. apply IH. lia.
Qed.

Lemma resolve_lt0_pos (cpu_count : Z) (n : option Z) :
  (1 <= cpu_count)%Z -> n <> Some 0%Z -> (1 <= resolve_lt0 cpu_count n)%Z.
Proof.
  intros H Hn. unfold resolve_lt0. destruct n as [n|]; [|exact H].
  destruct (n <? 0)%Z eqn:E; [exact H|]. apply Z.ltb_ge in E.
  assert (n <> 0%Z) by congruence. lia.
Qed.

Section OutsideMask.
Context {T : Type} {A : Arith T} {N : Num T}.
Variable cpu_count : Z.
Variable order_from_ncoef : nat -> bool -> Z.
Variable sh_to_sf_matrix :
  Sphere T -> Z -> basis -> bool -> bool -> list (list T) * list (list T).
Variable gfa : list T -> T.
Hypothesis cpu_count_pos : (1 <= cpu_count)%Z.

(** [maps_from_sh] returns for every worker count but 0. *)
Lemma maps_from_sh_tmp_ok (shm_coeff peak_values : list (list T))
    (peak_indices : list (list Z)) (sphere : Sphere T)
    (mask : option (list bool)) (gfa_thr : T) (sh_basis_type : basis)
    (nbr_processes : option Z) :
  nbr_processes <> Some 0%Z ->
  exists tmp,
    maps_from_sh_tmp cpu_count order_from_ncoef sh_to_sf_matrix gfa shm_coeff
      peak_values peak_indices sphere mask gfa_thr sh_basis_type nbr_processes
    = Ok tmp.
Proof.
  intros Hn. unfold maps_from_sh_tmp.
  pose proof (resolve_lt0_pos cpu_count_pos Hn) as Hpos.
  destruct (resolve_lt0 cpu_count nbr_processes =? 1)%Z; [eexists; reflexivity|].
  destruct (array_split_ok
              (mask_select (maps_from_sh_mask shm_coeff mask) shm_coeff) Hpos)
    as [c1 ->].
  destruct (array_split_ok
              (mask_select (maps_from_sh_mask shm_coeff mask) peak_values) Hpos)
    as [c2 ->].
  destruct (array_split_ok
              (mask_select (maps_from_sh_mask shm_coeff mask) peak_indices) Hpos)
    as [c3 ->].
  eexists. reflexivity.
Qed.

(** Outside the mask the four scalar maps are zero, and the RGB and QA rows
    are the zeros of the allocation divided by the trackers. *)
Lemma maps_from_sh_outside_mask (shm_coeff peak_values : list (list T))
    (peak_indices : list (list Z)) (sphere : Sphere T)
    (mask : option (list bool)) (gfa_thr : T) (sh_basis_type : basis)
    (nbr_processes : option Z) (i : nat) :
  nbr_processes <> Some 0%Z ->
  i < length shm_coeff ->
  nth i (maps_from_sh_mask shm_coeff mask) false = false ->
  exists tmp m,
    maps_from_sh_tmp cpu_count order_from_ncoef sh_to_sf_matrix gfa shm_coeff
      peak_values peak_indices sphere mask gfa_thr sh_basis_type nbr_processes
    = Ok tmp
    /\ maps_from_sh cpu_count order_from_ncoef sh_to_sf_matrix gfa shm_coeff
         peak_values peak_indices sphere mask gfa_thr sh_basis_type
         nbr_processes = Ok m
    /\ nth_error (nufo_map_array m) i = Some zero
    /\ nth_error (afd_max_array m) i = Some zero
    /\ nth_error (afd_sum_array m) i = Some zero
    /\ nth_error (gfa_map_array m) i = Some zero
    /\ nth_error (rgb_map_array m) i
       = Some (repeat (mul (div zero (max_odf tmp)) (of_Z 255)) 3)
    /\ nth_error (qa_map_array m) i
       = Some (repeat (div zero (global_max tmp)) (ncols peak_values)).
Proof.
  intros Hn Hi Hm.
  destruct (maps_from_sh_tmp_ok shm_coeff peak_values peak_indices sphere mask
              gfa_thr sh_basis_type Hn) as [tmp Htmp].
  exists tmp. eexists. split; [exact Htmp|].
  unfold maps_from_sh. rewrite Htmp. simpl.
  split; [reflexivity|].
  unfold maps_normalize, maps_scatter, zeros2, zeros.
  cbn [nufo_map_array afd_max_array afd_sum_array rgb_map_array
       gfa_map_array qa_map_array].
  repeat split.
  - rewrite nth_error_mask_assign_outside by exact Hm.
    now apply nth_error_repeat_lt.
  - rewrite nth_error_mask_assign_outside by exact Hm.
    now apply nth_error_repeat_lt.
  - rewrite nth_error_mask_assign_outside by exact Hm.
    now apply nth_error_repeat_lt.
  - rewrite nth_error_mask_assign_outside by exact Hm.
    now apply nth_error_repeat_lt.
  - rewrite nth_error_map, nth_error_mask_assign_outside by exact Hm.
    rewrite nth_error_repeat_lt by exact Hi. reflexivity.
  - rewrite nth_error_map. unfold mask_assign_qa.
    destruct (qa_map tmp) as [rws|row].
    + rewrite nth_error_mask_assign_outside by exact Hm.
      rewrite nth_error_repeat_lt by exact Hi. simpl. now rewrite map_repeat.
    + rewrite nth_error_mask_assign_row_outside by exact Hm.
      rewrite nth_error_repeat_lt by exact Hi. simpl. now rewrite map_repeat.
Qed.

(** [convert_sh_basis], when it converts, leaves zeros outside the mask. *)
Lemma convert_sh_basis_outside_mask (shm_coeff : list (list T))
    (sphere : Sphere T) (mask : option (list bool))
    (input_basis output_basis : basis)
    (is_input_legacy is_output_legacy : bool) (nbr_processes : option Z)
    (i : nat) :
  basis_eqb input_basis output_basis
    && Bool.eqb is_input_legacy is_output_legacy = false ->
  nbr_processes <> Some 0%Z ->
  i < length shm_coeff ->
  nth i (match mask with None => default_mask shm_coeff | Some m => m end)
      false = false ->
  exists out,
    convert_sh_basis cpu_count order_from_ncoef sh_to_sf_matrix shm_coeff
      sphere mask input_basis output_basis is_input_legacy is_output_legacy
      nbr_processes = Ok out
    /\ nth_error out i = Some (zeros (ncols shm_coeff)).
Proof.
  intros Hb Hn Hi Hm. unfold convert_sh_basis. rewrite Hb.
  set (m := match mask with None => default_mask shm_coeff | Some m => m end) in *.
  pose proof (resolve_lt0_pos cpu_count_pos Hn) as Hpos.
  destruct (resolve_lt0 cpu_count nbr_processes =? 1)%Z.
  - simpl. eexists. split; [reflexivity|].
    rewrite nth_error_mask_assign_outside by exact Hm.
    now apply nth_error_repeat_lt.
  - destruct (array_split_ok (mask_select m shm_coeff) Hpos) as [c ->].
    simpl. eexists. split; [reflexivity|].
    rewrite nth_error_mask_assign_outside by exact Hm.
    now apply nth_error_repeat_lt.
Qed.

End OutsideMask.

(** The witness of C7: the first of two voxels is zero. *)
Lemma peaks_from_sh_zero_voxel_witness :
  (1 <= 8)%Z
  /\ 0 < length [[0]; [2]]%float
  /\ nth 0 [[0]; [2]]%float [] = zeros 1
  /\ exists dirs vals inds,
       Run.peaks_run [[0]; [2]]%float None (Some 2%Z) = Ok (dirs, vals, inds)
       /\ nth 0 dirs [] = zeros2 5 3
       /\ nth 0 vals [] = zeros 5
       /\ nth 0 inds [] = repeat 0%Z 5.
Proof.
  assert (H1 : (1 <= 8)%Z) by lia.
  assert (H2 : 0 < length [[0]; [2]]%float) by (simpl; lia).
  assert (H3 : nth 0 [[0]; [2]]%float [] = zeros 1) by reflexivity.
  split; [exact H1|]. split; [exact H2|]. split; [exact H3|].
  exact (@peaks_from_sh_zero_voxel_has_index_zero float _ _ _ 8%Z
           dipy_order_from_ncoef Run.sh_to_sf_matrix0
           Run.peak_directions_argmax [[0]; [2]]%float Run.sphere2
           0.5%float 0%float 25%float false 5 descoteaux07 true (Some 2%Z)
           false true 0 1 H1 H2 H3).
Defined.

(** C4 (as amended).  Without a mask, the default mask of [peaks_from_sh],
    [maps_from_sh] and [convert_sh_basis] selects exactly the voxels whose
    coefficients have a non-zero sum.  For a worker count that does not
    raise, a voxel outside it is zero in the three arrays of
    [peaks_from_sh], in the coefficients [convert_sh_basis] returns when it
    converts, and in the NUFO, AFD-max, AFD-sum and GFA maps; its RGB and QA
    entries are the zero of the allocation divided by the two trackers. *)
Theorem default_mask_selects_nonzero_sums_and_outside_is_zero
    (T : Type) (A : Arith T) (N : Num T) (cpu_count : Z)
    (order_from_ncoef : nat -> bool -> Z)
    (sh_to_sf_matrix :
       Sphere T -> Z -> basis -> bool -> bool -> list (list T) * list (list T))
    (peak_directions :
       list T -> Sphere T -> T -> T -> bool -> list (list T) * list T * list Z)
    (gfa : list T -> T)
    (shm_coeff peak_values : list (list T)) (peak_indices : list (list Z))
    (sphere : Sphere T) (rel thr sep gfa_thr : T) (normalize : bool)
    (npeaks : nat) (sh_basis_type input_basis output_basis : basis)
    (legacy is_input_legacy is_output_legacy : bool)
    (nbr_processes : option Z) (full sym : bool) (i : nat) :
  (1 <= cpu_count)%Z ->
  nbr_processes <> Some 0%Z ->
  i < length shm_coeff ->
  nth i (default_mask shm_coeff) false = nonzero (np_sum (nth i shm_coeff []))
  /\ (nth i (default_mask shm_coeff) false = false ->
      (exists dirs vals inds,
          peaks_from_sh cpu_count order_from_ncoef sh_to_sf_matrix
            peak_directions shm_coeff sphere None rel thr sep normalize npeaks
            sh_basis_type legacy nbr_processes full sym = Ok (dirs, vals, inds)
          /\ nth i dirs [] = zeros2 npeaks 3
          /\ nth i vals [] = zeros npeaks
          /\ nth i inds [] = repeat 0%Z npeaks)
      /\ (basis_eqb input_basis output_basis
            && Bool.eqb is_input_legacy is_output_legacy = false ->
          exists out,
            convert_sh_basis cpu_count order_from_ncoef sh_to_sf_matrix
              shm_coeff sphere None input_basis output_basis is_input_legacy
              is_output_legacy nbr_processes = Ok out
            /\ nth_error out i = Some (zeros (ncols shm_coeff)))
      /\ (exists tmp m,
            maps_from_sh_tmp cpu_count order_from_ncoef sh_to_sf_matrix gfa
              shm_coeff peak_values peak_indices sphere None gfa_thr
              sh_basis_type nbr_processes = Ok tmp
            /\ maps_from_sh cpu_count order_from_ncoef sh_to_sf_matrix gfa
                 shm_coeff peak_values peak_indices sphere None gfa_thr
                 sh_basis_type nbr_processes = Ok m
            /\ nth_error (nufo_map_array m) i = Some zero
            /\ nth_error (afd_max_array m) i = Some zero
            /\ nth_error (afd_sum_array m) i = Some zero
            /\ nth_error (gfa_map_array m) i = Some zero
            /\ nth_error (rgb_map_array m) i
               = Some (repeat (mul (div zero (max_odf tmp)) (of_Z 255)) 3)
            /\ nth_error (qa_map_array m) i
               = Some (repeat (div zero (global_max tmp)) (ncols peak_values)))).
Proof.
  intros Hcpu Hn Hi. split.
  - unfold default_mask.
    now rewrite (nth_map_lt (fun coeff => nonzero (np_sum coeff)) _ false [] Hi).
  - intros Hm. split; [|split].
    + now apply peaks_from_sh_outside_mask.
    + intros Hb. now apply convert_sh_basis_outside_mask.
    + now apply maps_from_sh_outside_mask.
Qed.

(** C4, the claim as stated fails.  (a) A voxel with the coefficients
    (1, -1) has a non-zero coefficient and is not in the default mask.
    (b) With identical bases [convert_sh_basis] returns that voxel as it is,
    not zero-filled.  (c) On a volume of two zero voxels the RGB rows
    [maps_from_sh] returns are NaN, not zero. *)
Lemma default_mask_is_not_any_nonzero :
  default_mask [[1; -1]]%float = [false]
  /\ any [1; -1]%float = true
  /\ convert_sh_basis 8%Z dipy_order_from_ncoef Run.sh_to_sf_matrix0
       [[1; -1]]%float Run.sphere2 None descoteaux07 descoteaux07 true true
       (Some 1%Z) = Ok [[1; -1]]%float
  /\ exists m,
       Run.maps_run [[0]; [0]]%float [[0; 0]; [0; 0]]%float
         [[-1; -1]; [-1; -1]]%Z None 0%float (Some 1%Z) = Ok m
       /\ default_mask [[0]; [0]]%float = [false; false]
       /\ rgb_map_array m = [[nan; nan; nan]; [nan; nan; nan]].
Proof.
  split; [reflexivity|]. split; [reflexivity|]. split; [reflexivity|].
  eexists. split; [vm_compute; reflexivity|]. split; reflexivity.
Qed.

(** The witness of C4: the first of two voxels is zero, two workers. *)
Lemma default_mask_zero_fill_witness :
  (1 <= 8)%Z
  /\ Some 2%Z <> Some 0%Z
  /\ 0 < length [[0]; [2]]%float
  /\ nth 0 (default_mask [[0]; [2]]%float) false = false
  /\ exists tmp m,
       Run.maps_tmp_run [[0]; [2]]%float [[0; 0]; [0; 0]]%float
         [[-1; -1]; [-1; -1]]%Z None 0%float (Some 2%Z) = Ok tmp
       /\ Run.maps_run [[0]; [2]]%float [[0; 0]; [0; 0]]%float
            [[-1; -1]; [-1; -1]]%Z None 0%float (Some 2%Z) = Ok m
       /\ nth_error (nufo_map_array m) 0 = Some 0%float
       /\ nth_error (afd_max_array m) 0 = Some 0%float
       /\ nth_error (afd_sum_array m) 0 = Some 0%float
       /\ nth_error (gfa_map_array m) 0 = Some 0%float
       /\ nth_error (rgb_map_array m) 0
          = Some (repeat (0 / max_odf tmp * 255)%float 3)
       /\ nth_error (qa_map_array m) 0
          = Some (repeat (0 / global_max tmp)%float 2).
Proof.
  assert (H1 : (1 <= 8)%Z) by lia.
  assert (H2 : Some 2%Z <> Some 0%Z) by discriminate.
  assert (H3 : 0 < length [[0]; [2]]%float) by (simpl; lia).
  assert (H4 : nth 0 (default_mask [[0]; [2]]%float) false = false)
    by reflexivity.
  split; [exact H1|]. split; [exact H2|]. split; [exact H3|].
  split; [exact H4|].
  exact (proj2 (proj2 (proj2
    (@default_mask_selects_nonzero_sums_and_outside_is_zero float _ _ 8%Z
       dipy_order_from_ncoef Run.sh_to_sf_matrix0 Run.peak_directions_argmax
       dipy_gfa [[0]; [2]]%float [[0; 0]; [0; 0]]%float
       [[-1; -1]; [-1; -1]]%Z Run.sphere2 0.5%float 0%float 25%float 0%float
       false 5 descoteaux07 descoteaux07 tournier07 true true false
       (Some 2%Z) false true 0 H1 H2 H3) H4))).
Defined.

(** ** The trackers of [_maps_from_sh_loop] *)

Lemma fold_left_invariant {St X : Type} (P : St -> Prop) (f : St -> X -> St)
    (l : list X) (s : St) :
  P s ->
  (forall s' x, In x l -> P s' -> P (f s' x)) ->
  P (fold_left f l s).
Proof.
  revert s. induction l as [|x l IH]; intros s Hs Hstep; [exact Hs|].
  simpl. apply IH.
  - apply Hstep; [now left|exact Hs].
  - intros s' y Hy. apply Hstep. now right.
Qed.

Lemma set_nth_length {R : Type} (idx : nat) (v : R) (a : list R) :
  length (set_nth idx v a) = length a.
Proof.
  revert idx. induction a as [|x r IH]; intros idx; [reflexivity|].
  destruct idx; simpl; [reflexivity|]. now rewrite IH.
Qed.

Lemma nth_set_nth_same {R : Type} (idx : nat) (v d : R) (a : list R) :
  idx < length a -> nth idx (set_nth idx v a) d = v.
Proof.
  revert idx. induction a as [|x r IH]; intros idx Hi; [simpl in Hi; lia|].
  destruct idx; simpl; [reflexivity|]. apply IH. simpl in Hi. lia.
Qed.

Lemma nth_set_nth_other {R : Type} (idx j : nat) (v d : R) (a : list R) :
  idx <> j -> nth j (set_nth idx v a) d = nth j a d.
Proof.
  revert idx j. induction a as [|x r IH]; intros idx j Hij; [reflexivity|].
  destruct idx, j; simpl; try reflexivity; try lia. apply IH. lia.
Qed.

Section Trackers.
Context {T : Type} {A : Arith T} {N : Num T} {ZF : ZeroFacts T}.
Variable gfa : list T -> T.

Lemma py_max_neg_inf : py_max (neg_inf : T) neg_inf = neg_inf.
Proof. unfold py_max. now rewrite ltb_ninf_ninf. Qed.

Lemma np_maximum_zero : np_maximum (zero : T) zero = zero.
Proof. unfold np_maximum. now rewrite leb_0_0. Qed.

(** The body of the loop keeps the length of [gfa_map]. *)
Lemma maps_body_gfa_length (X PV : list (list T)) (PI : list (list Z))
    (B : list (list T)) (sphere : Sphere T) (thr : T) (st : maps_state)
    (idx : nat) :
  length (gfa_map (_maps_from_sh_body gfa X PV PI B sphere thr st idx))
  = length (gfa_map st).
Proof.
  unfold _maps_from_sh_body.
  destruct (any (nth idx X [])); [|reflexivity].
  cbv zeta.
  destruct (ltb _ thr); [simpl; apply set_nth_length|].
  destruct (negb _); simpl; apply set_nth_length.
Qed.

(** If every voxel the loop visits with a non-zero coefficient has a GFA
    that is not below the threshold and no valid peak, [global_max] is -inf
    when the loop ends. *)
Lemma maps_loop_global_max_neg_inf (X PV : list (list T))
    (PI : list (list Z)) (B : list (list T)) (sphere : Sphere T) (thr : T) :
  (forall idx, idx < length X -> any (nth idx X []) = true ->
     ltb (gfa (clip_min zero (np_dot (nth idx X []) B))) thr = false
     /\ count_valid (nth idx PI []) = 0) ->
  global_max (_maps_from_sh_loop gfa X PV PI B sphere thr) = neg_inf.
Proof.
  intros H. unfold _maps_from_sh_loop.
  match goal with
  | |- global_max (fold_left ?f ?l ?s) = _ =>
      enough (global_max (fold_left f l s) = neg_inf
              /\ length (gfa_map (fold_left f l s)) = length X) by tauto;
      apply (fold_left_invariant
               (fun st => global_max st = neg_inf
                          /\ length (gfa_map st) = length X) f l s)
  end.
  - split; [reflexivity|]. simpl. unfold zeros. apply repeat_length.
  - intros st idx Hin [Hg Hl]. apply in_seq in Hin.
    split; [|now rewrite maps_body_gfa_length].
    unfold _maps_from_sh_body.
    destruct (any (nth idx X [])) eqn:Hany; [|exact Hg].
    cbv zeta. rewrite nth_set_nth_same by lia.
    destruct (H idx) as [Hgfa Hcount]; [lia|exact Hany|].
    rewrite Hgfa, Hcount. simpl. exact Hg.
Qed.

(** If the clipped ODF of every voxel the loop visits with a non-zero
    coefficient sums to zero, [max_odf] is zero when the loop ends. *)
Lemma maps_loop_max_odf_zero (X PV : list (list T)) (PI : list (list Z))
    (B : list (list T)) (sphere : Sphere T) (thr : T) :
  (forall idx, idx < length X -> any (nth idx X []) = true ->
     np_sum (clip_min zero (np_dot (nth idx X []) B)) = zero) ->
  max_odf (_maps_from_sh_loop gfa X PV PI B sphere thr) = zero.
Proof.
  intros H. unfold _maps_from_sh_loop.
  apply (fold_left_invariant (fun st => max_odf st = zero)); [reflexivity|].
  intros st idx Hin Hm. apply in_seq in Hin.
  unfold _maps_from_sh_body.
  destruct (any (nth idx X [])) eqn:Hany; [|exact Hm].
  cbv zeta. rewrite (H idx) by (lia || exact Hany). rewrite Hm.
  destruct (ltb _ thr); [simpl; apply np_maximum_zero|].
  destruct (negb _); simpl; apply np_maximum_zero.
Qed.

End Trackers.

(** ** Chunks *)

Section ChunkFacts.
Context {R : Type}.

Lemma slice_length (lo hi : nat) (a : list R) :
  length (slice lo hi a) = Nat.min (hi - lo) (length a - lo).
Proof. unfold slice. now rewrite length_firstn, length_skipn. Qed.

Lemma nth_slice (lo hi idx : nat) (a : list R) (d : R) :
  idx < length (slice lo hi a) ->
  nth idx (slice lo hi a) d = nth (lo + idx) a d.
Proof.
  intros H. rewrite slice_length in H. unfold slice.
  rewrite nth_firstn.
  destruct (idx <? hi - lo) eqn:E; [|apply Nat.ltb_ge in E; lia].
  now rewrite nth_skipn.
Qed.

(** What [np.array_split] returns: the slices between consecutive division
    points, which depend on the length of the array only. *)
Lemma array_split_eq (a : list R) (n : Z) (chunks : list (list R)) :
  array_split a n = Ok chunks ->
  chunks = map (fun i => slice (nth i (div_points (length a) n) 0)
                               (nth (S i) (div_points (length a) n) 0) a)
               (seq 0 (Z.to_nat n)).
Proof.
  unfold array_split.
  destruct (n <=? 0)%Z; [discriminate|]. intros H. now injection H as <-.
Qed.

End ChunkFacts.

Lemma combine_map_same {X Y Z' : Type} (f : X -> Y) (g : X -> Z') (l : list X) :
  combine (map f l) (map g l) = map (fun x => (f x, g x)) l.
Proof. induction l as [|x l IH]; simpl; [reflexivity|]. now rewrite IH. Qed.

Lemma mask_select_same_length {X Y : Type} (mask : list bool) (a : list X)
    (b : list Y) :
  length a = length b ->
  length (mask_select mask a) = length (mask_select mask b).
Proof.
  revert a b. induction mask as [|m mask IH]; intros a b H; [reflexivity|].
  destruct a as [|x a], b as [|y b]; try discriminate; [destruct m; reflexivity|].
  injection H as H. destruct m; simpl; auto.
Qed.

Section ReducedTrackers.
Context {T : Type} {A : Arith T} {N : Num T} {ZF : ZeroFacts T}.
Variable cpu_count : Z.
Variable order_from_ncoef : nat -> bool -> Z.
Variable sh_to_sf_matrix :
  Sphere T -> Z -> basis -> bool -> bool -> list (list T) * list (list T).
Variable gfa : list T -> T.

(** The reduction keeps [all_time_global_max] at -inf when every chunk
    returned -inf. *)
Lemma maps_reduce_global_max_neg_inf (chunk_len : list nat)
    (results : list (nat * maps_state)) (init : maps_state) :
  global_max init = neg_inf ->
  (forall r, In r results -> global_max (snd r) = neg_inf) ->
  global_max (maps_reduce chunk_len results init) = neg_inf.
Proof.
  intros Hi Hr. unfold maps_reduce.
  apply (fold_left_invariant (fun st => global_max st = neg_inf)); [exact Hi|].
  intros st r Hin Hst. unfold maps_reduce_step. simpl.
  rewrite Hst, (Hr r Hin). apply py_max_neg_inf.
Qed.

(** [global_max] stays at -inf for every worker count, when each voxel of
    the mask with a non-zero coefficient has a GFA that is not below the
    threshold and no valid peak. *)
Lemma maps_from_sh_tmp_global_max_neg_inf (shm_coeff peak_values : list (list T))
    (peak_indices : list (list Z)) (sphere : Sphere T)
    (mask : option (list bool)) (gfa_thr : T) (sh_basis_type : basis)
    (nbr_processes : option Z) (tmp : maps_state) :
  length peak_indices = length shm_coeff ->
  (forall j,
      j < length (mask_select (maps_from_sh_mask shm_coeff mask) shm_coeff) ->
      any (nth j (mask_select (maps_from_sh_mask shm_coeff mask) shm_coeff) [])
      = true ->
      ltb (gfa (clip_min zero
                  (np_dot
                     (nth j (mask_select (maps_from_sh_mask shm_coeff mask)
                                         shm_coeff) [])
                     (fst (sh_to_sf_matrix sphere
                             (order_from_ncoef (ncols shm_coeff) false)
                             sh_basis_type false true)))))
          gfa_thr = false
      /\ count_valid
           (nth j (mask_select (maps_from_sh_mask shm_coeff mask) peak_indices)
                [])
         = 0) ->
  maps_from_sh_tmp cpu_count order_from_ncoef sh_to_sf_matrix gfa shm_coeff
    peak_values peak_indices sphere mask gfa_thr sh_basis_type nbr_processes
  = Ok tmp ->
  global_max tmp = neg_inf.
Proof.
  intros Hlen H. unfold maps_from_sh_tmp.
  set (m := maps_from_sh_mask shm_coeff mask) in *.
  set (X := mask_select m shm_coeff) in *.
  set (PI := mask_select m peak_indices) in *.
  set (PV := mask_select m peak_values).
  set (B := fst (sh_to_sf_matrix sphere
                   (order_from_ncoef (ncols shm_coeff) false)
                   sh_basis_type false true)) in *.
  set (n := resolve_lt0 cpu_count nbr_processes).
  assert (HlenX : length PI = length X)
    by (apply mask_select_same_length; exact Hlen).
  destruct (n =? 1)%Z.
  - intros E. injection E as <-. now apply maps_loop_global_max_neg_inf.
  - destruct (array_split X n) as [cs|] eqn:Ecs; [|discriminate].
    destruct (array_split PV n) as [pvs|] eqn:Epvs; [|discriminate].
    destruct (array_split PI n) as [pis|] eqn:Epis; [|discriminate].
    simpl. intros E. injection E as <-.
    apply maps_reduce_global_max_neg_inf; [reflexivity|].
    intros r Hr. apply in_map_iff in Hr.
    destruct Hr as [[[[c pv] pi] i] [<- Hin]]. simpl.
    apply in_combine_l in Hin. 
    assert (Hcpi : In (c, pi) (combine cs pis)).
    { clear - Hin. revert pvs pis Hin.
      induction cs as [|c0 cs IH]; intros pvs pis Hin; [destruct Hin|].
      destruct pvs as [|pv0 pvs]; [destruct Hin|].
      destruct pis as [|pi0 pis]; [destruct Hin|].
      destruct Hin as [Heq|Hin].
      - injection Heq as -> _ ->. now left.
      - right. now apply (IH pvs pis). }
    apply array_split_eq in Ecs, Epis. rewrite HlenX in Epis.
    rewrite Ecs, Epis, combine_map_same in Hcpi.
    apply in_map_iff in Hcpi. destruct Hcpi as [k [Hk _]].
    apply pair_equal_spec in Hk. destruct Hk as [<- <-].
    set (lo := nth k (div_points (length X) n) 0).
    set (hi := nth (S k) (div_points (length X) n) 0).
    apply maps_loop_global_max_neg_inf.
    intros idx Hidx Hany.
    pose proof (slice_length lo hi X) as HlX.
    pose proof (slice_length lo hi PI) as HlPI.
    assert (Hidx' : idx < length (slice lo hi PI)) by lia.
    rewrite (nth_slice _ _ X _ Hidx) in Hany |- *.
    rewrite (nth_slice _ _ PI _ Hidx').
    apply H; [lia|exact Hany].
Qed.

End ReducedTrackers.

(** ** The final divisions of [maps_from_sh] *)




(** ** The single-shell check of [compute_sh_coefficients] *)

Section ShellCheck.
Context {T : Type} {A : Arith T} {N : Num T}.
Variable is_normalized_bvecs : list (list T) -> bool.
Variable normalize_bvecs : list (list T) -> list (list T).
Variable identify_shells : list T -> list T * list Z.
Variable compute_dwi_attenuation : list (list T) -> list T -> list (list T).
Variable sf_to_sh :
  list (list T) -> Sphere T -> nat -> basis -> T -> bool -> list (list T).

(** The function raises exactly when the test of line 93 holds; until then
    it has logged at most the warning about the b-vectors. *)
Lemma compute_sh_coefficients_check (dwi : list (list T))
    (gradient_table : GradientTable) (b0_threshold : T) (sh_order : nat)
    (basis_type : basis) (smooth : T) (use_attenuation : bool)
    (mask : option (list bool)) (sphere : option (Sphere T))
    (is_legacy : bool) :
  let shell_values := sort (fst (identify_shells (bvals gradient_table))) in
  let r := compute_sh_coefficients is_normalized_bvecs normalize_bvecs
             identify_shells compute_dwi_attenuation sf_to_sh dwi
             gradient_table b0_threshold sh_order basis_type smooth
             use_attenuation mask sphere is_legacy in
  (snd r = Raise (ValueError "Can only work on single shell signals.")
   <-> length shell_values <> 2
       \/ ltb b0_threshold (nth 0 shell_values zero) = true)
  /\ ((exists sh, snd r = Ok sh)
      <-> length shell_values = 2
          /\ ltb b0_threshold (nth 0 shell_values zero) = false)
  /\ (snd r = Raise (ValueError "Can only work on single shell signals.")
      -> ~ In CallSfToSh (fst r) /\ ~ In CallAttenuation (fst r))
  /\ ((exists sh, snd r = Ok sh) -> In CallSfToSh (fst r)).
Proof.
  intros shell_values r.
  assert (Hcond :
    negb (length shell_values =? 2)%nat
      || ltb b0_threshold (nth 0 shell_values zero) = true
    <-> length shell_values <> 2
        \/ ltb b0_threshold (nth 0 shell_values zero) = true).
  { rewrite orb_true_iff, negb_true_iff, Nat.eqb_neq. tauto. }
  assert (Hok :
    negb (length shell_values =? 2)%nat
      || ltb b0_threshold (nth 0 shell_values zero) = false
    <-> length shell_values = 2
        /\ ltb b0_threshold (nth 0 shell_values zero) = false).
  { rewrite orb_false_iff, negb_false_iff, Nat.eqb_eq. tauto. }
  subst r. unfold compute_sh_coefficients. fold shell_values.
  destruct (negb (length shell_values =? 2)%nat
            || ltb b0_threshold (nth 0 shell_values zero)) eqn:Ec.
  - (* the test holds: the function raises *)
    assert (Hlog : forall e,
      In e (fst (if negb (is_normalized_bvecs (bvecs gradient_table))
                 then ([LogWarning "Your b-vectors do not seem normalized..."],
                       normalize_bvecs (bvecs gradient_table))
                 else ([], bvecs gradient_table)))
      -> e = LogWarning "Your b-vectors do not seem normalized...").
    { intros e.
      destruct (negb (is_normalized_bvecs (bvecs gradient_table))); simpl;
        [intros [H | []]; now subst|intros []]. }
    destruct (if negb (is_normalized_bvecs (bvecs gradient_table))
              then _ else _) as [log1 bvecs1]. simpl in *.
    split; [split; [intros _; now apply Hcond|reflexivity]|].
    split.
    { split; [intros [sh Hsh]; discriminate|].
      intros H. apply Hok in H. discriminate. }
    split.
    { intros _. split; intros H; apply Hlog in H; discriminate. }
    intros [sh Hsh]. discriminate.
  - (* the test fails: the fit is called and its result returned *)
    destruct (if negb (is_normalized_bvecs (bvecs gradient_table))
              then _ else _) as [log1 bvecs1].
    destruct (if use_attenuation then _ else _) as [log2 weights].
    simpl.
    split; [split; [discriminate|intros H; apply Hcond in H; discriminate]|].
    split; [split; [intros _; now apply Hok|intros _; eexists; reflexivity]|].
    split; [discriminate|].
    intros _. apply in_or_app. right. now left.
Qed.

End ShellCheck.

(** The distinct b-values of a table of three b0 volumes followed by
    volumes at b = 1000. *)
Lemma unique_values_b0_b1000 (k : nat) :
  unique_values (repeat 0%float 3 ++ repeat 1000%float (S k))
  = [0%float; 1000%float].
Proof.
  assert (H : unique_values (repeat 1000%float (S k)) = [1000%float]).
  { induction k as [|k IH]; [reflexivity|].
    change (repeat 1000%float (S (S k)))
      with (1000%float :: repeat 1000%float (S k)).
    cbn [unique_values]. rewrite IH. reflexivity. }
  change (repeat 0%float 3 ++ repeat 1000%float (S k))
    with (0%float :: 0%float :: 0%float :: repeat 1000%float (S k)).
  cbn [unique_values]. rewrite H. reflexivity.
Qed.


(** ** The precision of [convert_sh_to_sf] *)

(** C6.  A float64 volume of two voxels with the coefficients 1 and 0,
    converted with [dtype="float64"].  The float64 product of the first
    voxel with B is Y00 at both directions.  The array that is returned has
    dtype float64, but its entries are Y00 rounded to binary32: the loop
    stores every product in an array allocated with [dtype=np.float32].
    One and two workers agree on this. *)
Theorem convert_sh_to_sf_float64_goes_through_float32 :
  np_dot_in Float64 [1%float] [[Run.Y00; Run.Y00]] = [Run.Y00; Run.Y00]
  /\ PrimFloat.eqb (round_binary32 Run.Y00) Run.Y00 = false
  /\ Run.sf_run [[1]; [0]]%float Float64 (Some 1%Z)
     = Ok {| dtype_of := Float64;
             rows := [[round_binary32 Run.Y00; round_binary32 Run.Y00];
                      [0%float; 0%float]] |}
  /\ Run.sf_run [[1]; [0]]%float Float64 (Some 2%Z)
     = Ok {| dtype_of := Float64;
             rows := [[round_binary32 Run.Y00; round_binary32 Run.Y00];
                      [0%float; 0%float]] |}.
Proof.
  split; [vm_compute; reflexivity|].
  split; [vm_compute; reflexivity|].
  split; vm_compute; reflexivity.
Qed.

(** ** RISH: orders and coefficient counts *)

Lemma l_range_full (o : nat) : l_range (Z.of_nat o) true = seq 0 (S o).
Proof.
  unfold l_range. f_equal. lia.
Qed.

Lemma l_range_symmetric (h : nat) :
  l_range (Z.of_nat (2 * h)) false = map (fun k => 2 * k) (seq 0 (S h)).
Proof.
  unfold l_range. do 2 f_equal.
  replace (Z.of_nat (2 * h)) with (Z.of_nat h * 2)%Z by lia.
  rewrite Z.div_mul by lia. lia.
Qed.

(** The orders of a valid basis: 0, 1, ..., o, or 0, 2, ..., o. *)
Lemma l_range_cases (o : nat) (full : bool) :
  (full = false -> Nat.even o = true) ->
  (full = true /\ l_range (Z.of_nat o) full = seq 0 (S o))
  \/ (full = false /\ exists h, o = 2 * h
      /\ l_range (Z.of_nat o) full = map (fun k => 2 * k) (seq 0 (S h))).
Proof.
  intros He. destruct full.
  - left. split; [reflexivity|]. apply l_range_full.
  - right. split; [reflexivity|].
    specialize (He eq_refl). apply Nat.even_spec in He. destruct He as [h ->].
    exists h. split; [reflexivity|]. apply l_range_symmetric.
Qed.

Lemma length_order_ids_from (f : nat -> nat) (L : list nat) :
  length (flat_map (fun l => repeat l (f l)) L) = list_sum (map f L).
Proof.
  induction L as [|l L IH]; simpl; [reflexivity|].
  now rewrite length_app, repeat_length, IH.
Qed.

Lemma sum_odd_full (n : nat) :
  list_sum (map (fun l => 2 * l + 1) (seq 0 n)) = n * n.
Proof.
  induction n as [|n IH]; [reflexivity|].
  rewrite seq_S, map_app, list_sum_app, IH. simpl. lia.
Qed.

Lemma sum_odd_symmetric (n : nat) :
  list_sum (map (fun l => 2 * l + 1) (map (fun k => 2 * k) (seq 0 n)))
  = n * (2 * n - 1).
Proof.
  induction n as [|n IH]; [reflexivity|].
  rewrite seq_S, !map_app, list_sum_app, IH. simpl. nia.
Qed.

(** dipy lists as many coefficients as the basis has. *)
Lemma length_order_ids (o : nat) (full : bool) :
  (full = false -> Nat.even o = true) ->
  length (flat_map (fun l => repeat l (2 * l + 1)) (l_range (Z.of_nat o) full))
  = ncoef_of o full.
Proof.
  intros He. rewrite length_order_ids_from. unfold ncoef_of.
  destruct (@l_range_cases o full He) as [[-> ->]|[-> [h [-> ->]]]].
  - rewrite sum_odd_full. lia.
  - rewrite sum_odd_symmetric.
    replace ((2 * h + 1) * (2 * h + 2)) with ((S h * (2 * S h - 1)) * 2) by nia.
    now rewrite Nat.div_mul by lia.
Qed.

(** dipy infers the order of a valid coefficient count. *)
Lemma dipy_order_from_ncoef_valid (o : nat) (full : bool) :
  (full = false -> Nat.even o = true) ->
  dipy_order_from_ncoef (ncoef_of o full) full = Z.of_nat o.
Proof.
  intros He. unfold dipy_order_from_ncoef, ncoef_of. destruct full.
  - replace (Z.of_nat ((o + 1) * (o + 1)))
      with ((Z.of_nat o + 1) * (Z.of_nat o + 1))%Z by lia.
    rewrite Z.sqrt_square by lia. lia.
  - specialize (He eq_refl). apply Nat.even_spec in He. destruct He as [h ->].
    replace ((2 * h + 1) * (2 * h + 2)) with (((2 * h + 1) * (h + 1)) * 2)
      by nia.
    rewrite Nat.div_mul by lia.
    replace (9 - 4 * (2 - 2 * Z.of_nat ((2 * h + 1) * (h + 1))))%Z
      with ((4 * Z.of_nat h + 3) * (4 * Z.of_nat h + 3))%Z by nia.
    rewrite Z.sqrt_square by lia.
    replace (4 * Z.of_nat h + 3)%Z with (1 + (2 * Z.of_nat h + 1) * 2)%Z by lia.
    rewrite Z.div_add by lia. change (1 / 2)%Z with 0%Z. lia.
Qed.

Lemma dipy_sph_harm_ind_list_valid (o : nat) (full : bool) :
  (full = false -> Nat.even o = true) ->
  exists degree_ids,
    dipy_sph_harm_ind_list (Z.of_nat o) full
    = Ok (degree_ids,
          flat_map (fun l => repeat l (2 * l + 1)) (l_range (Z.of_nat o) full)).
Proof.
  intros He. unfold dipy_sph_harm_ind_list.
  destruct full; simpl; [eexists; reflexivity|].
  specialize (He eq_refl). apply Nat.even_spec in He. destruct He as [h ->].
  replace (Z.even (Z.of_nat (2 * h))) with true; [eexists; reflexivity|].
  symmetry. apply Z.even_spec. exists (Z.of_nat h). lia.
Qed.

(** ** RISH: the number of indices per order *)

Lemma count_occ_order_ids (f : nat -> nat) (L : list nat) (v : nat) :
  NoDup L ->
  count_occ Nat.eq_dec (flat_map (fun l => repeat l (f l)) L) v
  = if existsb (Nat.eqb v) L then f v else 0.
Proof.
  induction L as [|l L IH]; intros Hnd; [reflexivity|].
  inversion Hnd as [|? ? Hnotin Hnd']; subst.
  simpl. rewrite count_occ_app, IH by exact Hnd'.
  destruct (Nat.eqb_spec v l) as [->|Hne]; simpl.
  - rewrite count_occ_repeat_eq by reflexivity.
    replace (existsb (Nat.eqb l) L) with false; [lia|].
    symmetry. apply not_true_is_false. intros H. apply existsb_exists in H.
    destruct H as [x [Hx Hxl]]. apply Nat.eqb_eq in Hxl. now subst.
  - rewrite count_occ_repeat_neq by exact Hne. reflexivity.
Qed.

Lemma list_max_repeat_pos (l n : nat) : 0 < n -> list_max (repeat l n) = l.
Proof.
  induction n as [|n IH]; intros Hn; [lia|].
  destruct n as [|n]; simpl; [lia|].
  simpl in IH. rewrite IH by lia. lia.
Qed.

Lemma list_max_order_ids (L : list nat) :
  list_max (flat_map (fun l => repeat l (2 * l + 1)) L) = list_max L.
Proof.
  induction L as [|l L IH]; [reflexivity|].
  cbn [flat_map]. rewrite list_max_app, list_max_repeat_pos, IH by lia.
  reflexivity.
Qed.

Lemma list_max_seq (n : nat) : list_max (seq 0 (S n)) = n.
Proof.
  induction n as [|n IH]; [reflexivity|].
  rewrite seq_S, list_max_app, IH. simpl. lia.
Qed.

Lemma list_max_evens (h : nat) :
  list_max (map (fun k => 2 * k) (seq 0 (S h))) = 2 * h.
Proof.
  induction h as [|h IH]; [reflexivity|].
  rewrite seq_S, map_app, list_max_app, IH. simpl. lia.
Qed.

Lemma existsb_eqb_seq (v n : nat) :
  existsb (Nat.eqb v) (seq 0 n) = (v <? n).
Proof.
  destruct (Nat.ltb_spec v n) as [H|H].
  - apply existsb_exists. exists v. split; [apply in_seq; lia|].
    apply Nat.eqb_refl.
  - apply not_true_is_false. intros E. apply existsb_exists in E.
    destruct E as [x [Hx Hv]]. apply in_seq in Hx. apply Nat.eqb_eq in Hv. lia.
Qed.

Lemma existsb_eqb_evens (v h : nat) :
  v <= 2 * h ->
  existsb (Nat.eqb v) (map (fun k => 2 * k) (seq 0 (S h))) = Nat.even v.
Proof.
  intros Hv. destruct (Nat.even v) eqn:E.
  - apply Nat.even_spec in E. destruct E as [k ->].
    apply existsb_exists. exists (2 * k). split; [|apply Nat.eqb_refl].
    apply in_map_iff. exists k. split; [reflexivity|]. apply in_seq. lia.
  - apply not_true_is_false. intros H. apply existsb_exists in H.
    destruct H as [x [Hx Hvx]]. apply Nat.eqb_eq in Hvx. subst x.
    apply in_map_iff in Hx. destruct Hx as [k [Hk _]].
    assert (Nat.even v = true) by (apply Nat.even_spec; exists k; lia).
    congruence.
Qed.

Lemma NoDup_evens (n : nat) : NoDup (map (fun k => 2 * k) (seq 0 n)).
Proof.
  generalize (seq_NoDup n 0).
  induction (seq 0 n) as [|x l IH]; intros Hnd; [constructor|].
  inversion Hnd as [|? ? Hx Hl]; subst. simpl. constructor; [|now apply IH].
  intros Hin. apply in_map_iff in Hin. destruct Hin as [y [Hy Hyl]].
  assert (y = x) by lia. now subst.
Qed.

Section Strides.
Context {R : Type}.

Lemma strided_one (a : list R) : strided 1 a = a.
Proof.
  unfold strided. induction a as [|x r IH]; [reflexivity|].
  simpl. now rewrite IH.
Qed.

Lemma strided_two_cons2 (x y : R) (r : list R) :
  strided 2 (x :: y :: r) = x :: strided 2 r.
Proof. reflexivity. Qed.

Lemma strided_two_map_seq (F : nat -> R) (h a : nat) :
  strided 2 (map F (seq a (S (2 * h))))
  = map (fun k => F (a + 2 * k)) (seq 0 (S h)).
Proof.
  revert a. induction h as [|h IH]; intros a.
  - simpl. now rewrite Nat.add_0_r.
  - replace (S (2 * S h)) with (S (S (S (2 * h)))) by lia.
    change (seq a (S (S (S (2 * h)))))
      with (a :: S a :: seq (S (S a)) (S (2 * h))).
    cbn [map]. rewrite strided_two_cons2, IH.
    change (seq 0 (S (S h))) with (0 :: seq 1 (S h)).
    cbn [map]. f_equal; [f_equal; lia|].
    rewrite <- seq_shift, map_map.
    apply map_ext. intros k. f_equal. lia.
Qed.

End Strides.

Lemma filter_even_seq (h : nat) :
  filter Nat.even (seq 0 (S (2 * h))) = map (fun k => 2 * k) (seq 0 (S h)).
Proof.
  induction h as [|h IH]; [reflexivity|].
  replace (S (2 * S h)) with (S (S (S (2 * h)))) by lia.
  rewrite (seq_S (S (S (2 * h)))), (seq_S (S (2 * h))), !filter_app, IH.
  rewrite (seq_S (S h)), map_app, <- app_assoc. f_equal.
  cbn [filter map Nat.add].
  replace (Nat.even (S (2 * h))) with false.
  2:{ symmetry. rewrite <- Nat.negb_odd. apply negb_false_iff.
      apply Nat.odd_spec. exists h. lia. }
  replace (Nat.even (S (S (2 * h)))) with true.
  2:{ symmetry. apply Nat.even_spec. exists (S h). lia. }
  cbn [app]. f_equal. lia.
Qed.

Lemma bincount_cons (x : nat) (a : list nat) :
  bincount (x :: a)
  = map (fun v => count_occ Nat.eq_dec (x :: a) v)
        (seq 0 (S (list_max (x :: a)))).
Proof. reflexivity. Qed.

Lemma filter_all_true {X : Type} (l : list X) : filter (fun _ => true) l = l.
Proof. induction l as [|x l IH]; simpl; congruence. Qed.

(** For a valid order, [np.bincount(order_ids)[::step]] is the list of the
    2 l + 1 of the orders l, and [sorted(np.unique(order_ids))] the list of
    the orders. *)
Lemma n_indices_per_order_valid (o : nat) (full : bool) :
  (full = false -> Nat.even o = true) ->
  let L := l_range (Z.of_nat o) full in
  let order_ids := flat_map (fun l => repeat l (2 * l + 1)) L in
  strided (if full then 1 else 2) (bincount order_ids)
  = map (fun l => 2 * l + 1) L
  /\ sorted_unique order_ids = L.
Proof.
  intros He. cbv zeta.
  destruct (@l_range_cases o full He) as [[-> EL]|[-> [h [-> EL]]]];
    rewrite EL; clear EL.
  - set (ids := flat_map (fun l => repeat l (2 * l + 1)) (seq 0 (S o))).
    assert (Hcount : forall v, v < S o ->
              count_occ Nat.eq_dec ids v = 2 * v + 1).
    { intros v Hv. unfold ids.
      rewrite count_occ_order_ids by apply seq_NoDup.
      rewrite existsb_eqb_seq.
      destruct (Nat.ltb_spec v (S o)); [reflexivity|lia]. }
    assert (Hmax : list_max ids = o)
      by (unfold ids; now rewrite list_max_order_ids, list_max_seq).
    assert (Hhd : exists rest, ids = 0 :: rest).
    { unfold ids. change (seq 0 (S o)) with (0 :: seq 1 o).
      cbn [flat_map]. replace (2 * 0 + 1) with 1 by lia. eexists. reflexivity. }
    unfold sorted_unique. rewrite Hmax.
    destruct Hhd as [rest Hrest]. rewrite Hrest at 1.
    rewrite bincount_cons, <- Hrest, Hmax, strided_one. split.
    + apply map_ext_in. intros v Hv. apply in_seq in Hv. apply Hcount. lia.
    + rewrite <- (filter_ext_in (fun _ => true)); [apply filter_all_true|].
      intros v Hv. apply in_seq in Hv. rewrite Hcount by lia.
      symmetry. apply negb_true_iff, Nat.eqb_neq. lia.
  - set (ids := flat_map (fun l => repeat l (2 * l + 1))
                         (map (fun k => 2 * k) (seq 0 (S h)))).
    assert (Hcount : forall v, v <= 2 * h ->
              count_occ Nat.eq_dec ids v
              = if Nat.even v then 2 * v + 1 else 0).
    { intros v Hv. unfold ids.
      rewrite count_occ_order_ids by apply NoDup_evens.
      now rewrite existsb_eqb_evens by lia. }
    assert (Hmax : list_max ids = 2 * h)
      by (unfold ids; now rewrite list_max_order_ids, list_max_evens).
    assert (Hhd : exists rest, ids = 0 :: rest).
    { unfold ids. change (seq 0 (S h)) with (0 :: seq 1 h).
      cbn [map flat_map]. replace (2 * (2 * 0) + 1) with 1 by lia.
      eexists. reflexivity. }
    unfold sorted_unique. rewrite Hmax.
    destruct Hhd as [rest Hrest]. rewrite Hrest at 1.
    rewrite bincount_cons, <- Hrest, Hmax. split.
    + rewrite strided_two_map_seq, map_map.
      apply map_ext_in. intros k Hk. apply in_seq in Hk.
      rewrite Hcount by lia.
      replace (Nat.even (0 + 2 * k)) with true; [f_equal; lia|].
      symmetry. apply Nat.even_spec. exists k. lia.
    + rewrite <- filter_even_seq.
      apply filter_ext_in. intros v Hv. apply in_seq in Hv.
      rewrite Hcount by lia.
      destruct (Nat.even v); [|reflexivity].
      apply negb_true_iff, Nat.eqb_neq. lia.
Qed.

(** ** RISH: [np.add.reduceat] on the paired indices *)

Lemma order_positions_block_starts (start : nat) (sizes : list nat) :
  removelast (start :: cumsum_from start sizes) = block_starts start sizes.
Proof.
  revert start. induction sizes as [|n r IH]; intros start; [reflexivity|].
  cbn [cumsum_from block_starts]. rewrite <- IH. reflexivity.
Qed.

Section Reduceat.
Context {T : Type} {A : Arith T}.

(** With positive block sizes, every second entry of
    [np.add.reduceat(a, np.repeat(starts, 2)[1:])] is the sum of a block. *)
Lemma reduceat_paired_indices (a : list T) (sizes : list nat) (start : nat) :
  Forall (fun n => 0 < n) sizes ->
  strided 2 (reduceat a (tl (repeat2 (block_starts start sizes))))
  = block_sums (skipn start a) sizes.
Proof.
  revert start. induction sizes as [|n r IH]; intros start Hpos; [reflexivity|].
  destruct r as [|n' r'].
  - reflexivity.
  - inversion Hpos as [|? ? Hn Hr]; subst.
    specialize (IH (start + n) Hr).
    cbn [block_starts repeat2 flat_map app tl] in IH |- *.
    cbn [reduceat].
    destruct (Nat.ltb_spec start (start + n)) as [_|Hge]; [|lia].
    rewrite Nat.ltb_irrefl.
    rewrite strided_two_cons2.
    cbn [block_sums]. f_equal.
    + unfold slice. f_equal. f_equal. lia.
    + cbn [reduceat] in IH. rewrite IH.
      now rewrite skipn_skipn, (Nat.add_comm n start).
Qed.

Context {EA : ExactArith T}.

Lemma fold_left_add_acc (l : list T) (x y : T) :
  fold_left add l (add x y) = add x (fold_left add l y).
Proof.
  revert y. induction l as [|z l IH]; intros y; [reflexivity|].
  simpl. now rewrite <- add_assoc, IH.
Qed.

Lemma np_sum_cons (x : T) (l : list T) : np_sum (x :: l) = add x (np_sum l).
Proof.
  unfold np_sum. simpl. rewrite add_0_l.
  rewrite <- (add_0_r x) at 1. apply fold_left_add_acc.
Qed.

Lemma np_sum_app (l1 l2 : list T) :
  np_sum (l1 ++ l2) = add (np_sum l1) (np_sum l2).
Proof.
  induction l1 as [|x l1 IH]; simpl.
  - unfold np_sum at 2. simpl. now rewrite add_0_l.
  - now rewrite !np_sum_cons, IH, add_assoc.
Qed.

Lemma add_reduce_np_sum (l : list T) : add_reduce l = np_sum l.
Proof.
  destruct l as [|x l]; [reflexivity|].
  unfold add_reduce, np_sum. simpl. now rewrite add_0_l.
Qed.

(** The blocks partition the list: their sums add up to its sum. *)
Lemma np_sum_block_sums (a : list T) (sizes : list nat) :
  sizes <> [] -> np_sum (block_sums a sizes) = np_sum a.
Proof.
  revert a. induction sizes as [|n r IH]; intros a Hne; [congruence|].
  destruct r as [|n' r'].
  - cbn [block_sums]. rewrite np_sum_cons, add_reduce_np_sum.
    unfold np_sum at 2. simpl. apply add_0_r.
  - cbn [block_sums] in IH |- *.
    rewrite np_sum_cons, add_reduce_np_sum, IH by discriminate.
    now rewrite <- np_sum_app, firstn_skipn.
Qed.

End Reduceat.

(** ** RISH: the coefficients of an order *)

Section OrderBlocks.
Context {R : Type}.

Lemma combine_app_left {X : Type} (l1 l2 : list X) (a : list R) :
  combine (l1 ++ l2) a
  = combine l1 (firstn (length l1) a) ++ combine l2 (skipn (length l1) a).
Proof.
  revert a. induction l1 as [|x l1 IH]; intros a; [reflexivity|].
  destruct a as [|y a]; simpl.
  - now destruct l2.
  - now rewrite IH.
Qed.

Lemma coefficients_of_order_app (ids1 ids2 : list nat) (l : nat) (a : list R) :
  coefficients_of_order (ids1 ++ ids2) l a
  = coefficients_of_order ids1 l (firstn (length ids1) a)
    ++ coefficients_of_order ids2 l (skipn (length ids1) a).
Proof.
  unfold coefficients_of_order.
  now rewrite combine_app_left, filter_app, map_app.
Qed.

Lemma coefficients_of_order_repeat_same (l n : nat) (a : list R) :
  coefficients_of_order (repeat l n) l a = firstn n a.
Proof.
  unfold coefficients_of_order.
  revert a. induction n as [|n IH]; intros a; [reflexivity|].
  destruct a as [|y a]; [reflexivity|].
  simpl. rewrite Nat.eqb_refl. simpl. now rewrite IH.
Qed.

Lemma coefficients_of_order_repeat_other (l x n : nat) (a : list R) :
  x <> l -> coefficients_of_order (repeat l n) x a = [].
Proof.
  intros Hne. unfold coefficients_of_order.
  revert a. induction n as [|n IH]; intros a; [reflexivity|].
  destruct a as [|y a]; [reflexivity|].
  simpl. destruct (Nat.eqb_spec l x); [congruence|]. apply IH.
Qed.

Lemma coefficients_of_order_absent (f : nat -> nat) (L : list nat) (x : nat)
    (a : list R) :
  ~ In x L ->
  coefficients_of_order (flat_map (fun l => repeat l (f l)) L) x a = [].
Proof.
  revert a. induction L as [|l L IH]; intros a Hx.
  - reflexivity.
  - cbn [flat_map]. rewrite coefficients_of_order_app.
    rewrite coefficients_of_order_repeat_other by (intros ->; apply Hx; now left).
    apply IH. intros H. apply Hx. now right.
Qed.

Lemma coefficients_of_order_map {R' : Type} (g : R -> R') (ids : list nat)
    (l : nat) (a : list R) :
  coefficients_of_order ids l (map g a)
  = map g (coefficients_of_order ids l a).
Proof.
  unfold coefficients_of_order.
  revert a. induction ids as [|i ids IH]; intros a; [reflexivity|].
  destruct a as [|y a]; [reflexivity|].
  simpl. destruct (i =? l); simpl; now rewrite IH.
Qed.

End OrderBlocks.

Section BlocksAreOrders.
Context {T : Type} {A : Arith T}.

(** The blocks of a row of the right length are the coefficients of the
    successive orders. *)
Lemma block_sums_by_order (f : nat -> nat) (L : list nat) (a : list T) :
  NoDup L ->
  length a = list_sum (map f L) ->
  block_sums a (map f L)
  = map (fun l => add_reduce
                    (coefficients_of_order
                       (flat_map (fun l' => repeat l' (f l')) L) l a)) L.
Proof.
  revert a. induction L as [|l L IH]; intros a Hnd Hlen; [reflexivity|].
  inversion Hnd as [|? ? Hnotin Hnd']; subst.
  destruct L as [|l' L'].
  - cbn [map block_sums flat_map]. rewrite app_nil_r.
    rewrite coefficients_of_order_repeat_same.
    rewrite firstn_all2; [reflexivity|]. simpl in Hlen. lia.
  - change (map f (l :: l' :: L')) with (f l :: map f (l' :: L')).
    change (block_sums a (f l :: map f (l' :: L')))
      with (add_reduce (firstn (f l) a)
            :: block_sums (skipn (f l) a) (map f (l' :: L'))).
    rewrite IH.
    2: exact Hnd'.
    2:{ rewrite length_skipn, Hlen. simpl. lia. }
    change (flat_map (fun l'0 => repeat l'0 (f l'0)) (l :: l' :: L'))
      with (repeat l (f l)
            ++ flat_map (fun l'0 => repeat l'0 (f l'0)) (l' :: L')).
    cbn [map]. f_equal.
    + rewrite coefficients_of_order_app, repeat_length.
      rewrite coefficients_of_order_repeat_same.
      rewrite coefficients_of_order_absent by exact Hnotin.
      rewrite app_nil_r, firstn_firstn. f_equal. f_equal. lia.
    + f_equal.
      * rewrite coefficients_of_order_app, repeat_length.
        rewrite coefficients_of_order_repeat_other; [reflexivity|].
        intros ->. apply Hnotin. now left.
      * apply map_ext_in. intros x Hx.
        rewrite coefficients_of_order_app, repeat_length.
        rewrite coefficients_of_order_repeat_other; [reflexivity|].
        intros ->. apply Hnotin. now right.
Qed.

End BlocksAreOrders.

(** ** RISH: masks and the result *)

Lemma StronglySorted_seq (a n : nat) : StronglySorted lt (seq a n).
Proof.
  revert a. induction n as [|n IH]; intros a; [constructor|].
  simpl. constructor; [apply IH|].
  apply Forall_forall. intros x Hx. apply in_seq in Hx. lia.
Qed.

Lemma StronglySorted_evens (a n : nat) :
  StronglySorted lt (map (fun k => 2 * k) (seq a n)).
Proof.
  revert a. induction n as [|n IH]; intros a; [constructor|].
  simpl. constructor; [apply IH|].
  apply Forall_forall. intros x Hx. apply in_map_iff in Hx.
  destruct Hx as [k [<- Hk]]. apply in_seq in Hk. lia.
Qed.

Lemma l_range_sorted (o : nat) (full : bool) :
  (full = false -> Nat.even o = true) ->
  StronglySorted lt (l_range (Z.of_nat o) full)
  /\ NoDup (l_range (Z.of_nat o) full)
  /\ l_range (Z.of_nat o) full <> [].
Proof.
  intros He.
  destruct (@l_range_cases o full He) as [[-> ->]|[-> [h [-> ->]]]].
  - split; [apply StronglySorted_seq|]. split; [apply seq_NoDup|discriminate].
  - split; [apply StronglySorted_evens|].
    split; [apply NoDup_evens|discriminate].
Qed.

Section MaskedRows.
Context {T : Type} {A : Arith T}.

Lemma block_sums_length (a : list T) (sizes : list nat) :
  length (block_sums a sizes) = length sizes.
Proof.
  revert a. induction sizes as [|n r IH]; intros a; [reflexivity|].
  destruct r as [|n' r']; [reflexivity|].
  cbn [block_sums length] in IH |- *. now rewrite IH.
Qed.

Lemma apply_mask_length (mask : list bool) (a : list (list T)) :
  length mask = length a -> length (apply_mask mask a) = length a.
Proof.
  intros H. unfold apply_mask. rewrite length_map, length_combine. lia.
Qed.

Lemma nth_apply_mask (mask : list bool) (a : list (list T)) (i : nat) :
  length mask = length a ->
  i < length a ->
  nth i (apply_mask mask a) []
  = map (fun x => mul x (of_bool (nth i mask false))) (nth i a []).
Proof.
  intros Hl Hi. unfold apply_mask.
  rewrite (nth_map_lt _ _ [] ([], false))
    by (rewrite length_combine; lia).
  rewrite combine_nth by congruence. reflexivity.
Qed.

Context {EA : ExactArith T}.

Lemma mask_row_true (row : list T) :
  map (fun x => mul x (of_bool true)) row = row.
Proof.
  induction row as [|x r IH]; cbn [map]; [reflexivity|].
  rewrite IH. unfold of_bool. now rewrite mul_1_r.
Qed.

Lemma mask_row_false (row : list T) :
  map (fun x => mul x (of_bool false)) row = zeros (length row).
Proof.
  unfold zeros. induction row as [|x r IH]; cbn [map length repeat];
    [reflexivity|].
  rewrite IH. unfold of_bool. now rewrite mul_0_r.
Qed.

End MaskedRows.

Section RishResult.
Context {T : Type} {A : Arith T}.

(** On a valid coefficient count, [compute_rish] returns the orders of the
    basis and, for each (masked) row, the sums of the blocks of its
    squares. *)
Lemma compute_rish_blocks (sh : list (list T)) (mask : option (list bool))
    (full : bool) (o : nat) :
  (full = false -> Nat.even o = true) ->
  ncols sh = ncoef_of o full ->
  let orders := l_range (Z.of_nat o) full in
  let sizes := map (fun l => 2 * l + 1) orders in
  let masked (a : list (list T)) :=
    match mask with Some m => apply_mask m a | None => a end in
  compute_rish sh mask full
  = Ok (masked (map (fun row => block_sums row sizes)
                    (map (map (fun x => mul x x)) (masked sh))),
        orders).
Proof.
  intros He Hn. cbv zeta. unfold compute_rish.
  rewrite Hn, dipy_order_from_ncoef_valid by exact He.
  destruct (@dipy_sph_harm_ind_list_valid o full He) as [deg Hd].
  rewrite Hd. cbn [bind snd].
  destruct (@n_indices_per_order_valid o full He) as [Hs Hu].
  rewrite Hs, Hu. unfold cumsum. rewrite order_positions_block_starts.
  do 2 f_equal.
  assert (Hrows : forall l : list (list T),
    map (fun row =>
           strided 2
             (reduceat row
                (tl (repeat2
                       (block_starts 0
                          (map (fun l => 2 * l + 1)
                               (l_range (Z.of_nat o) full))))))) l
    = map (fun row =>
             block_sums row
               (map (fun l => 2 * l + 1) (l_range (Z.of_nat o) full))) l).
  { intros l. apply map_ext. intros row.
    rewrite reduceat_paired_indices; [reflexivity|].
    apply Forall_forall. intros n Hin. apply in_map_iff in Hin.
    destruct Hin as [x [<- _]]. lia. }
  destruct mask as [m|]; now rewrite Hrows.
Qed.

Context {EA : ExactArith T}.


End RishResult.

(** The integers satisfy the laws of exact arithmetic. *)
Lemma Z_exact_arith : ExactArith Z.
Proof.
  split; intros; cbn [add mul zero one Z_arith]; lia.
Qed.


(** ** Splitting into chunks and putting the results back *)

Section SplitAndReassemble.
Context {R : Type}.

Lemma slices_chunks_from (a : list R) (sizes : list nat) (start : nat) :
  map (fun i => slice (nth i (start :: cumsum_from start sizes) 0)
                      (nth (S i) (start :: cumsum_from start sizes) 0) a)
      (seq 0 (length sizes))
  = chunks_from (skipn start a) sizes.
Proof.
  revert start. induction sizes as [|s r IH]; intros start; [reflexivity|].
  cbn [length seq map cumsum_from chunks_from nth]. f_equal.
  - unfold slice. f_equal. lia.
  - rewrite <- seq_shift, map_map.
    rewrite skipn_skipn, (Nat.add_comm s start), <- IH.
    apply map_ext. intros i. reflexivity.
Qed.

Lemma section_sizes_length (total n : nat) :
  0 < n -> length (section_sizes total n) = n.
Proof.
  intros Hn. unfold section_sizes. rewrite length_app, !repeat_length.
  pose proof (Nat.mod_upper_bound total n). lia.
Qed.

Lemma list_sum_repeat (x k : nat) : list_sum (repeat x k) = k * x.
Proof. induction k as [|k IH]; simpl; [reflexivity|]. rewrite IH. lia. Qed.

(** The sections of [np.array_split] cover the array. *)
Lemma list_sum_section_sizes (total n : nat) :
  0 < n -> list_sum (section_sizes total n) = total.
Proof.
  intros Hn. unfold section_sizes.
  rewrite list_sum_app, !list_sum_repeat.
  pose proof (Nat.div_mod_eq total n) as Hdm.
  pose proof (Nat.mod_upper_bound total n) as Hub.
  nia.
Qed.

Lemma array_split_chunks_from (a : list R) (n : Z) (chunks : list (list R)) :
  array_split a n = Ok chunks ->
  chunks = chunks_from a (section_sizes (length a) (Z.to_nat n)).
Proof.
  intros H. pose proof (array_split_eq a n H) as E.
  unfold array_split in H. destruct (n <=? 0)%Z eqn:En; [discriminate|].
  apply Z.leb_gt in En.
  rewrite E. unfold div_points, cumsum. cbn [cumsum_from Nat.add].
  set (sizes := section_sizes (length a) (Z.to_nat n)).
  replace (seq 0 (Z.to_nat n)) with (seq 0 (length sizes))
    by (unfold sizes; rewrite section_sizes_length by lia; reflexivity).
  now rewrite slices_chunks_from.
Qed.

Lemma firstn_plus (n m : nat) (l : list R) :
  firstn (n + m) l = firstn n l ++ firstn m (skipn n l).
Proof.
  revert l. induction n as [|n IH]; intros l; [reflexivity|].
  destruct l as [|x l]; [simpl; now rewrite firstn_nil|].
  cbn [Nat.add firstn skipn app]. now rewrite IH.
Qed.

Lemma concat_chunks_from (a : list R) (sizes : list nat) :
  concat (chunks_from a sizes) = firstn (list_sum sizes) a.
Proof.
  revert a. induction sizes as [|s r IH]; intros a; [reflexivity|].
  cbn [chunks_from concat list_sum fold_right]. rewrite IH.
  change (fold_right Nat.add 0 r) with (list_sum r).
  now rewrite firstn_plus.
Qed.

(** The chunks of [np.array_split], put end to end, are the array. *)
Lemma concat_array_split (a : list R) (n : Z) (chunks : list (list R)) :
  array_split a n = Ok chunks -> concat chunks = a /\ length chunks = Z.to_nat n.
Proof.
  intros H. pose proof (array_split_chunks_from a n H) as E.
  unfold array_split in H. destruct (n <=? 0)%Z eqn:En; [discriminate|].
  apply Z.leb_gt in En. injection H as H.
  split.
  - rewrite E, concat_chunks_from, list_sum_section_sizes by lia.
    apply firstn_all.
  - rewrite <- H. now rewrite length_map, length_seq.
Qed.

Lemma assign_slice_whole (lo : nat) (src a : list R) :
  assign_slice lo (lo + length src) src a
  = firstn lo a ++ src ++ skipn (lo + length src) a.
Proof.
  unfold assign_slice.
  replace (lo + length src - lo) with (length src) by lia.
  now rewrite firstn_all.
Qed.

(** The reassembly loop, started at chunk [k] and offset [start], writes
    the results one after the other. *)
Lemma rows_reassemble_from (rs : list (list R)) (k start : nat)
    (prefix : list nat) (tmp : list R) :
  length prefix = k ->
  start + length (concat rs) <= length tmp ->
  rows_reassemble (prefix ++ start :: cumsum_from start (map (@length R) rs))
    (combine (seq k (length rs)) rs) tmp
  = firstn start tmp ++ concat rs ++ skipn (start + length (concat rs)) tmp.
Proof.
  revert k start prefix tmp.
  induction rs as [|r rs IH]; intros k start prefix tmp Hk Hlen.
  - cbn [concat length app]. rewrite Nat.add_0_r. symmetry. apply firstn_skipn.
  - cbn [concat] in Hlen. rewrite length_app in Hlen.
    cbn [length seq combine map cumsum_from]. unfold rows_reassemble.
    cbn [fold_left fst snd].
    rewrite (app_nth2 prefix) by lia.
    replace (k - length prefix) with 0 by lia. cbn [nth].
    replace (nth (S k) (prefix ++ start :: start + length r
                        :: cumsum_from (start + length r) (map (@length R) rs)) 0)
      with (start + length r).
    2:{ rewrite app_nth2 by lia.
        replace (S k - length prefix) with 1 by lia. reflexivity. }
    rewrite assign_slice_whole.
    replace (prefix ++ start :: start + length r
             :: cumsum_from (start + length r) (map (@length R) rs))
      with ((prefix ++ [start]) ++ (start + length r)
            :: cumsum_from (start + length r) (map (@length R) rs))
      by (now rewrite <- app_assoc).
    fold (rows_reassemble
            ((prefix ++ [start]) ++ (start + length r)
             :: cumsum_from (start + length r) (map (@length R) rs))
            (combine (seq (S k) (length rs)) rs)
            (firstn start tmp ++ r ++ skipn (start + length r) tmp)).
    rewrite IH.
    + assert (Hf : length (firstn start tmp) = start)
        by (rewrite length_firstn; lia).
      assert (Hfr : length (firstn start tmp ++ r) = start + length r)
        by (rewrite length_app; lia).
      rewrite (app_assoc (firstn start tmp) r).
      rewrite firstn_app, Hfr, Nat.sub_diag.
      rewrite (firstn_all2 (n := start + length r) (firstn start tmp ++ r))
        by lia.
      cbn [firstn]. rewrite app_nil_r.
      rewrite skipn_app, Hfr.
      rewrite (skipn_all2 (n := start + length r + length (concat rs))
                 (firstn start tmp ++ r)) by lia.
      replace (start + length r + length (concat rs) - (start + length r))
        with (length (concat rs)) by lia.
      rewrite skipn_skipn. cbn [concat app]. rewrite length_app.
      rewrite <- !app_assoc. do 4 f_equal. lia.
    + rewrite length_app. cbn [length]. lia.
    + rewrite !length_app, length_firstn, length_skipn. lia.
Qed.

(** Started on an array of the total length, the loop builds the
    concatenation of the results. *)
Lemma rows_reassemble_concat (rs : list (list R)) (tmp : list R) :
  length tmp = length (concat rs) ->
  rows_reassemble (cumsum (0 :: map (@length R) rs))
    (combine (seq 0 (length rs)) rs) tmp
  = concat rs.
Proof.
  intros Hlen.
  change (cumsum (0 :: map (@length R) rs))
    with ([] ++ 0 :: cumsum_from 0 (map (@length R) rs)).
  rewrite rows_reassemble_from by (simpl; lia).
  cbn [firstn app Nat.add].
  rewrite skipn_all2 by lia. apply app_nil_r.
Qed.

End SplitAndReassemble.

Lemma map_snd_fst_combine {X Y : Type} (f : X -> Y) (cs : list X)
    (ids : list nat) :
  map (fun ci : X * nat => (snd ci, f (fst ci))) (combine cs ids)
  = combine (firstn (length cs) ids) (map f (firstn (length ids) cs)).
Proof.
  revert ids. induction cs as [|c cs IH]; intros ids; [reflexivity|].
  destruct ids as [|i ids]; [reflexivity|].
  cbn [combine map length firstn fst snd]. now rewrite IH.
Qed.

Lemma concat_map_map {X Y : Type} (f : X -> Y) (ls : list (list X)) :
  concat (map (map f) ls) = map f (concat ls).
Proof.
  induction ls as [|l ls IH]; simpl; [reflexivity|].
  now rewrite IH, map_app.
Qed.

(** ** Loops that write one row per index *)

Lemma loop_invariant_upto {St : Type} (body : St -> nat -> St) (N : nat)
    (init : St) (P : nat -> St -> Prop) :
  P 0 init ->
  (forall k st, k < N -> P k st -> P (S k) (body st k)) ->
  P N (fold_left body (seq 0 N) init).
Proof.
  intros H0 Hstep.
  assert (H : forall n, n <= N -> P n (fold_left body (seq 0 n) init)).
  { induction n as [|n IH]; intros Hn; [exact H0|].
    rewrite seq_S, fold_left_app. cbn [fold_left Nat.add].
    apply Hstep; [lia|]. apply IH. lia. }
  apply H. lia.
Qed.

Section RowFacts.
Context {R : Type}.

Lemma nth_app_mid (A B : list R) (x d : R) (k : nat) :
  length A = k -> nth k (A ++ x :: B) d = x.
Proof. intros <-. apply nth_middle. Qed.

Lemma set_nth_app_mid (A B : list R) (x v : R) (k : nat) :
  length A = k -> set_nth k v (A ++ x :: B) = A ++ v :: B.
Proof.
  intros <-. induction A as [|a A IH]; [reflexivity|].
  cbn [length app set_nth]. now rewrite IH.
Qed.

Lemma firstn_S_nth (X : list R) (k : nat) (d : R) :
  k < length X -> firstn (S k) X = firstn k X ++ [nth k X d].
Proof.
  revert k. induction X as [|x X IH]; intros k Hk; [simpl in Hk; lia|].
  destruct k as [|k]; [reflexivity|].
  cbn [firstn nth app]. rewrite <- IH by (simpl in Hk; lia). reflexivity.
Qed.

Lemma repeat_tail (x : R) (N k : nat) :
  k < N -> repeat x (N - k) = x :: repeat x (N - S k).
Proof.
  intros H. replace (N - k) with (S (N - S k)) by lia. reflexivity.
Qed.

End RowFacts.

Lemma map_firstn_S {X Y : Type} (f : X -> Y) (l : list X) (k : nat) (d : X)
    (rest : list Y) :
  k < length l ->
  map f (firstn k l) ++ f (nth k l d) :: rest
  = map f (firstn (S k) l) ++ rest.
Proof.
  intros Hk. rewrite (firstn_S_nth l d Hk), map_app, <- app_assoc.
  reflexivity.
Qed.

Lemma length_map_firstn {X Y : Type} (f : X -> Y) (l : list X) (k : nat) :
  k <= length l -> length (map f (firstn k l)) = k.
Proof. intros H. rewrite length_map, length_firstn. lia. Qed.

(** ** The loop of [_peaks_from_sh_loop], voxel by voxel *)

Section PeaksLoop.
Context {T : Type} {A : Arith T} {N : Num T}.
Variable peak_directions :
  list T -> Sphere T -> T -> T -> bool -> list (list T) * list T * list Z.
Variables (B : list (list T)) (sphere : Sphere T) (rel thr sep : T)
          (npeaks : nat) (normalize sym : bool).

Let pv := peaks_voxel peak_directions B sphere rel thr sep npeaks normalize sym.

Lemma peaks_body_step (X : list (list T))
    (A1 B1 : list (list (list T))) (A2 B2 : list (list T))
    (A3 B3 : list (list Z)) (k : nat) :
  length A1 = k -> length A2 = k -> length A3 = k ->
  _peaks_from_sh_body peak_directions X B sphere rel thr sep npeaks normalize
    sym
    (A1 ++ zeros2 npeaks 3 :: B1, A2 ++ zeros npeaks :: B2,
     A3 ++ repeat (-1)%Z npeaks :: B3) k
  = (A1 ++ fst (fst (pv (nth k X []))) :: B1,
     A2 ++ snd (fst (pv (nth k X []))) :: B2,
     A3 ++ snd (pv (nth k X [])) :: B3).
Proof.
  intros H1 H2 H3. unfold _peaks_from_sh_body, pv, peaks_voxel.
  rewrite (nth_app_mid A1 B1 _ _ H1), (nth_app_mid A2 B2 _ _ H2),
    (nth_app_mid A3 B3 _ _ H3).
  destruct (any (nth k X [])); [|reflexivity].
  cbv zeta.
  destruct (peak_directions _ sphere rel sep sym) as [[dirs peaks] ind].
  destruct (negb (length peaks =? 0)); [|reflexivity].
  destruct normalize; cbn [fst snd];
    now rewrite (set_nth_app_mid A1 B1 _ _ H1), (set_nth_app_mid A2 B2 _ _ H2),
      (set_nth_app_mid A3 B3 _ _ H3).
Qed.

(** The loop computes each row from the coefficients of its voxel alone. *)
Lemma peaks_loop_voxelwise (X : list (list T)) :
  _peaks_from_sh_loop peak_directions X B sphere rel thr sep npeaks normalize
    sym
  = (map (fun c => fst (fst (pv c))) X,
     map (fun c => snd (fst (pv c))) X,
     map (fun c => snd (pv c)) X).
Proof.
  unfold _peaks_from_sh_loop.
  set (n := length X).
  pose (P := fun (k : nat) (st : peaks_arrays) =>
    st = (map (fun c => fst (fst (pv c))) (firstn k X)
            ++ repeat (zeros2 npeaks 3) (n - k),
          map (fun c => snd (fst (pv c))) (firstn k X)
            ++ repeat (zeros npeaks) (n - k),
          map (fun c => snd (pv c)) (firstn k X)
            ++ repeat (repeat (-1)%Z npeaks) (n - k))).
  assert (HP : P n (fold_left
                      (_peaks_from_sh_body peak_directions X B sphere rel thr
                         sep npeaks normalize sym)
                      (seq 0 n)
                      (repeat (zeros2 npeaks 3) n, zeros2 n npeaks,
                       repeat (repeat (-1)%Z npeaks) n))).
  { apply loop_invariant_upto.
    - unfold P. now rewrite Nat.sub_0_r.
    - intros k st Hk Hst. unfold P in Hst |- *. subst st.
      rewrite !(repeat_tail _ Hk).
      rewrite peaks_body_step by (apply length_map_firstn; unfold n in Hk; lia).
      f_equal; [f_equal|].
      + exact (map_firstn_S (fun c => fst (fst (pv c))) X [] _ Hk).
      + exact (map_firstn_S (fun c => snd (fst (pv c))) X [] _ Hk).
      + exact (map_firstn_S (fun c => snd (pv c)) X [] _ Hk). }
  unfold P in HP. rewrite HP, Nat.sub_diag. cbn [repeat]. unfold n.
  now rewrite !app_nil_r, firstn_all.
Qed.

Lemma peaks_loop_lengths (X : list (list T)) :
  let r := _peaks_from_sh_loop peak_directions X B sphere rel thr sep npeaks
             normalize sym in
  length (fst (fst r)) = length X
  /\ length (snd (fst r)) = length X
  /\ length (snd r) = length X.
Proof.
  cbv zeta. rewrite peaks_loop_voxelwise. cbn [fst snd].
  now rewrite !length_map.
Qed.

End PeaksLoop.

(** ** Results that do not depend on the worker count *)

Lemma map_snd_fst_combine_seq {X Y : Type} (f : X -> Y) (cs : list X)
    (k : nat) :
  map (fun ci : X * nat => (snd ci, f (fst ci))) (combine cs (seq k (length cs)))
  = combine (seq k (length cs)) (map f cs).
Proof.
  revert k. induction cs as [|c cs IH]; intros k; [reflexivity|].
  cbn [length seq combine map fst snd]. now rewrite IH.
Qed.

(** Chunks mapped row by row and reassembled give the map of the whole. *)
Lemma reassemble_map_chunks {X Y : Type} (f : X -> Y) (chunks : list (list X))
    (results : list (nat * list Y)) (tmp : list Y) :
  results = map (fun ci : list X * nat => (snd ci, map f (fst ci)))
                (combine chunks (seq 0 (length chunks))) ->
  length tmp = length (concat chunks) ->
  rows_reassemble (chunk_offsets chunks) results tmp = map f (concat chunks).
Proof.
  intros -> Hlen. rewrite map_snd_fst_combine_seq.
  unfold chunk_offsets.
  replace (map (@length X) chunks)
    with (map (@length Y) (map (map f) chunks))
    by (rewrite map_map; apply map_ext; intros c; apply length_map).
  replace (length chunks) with (length (map (map f) chunks))
    by apply length_map.
  rewrite rows_reassemble_concat.
  - apply concat_map_map.
  - now rewrite concat_map_map, length_map.
Qed.

Section PeaksWorkers.
Context {T : Type} {A : Arith T} {N : Num T}.
Variable cpu_count : Z.
Variable order_from_ncoef : nat -> bool -> Z.
Variable sh_to_sf_matrix :
  Sphere T -> Z -> basis -> bool -> bool -> list (list T) * list (list T).
Variable peak_directions :
  list T -> Sphere T -> T -> T -> bool -> list (list T) * list T * list Z.

Lemma peaks_reassemble_rows (chunk_len : list nat)
    (results : list (nat * @peaks_arrays T)) (tmp : @peaks_arrays T) :
  peaks_reassemble chunk_len results tmp
  = (rows_reassemble chunk_len
       (map (fun r : nat * @peaks_arrays T => (fst r, fst (fst (snd r)))) results)
       (fst (fst tmp)),
     rows_reassemble chunk_len
       (map (fun r : nat * @peaks_arrays T => (fst r, snd (fst (snd r)))) results)
       (snd (fst tmp)),
     rows_reassemble chunk_len
       (map (fun r : nat * @peaks_arrays T => (fst r, snd (snd r))) results)
       (snd tmp)).
Proof.
  unfold peaks_reassemble, rows_reassemble.
  revert tmp. induction results as [|[i [[d v] ix]] results IH]; intros tmp.
  - now destruct tmp as [[? ?] ?].
  - destruct tmp as [[td tv] ti]. cbn [fold_left map fst snd].
    now rewrite IH.
Qed.

(** X1.  For every worker count, [peaks_from_sh] returns the rows the loop
    computes voxel by voxel, scattered through the mask. *)
Theorem peaks_from_sh_any_worker_count (shm_coeff : list (list T))
    (sphere : Sphere T) (mask : option (list bool)) (rel thr sep : T)
    (normalize : bool) (npeaks : nat) (sh_basis_type : basis) (legacy : bool)
    (nbr_processes : option Z) (full sym : bool) :
  (1 <= cpu_count)%Z ->
  (forall m, mask = Some m -> length m = length shm_coeff) ->
  let m := match mask with None => default_mask shm_coeff | Some m => m end in
  let B := fst (sh_to_sf_matrix sphere
                  (order_from_ncoef (ncols shm_coeff) full) sh_basis_type full
                  legacy) in
  let pv := peaks_voxel peak_directions B sphere rel thr sep npeaks normalize
              sym in
  let X := mask_select m shm_coeff in
  peaks_from_sh cpu_count order_from_ncoef sh_to_sf_matrix peak_directions
    shm_coeff sphere mask rel thr sep normalize npeaks sh_basis_type legacy
    nbr_processes full sym
  = Ok (mask_assign m (map (fun c => fst (fst (pv c))) X)
          (repeat (zeros2 npeaks 3) (length shm_coeff)),
        mask_assign m (map (fun c => snd (fst (pv c))) X)
          (zeros2 (length shm_coeff) npeaks),
        mask_assign m (map (fun c => snd (pv c)) X)
          (repeat (repeat 0%Z npeaks) (length shm_coeff))).
Proof.
  intros Hcpu Hmask m B pv X. unfold peaks_from_sh.
  fold m. fold B. fold X.
  assert (Hm : length m = length shm_coeff).
  { unfold m. destruct mask as [m'|]; [now apply Hmask|].
    unfold default_mask. apply length_map. }
  assert (HX : length X = count_nonzero m)
    by (apply mask_select_length; exact Hm).
  set (n := resolve_le0 cpu_count nbr_processes).
  assert (Hn : (1 <= n)%Z) by (apply resolve_le0_pos; exact Hcpu).
  destruct (n =? 1)%Z.
  - cbn [bind]. rewrite peaks_loop_voxelwise. reflexivity.
  - destruct (array_split_ok X Hn) as [chunks Hc]. rewrite Hc. cbn [bind].
    destruct (concat_array_split X n Hc) as [Hcat _].
    rewrite peaks_reassemble_rows. cbn [fst snd]. rewrite !map_map.
    unfold _peaks_from_sh_parallel. cbn [fst snd].
    rewrite (reassemble_map_chunks (fun c => fst (fst (pv c))) chunks).
    rewrite (reassemble_map_chunks (fun c => snd (fst (pv c))) chunks).
    rewrite (reassemble_map_chunks (fun c => snd (pv c)) chunks).
    + now rewrite Hcat.
    + apply map_ext. intros ci. now rewrite peaks_loop_voxelwise.
    + rewrite Hcat, HX. apply repeat_length.
    + apply map_ext. intros ci. now rewrite peaks_loop_voxelwise.
    + rewrite Hcat, HX. unfold zeros2. apply repeat_length.
    + apply map_ext. intros ci. now rewrite peaks_loop_voxelwise.
    + rewrite Hcat, HX. apply repeat_length.
Qed.

End PeaksWorkers.

Lemma skipn_nth_cons {R : Type} (X : list R) (k : nat) (d : R) :
  k < length X -> skipn k X = nth k X d :: skipn (S k) X.
Proof.
  revert k. induction X as [|x X IH]; intros k Hk; [simpl in Hk; lia|].
  destruct k as [|k]; [reflexivity|].
  cbn [skipn nth]. apply IH. simpl in Hk. lia.
Qed.

Section ConvertLoops.
Context {T : Type} {A : Arith T} {N : Num T}.

(** The loop of [_convert_sh_basis_loop] rewrites each row from that row
    alone. *)
Lemma convert_sh_basis_loop_voxelwise (X B_in invB_out : list (list T)) :
  _convert_sh_basis_loop X B_in invB_out
  = map (convert_basis_voxel B_in invB_out) X.
Proof.
  unfold _convert_sh_basis_loop.
  set (n := length X). set (f := convert_basis_voxel B_in invB_out).
  pose (P := fun (k : nat) (st : list (list T)) =>
    st = map f (firstn k X) ++ skipn k X).
  assert (HP : P n (fold_left (_convert_sh_basis_body B_in invB_out)
                      (seq 0 n) X)).
  { apply loop_invariant_upto.
    - reflexivity.
    - intros k st Hk Hst. unfold P in Hst |- *. subst st.
      assert (Hlen : length (map f (firstn k X)) = k)
        by (apply length_map_firstn; unfold n in Hk; lia).
      rewrite (skipn_nth_cons X [] Hk).
      unfold _convert_sh_basis_body.
      rewrite (nth_app_mid _ _ _ _ Hlen).
      rewrite <- (map_firstn_S f X [] _ Hk).
      assert (Hf : f (nth k X [])
                   = if any (nth k X [])
                     then np_dot (np_dot (nth k X []) B_in) invB_out
                     else nth k X []) by reflexivity.
      rewrite Hf. clear Hf.
      destruct (any (nth k X [])); [|reflexivity].
      cbv zeta. now rewrite (set_nth_app_mid _ _ _ _ Hlen). }
  unfold P in HP. rewrite HP. unfold n.
  now rewrite firstn_all, skipn_all, app_nil_r.
Qed.

(** The loop of [_convert_sh_to_sf_loop] fills each row of [sf] from the
    coefficients of its voxel alone. *)
Lemma convert_sh_to_sf_loop_voxelwise (sh B_in : @ndarray T) (D : nat) :
  rows (_convert_sh_to_sf_loop sh D B_in)
  = map (sf_voxel (dtype_of sh) B_in D) (rows sh).
Proof.
  unfold _convert_sh_to_sf_loop. cbn [rows].
  set (X := rows sh). set (n := length X).
  set (f := sf_voxel (dtype_of sh) B_in D).
  pose (P := fun (k : nat) (st : list (list T)) =>
    st = map f (firstn k X) ++ repeat (zeros D) (n - k)).
  assert (HP : P n (fold_left (_convert_sh_to_sf_body sh B_in) (seq 0 n)
                      (zeros2 n D))).
  { apply loop_invariant_upto.
    - unfold P. now rewrite Nat.sub_0_r.
    - intros k st Hk Hst. unfold P in Hst |- *. subst st.
      assert (Hlen : length (map f (firstn k X)) = k)
        by (apply length_map_firstn; unfold n in Hk; lia).
      rewrite (repeat_tail _ Hk).
      unfold _convert_sh_to_sf_body. fold X.
      rewrite <- (map_firstn_S f X [] _ Hk).
      assert (Hf : f (nth k X [])
                   = if any (nth k X [])
                     then map (store (promote (dtype_of sh) (dtype_of B_in))
                                     Float32)
                              (np_dot_in (promote (dtype_of sh) (dtype_of B_in))
                                         (nth k X []) (rows B_in))
                     else zeros D) by reflexivity.
      rewrite Hf. clear Hf.
      destruct (any (nth k X [])); [|reflexivity].
      now rewrite (set_nth_app_mid _ _ _ _ Hlen). }
  unfold P in HP. rewrite HP, Nat.sub_diag. cbn [repeat]. unfold n.
  now rewrite app_nil_r, firstn_all.
Qed.

Lemma store_from_float32 (d : dtype) (l : list (list T)) :
  map (map (store Float32 d)) l = l.
Proof.
  rewrite <- (map_id l) at 2. apply map_ext. intros r.
  rewrite <- (map_id r) at 2. apply map_ext. intros x. now destruct d.
Qed.

Lemma store_same_dtype (d : dtype) (l : list (list T)) :
  map (map (store d d)) l = l.
Proof.
  rewrite <- (map_id l) at 2. apply map_ext. intros r.
  rewrite <- (map_id r) at 2. apply map_ext. intros x. now destruct d.
Qed.

End ConvertLoops.

Section ConvertWorkers.
Context {T : Type} {A : Arith T} {N : Num T}.
Variable cpu_count : Z.
Variable order_from_ncoef : nat -> bool -> Z.
Variable sh_to_sf_matrix :
  Sphere T -> Z -> basis -> bool -> bool -> list (list T) * list (list T).

(** X2.  Between two different bases, and for every worker count but 0,
    [convert_sh_basis] returns the rows the loop computes voxel by voxel,
    scattered through the mask. *)
Theorem convert_sh_basis_any_worker_count (shm_coeff : list (list T))
    (sphere : Sphere T) (mask : option (list bool))
    (input_basis output_basis : basis)
    (is_input_legacy is_output_legacy : bool) (nbr_processes : option Z) :
  (1 <= cpu_count)%Z ->
  nbr_processes <> Some 0%Z ->
  (forall m, mask = Some m -> length m = length shm_coeff) ->
  basis_eqb input_basis output_basis
    && Bool.eqb is_input_legacy is_output_legacy = false ->
  let m := match mask with None => default_mask shm_coeff | Some m => m end in
  let sh_order := order_from_ncoef (ncols shm_coeff) false in
  let B_in :=
    fst (sh_to_sf_matrix sphere sh_order input_basis false is_input_legacy) in
  let invB_out :=
    snd (sh_to_sf_matrix sphere sh_order output_basis false
           is_output_legacy) in
  convert_sh_basis cpu_count order_from_ncoef sh_to_sf_matrix shm_coeff sphere
    mask input_basis output_basis is_input_legacy is_output_legacy
    nbr_processes
  = Ok (mask_assign m
          (map (convert_basis_voxel B_in invB_out) (mask_select m shm_coeff))
          (zeros2 (length shm_coeff) (ncols shm_coeff))).
Proof.
  intros Hcpu Hnz Hmask Hb m sh_order B_in invB_out. unfold convert_sh_basis.
  rewrite Hb. fold m. fold sh_order. fold B_in. fold invB_out.
  cbn [fst snd].
  set (X := mask_select m shm_coeff).
  assert (Hm : length m = length shm_coeff).
  { unfold m. destruct mask as [m'|]; [now apply Hmask|].
    unfold default_mask. apply length_map. }
  assert (HX : length X = count_nonzero m)
    by (apply mask_select_length; exact Hm).
  set (n := resolve_lt0 cpu_count nbr_processes).
  assert (Hn : (1 <= n)%Z) by (now apply resolve_lt0_pos).
  destruct (n =? 1)%Z.
  - cbn [bind]. now rewrite convert_sh_basis_loop_voxelwise.
  - destruct (array_split_ok X Hn) as [chunks Hc]. rewrite Hc. cbn [bind].
    destruct (concat_array_split X n Hc) as [Hcat _].
    rewrite (reassemble_map_chunks (convert_basis_voxel B_in invB_out) chunks).
    + now rewrite Hcat.
    + apply map_ext. intros ci. unfold _convert_sh_basis_parallel.
      now rewrite convert_sh_basis_loop_voxelwise.
    + rewrite Hcat, HX. unfold zeros2. apply repeat_length.
Qed.

(** X3.  For every worker count from 1 on, [convert_sh_to_sf] returns the
    rows the loop computes voxel by voxel, scattered through the mask. *)
Theorem convert_sh_to_sf_any_worker_count (shm_coeff : @ndarray T)
    (sphere : Sphere T) (mask : option (list bool)) (dtype : dtype)
    (input_basis : basis) (input_full_basis is_input_legacy : bool) (n : Z) :
  (1 <= n)%Z ->
  (forall m, mask = Some m -> length m = length (rows shm_coeff)) ->
  let m := match mask with
           | None => default_mask (rows shm_coeff)
           | Some m => m
           end in
  let sh_order := order_from_ncoef (ncols (rows shm_coeff)) input_full_basis in
  let B_in :=
    astype dtype
      {| dtype_of := Float64;
         rows := fst (sh_to_sf_matrix sphere sh_order input_basis
                        input_full_basis is_input_legacy) |} in
  let D := length (vertices sphere) in
  convert_sh_to_sf order_from_ncoef sh_to_sf_matrix shm_coeff sphere mask dtype
    input_basis input_full_basis is_input_legacy (Some n)
  = Ok {| dtype_of := dtype;
          rows := mask_assign m
                    (map (sf_voxel (dtype_of shm_coeff) B_in D)
                         (mask_select m (rows shm_coeff)))
                    (zeros2 (length (rows shm_coeff)) D) |}.
Proof.
  intros Hn Hmask m sh_order B_in D. unfold convert_sh_to_sf.
  fold m. fold sh_order. fold B_in. fold D.
  set (X := mask_select m (rows shm_coeff)).
  assert (Hm : length m = length (rows shm_coeff)).
  { unfold m. destruct mask as [m'|]; [now apply Hmask|].
    unfold default_mask. apply length_map. }
  assert (HX : length X = count_nonzero m)
    by (apply mask_select_length; exact Hm).
  unfold is_one, array_split_py.
  destruct (n =? 1)%Z.
  - cbn [bind]. unfold astype at 1. cbn [dtype_of rows].
    change (dtype_of (_convert_sh_to_sf_loop _ D B_in)) with Float32.
    now rewrite store_from_float32, convert_sh_to_sf_loop_voxelwise.
  - cbn [rows]. destruct (array_split_ok X Hn) as [chunks Hc]. rewrite Hc.
    cbn [bind]. destruct (concat_array_split X n Hc) as [Hcat _].
    unfold astype at 1. cbn [dtype_of rows]. rewrite store_same_dtype.
    rewrite map_map.
    rewrite (reassemble_map_chunks (sf_voxel (dtype_of shm_coeff) B_in D)
               chunks).
    + now rewrite Hcat.
    + apply map_ext. intros ci. unfold _convert_sh_to_sf_parallel.
      cbn [fst snd]. unfold astype. cbn [rows].
      change (dtype_of (_convert_sh_to_sf_loop _ D B_in)) with Float32.
      now rewrite store_from_float32, convert_sh_to_sf_loop_voxelwise.
    + rewrite Hcat, HX. unfold zeros2. apply repeat_length.
Qed.

End ConvertWorkers.

(** Three voxels, the second one empty, on two workers and on one. *)
Lemma peaks_from_sh_any_worker_count_witness :
  Run.peaks_run [[1]; [0]; [2]]%float None (Some 2%Z)
  = Run.peaks_run [[1]; [0]; [2]]%float None (Some 1%Z).
Proof.
  assert (Hcpu : (1 <= 8)%Z) by lia.
  assert (Hmask : forall m : list bool,
            @None (list bool) = Some m
            -> length m = length [[1]; [0]; [2]]%float) by discriminate.
  exact (eq_trans
           (@peaks_from_sh_any_worker_count float _ _ 8%Z dipy_order_from_ncoef
              Run.sh_to_sf_matrix0 Run.peak_directions_argmax
              [[1]; [0]; [2]]%float Run.sphere2 None 0.5%float 0%float
              25%float false 5 descoteaux07 true (Some 2%Z) false true
              Hcpu Hmask)
           (eq_sym
              (@peaks_from_sh_any_worker_count float _ _ 8%Z
                 dipy_order_from_ncoef Run.sh_to_sf_matrix0
                 Run.peak_directions_argmax [[1]; [0]; [2]]%float Run.sphere2
                 None 0.5%float 0%float 25%float false 5 descoteaux07 true
                 (Some 1%Z) false true Hcpu Hmask))).
Defined.

Lemma convert_sh_basis_any_worker_count_witness :
  convert_sh_basis 8%Z dipy_order_from_ncoef Run.sh_to_sf_matrix0
    [[1]; [0]; [2]]%float Run.sphere2 None descoteaux07 tournier07 true true
    (Some 2%Z)
  = convert_sh_basis 8%Z dipy_order_from_ncoef Run.sh_to_sf_matrix0
      [[1]; [0]; [2]]%float Run.sphere2 None descoteaux07 tournier07 true true
      None.
Proof.
  assert (Hcpu : (1 <= 8)%Z) by lia.
  assert (Hmask : forall m : list bool,
            @None (list bool) = Some m
            -> length m = length [[1]; [0]; [2]]%float) by discriminate.
  assert (H2 : Some 2%Z <> Some 0%Z) by discriminate.
  assert (H0 : @None Z <> Some 0%Z) by discriminate.
  exact (eq_trans
           (@convert_sh_basis_any_worker_count float _ _ 8%Z
              dipy_order_from_ncoef Run.sh_to_sf_matrix0 [[1]; [0]; [2]]%float
              Run.sphere2 None descoteaux07 tournier07 true true (Some 2%Z)
              Hcpu H2 Hmask eq_refl)
           (eq_sym
              (@convert_sh_basis_any_worker_count float _ _ 8%Z
                 dipy_order_from_ncoef Run.sh_to_sf_matrix0
                 [[1]; [0]; [2]]%float Run.sphere2 None descoteaux07
                 tournier07 true true None Hcpu H0 Hmask eq_refl))).
Defined.

Lemma convert_sh_to_sf_any_worker_count_witness :
  Run.sf_run [[1]; [0]; [2]]%float Float64 (Some 2%Z)
  = Run.sf_run [[1]; [0]; [2]]%float Float64 (Some 1%Z).
Proof.
  assert (H2 : (1 <= 2)%Z) by lia.
  assert (H1 : (1 <= 1)%Z) by lia.
  assert (Hmask : forall m : list bool,
            @None (list bool) = Some m
            -> length m = length [[1]; [0]; [2]]%float) by discriminate.
  exact (eq_trans
           (@convert_sh_to_sf_any_worker_count float _ _ dipy_order_from_ncoef
              Run.sh_to_sf_matrix0
              {| dtype_of := Float64; rows := [[1]; [0]; [2]]%float |}
              Run.sphere2 None Float64 descoteaux07 false true 2%Z H2 Hmask)
           (eq_sym
              (@convert_sh_to_sf_any_worker_count float _ _
                 dipy_order_from_ncoef Run.sh_to_sf_matrix0
                 {| dtype_of := Float64; rows := [[1]; [0]; [2]]%float |}
                 Run.sphere2 None Float64 descoteaux07 false true 1%Z H1
                 Hmask))).
Defined.

(** ** Which worker counts [convert_sh_to_sf] accepts *)


(** ** The recommended number of volumes *)

Lemma consecutive_product_even (o : nat) :
  exists m, (o + 1) * (o + 2) = 2 * m.
Proof.
  induction o as [|o [m Hm]]; [exists 1; reflexivity|].
  exists (m + o + 2). lia.
Qed.

(** X5.  [verify_data_vs_sh_order] logs its warning exactly when the data
    has fewer volumes than a symmetric basis of order [sh_order] has
    coefficients, and it logs nothing otherwise; for an even order that
    number is the length of dipy's list of harmonic indices. *)
Theorem verify_data_vs_sh_order_warns_below_ncoef :
  forall (nb_volumes o : nat),
    (verify_data_vs_sh_order nb_volumes (Z.of_nat o) = []
     <-> ncoef_of o false <= nb_volumes)
    /\ ((exists w, verify_data_vs_sh_order nb_volumes (Z.of_nat o) = [w])
        <-> nb_volumes < ncoef_of o false)
    /\ (Nat.even o = true ->
        exists ids,
          dipy_sph_harm_ind_list (Z.of_nat o) false = Ok ids
          /\ (verify_data_vs_sh_order nb_volumes (Z.of_nat o) = []
              <-> length (snd ids) <= nb_volumes)).
Proof.
  intros nb_volumes o.
  destruct (consecutive_product_even o) as [m Hm].
  assert (Hn : ncoef_of o false = m).
  { unfold ncoef_of. rewrite Hm. rewrite Nat.mul_comm. apply Nat.div_mul. lia. }
  assert (Hb : QArith_base.Qle_bool
                 (QArith_base.Qmake ((Z.of_nat o + 1) * (Z.of_nat o + 2)) 2)
                 (QArith_base.inject_Z (Z.of_nat nb_volumes))
               = (m <=? nb_volumes)).
  { unfold QArith_base.Qle_bool, QArith_base.inject_Z.
    cbn [QArith_base.Qnum QArith_base.Qden].
    replace ((Z.of_nat o + 1) * (Z.of_nat o + 2))%Z
      with (Z.of_nat ((o + 1) * (o + 2))) by lia.
    rewrite Hm.
    destruct (m <=? nb_volumes) eqn:E.
    - apply Nat.leb_le in E. apply Z.leb_le. lia.
    - apply Nat.leb_gt in E. apply Z.leb_gt. lia. }
  assert (H0 : verify_data_vs_sh_order nb_volumes (Z.of_nat o) = []
               <-> m <= nb_volumes).
  { unfold verify_data_vs_sh_order. rewrite Hb.
    destruct (m <=? nb_volumes) eqn:E; cbn [negb].
    - apply Nat.leb_le in E. split; [intros _; exact E | reflexivity].
    - apply Nat.leb_gt in E. split; [discriminate | lia]. }
  split; [|split].
  - rewrite Hn. exact H0.
  - unfold verify_data_vs_sh_order. rewrite Hb, Hn.
    destruct (m <=? nb_volumes) eqn:E; cbn [negb].
    + apply Nat.leb_le in E. split; [intros [w Hw]; discriminate | lia].
    + apply Nat.leb_gt in E. split; [intros _; exact E|].
      intros _. eexists. reflexivity.
  - intros He.
    destruct (@dipy_sph_harm_ind_list_valid o false (fun _ => He))
      as [degree_ids Hids].
    eexists. split; [exact Hids|]. cbn [snd].
    rewrite (@length_order_ids o false (fun _ => He)), Hn. exact H0.
Qed.

(** ** scil_resample_tractogram.py: when the tractogram is resampled *)

(** In binary64 a number equal to zero is at most zero. *)
Lemma float64_eqb_leb (x y : float) :
  PrimFloat.eqb x y = true -> PrimFloat.leb x y = true.
Proof.
  rewrite FloatAxioms.eqb_spec, FloatAxioms.leb_spec. unfold SFeqb, SFleb.
  destruct (SFcompare (Prim2SF x) (Prim2SF y)) as [[| |]|];
    intros H; try discriminate; reflexivity.
Qed.

Section ResampleFacts.
Context {T : Type} {A : Arith T} {N : Num T}.
Variable Sft : Type.
Variable nb_streamlines_of : Sft -> Z.
Variable assert_inputs_exist : string -> option string.
Variable assert_outputs_exist : string -> bool -> option string.
Variable load_tractogram_with_reference : string -> Sft.
Variable upsample_tractogram :
  Sft -> Z -> option T -> option T -> option Z -> option (Z * Z) -> option Z
  -> Sft.
Variable get_subset_streamlines : Sft -> Z -> option Z -> Sft.
Variable remove_invalid_streamlines : Sft -> Sft.

Let main := resample_main nb_streamlines_of assert_inputs_exist
              assert_outputs_exist load_tractogram_with_reference
              upsample_tractogram get_subset_streamlines
              remove_invalid_streamlines.

(** X6.  With [--never_upsample], [upsample_tractogram] is never called;
    and when the run saves a tractogram for which at least as many
    streamlines were requested as it has, it saves the loaded tractogram,
    with its invalid streamlines removed unless they are kept. *)
Theorem resample_never_upsample (args : resample_args) :
  never_upsample args = true ->
  let loaded := load_tractogram_with_reference (in_tractogram args) in
  (forall nb, ~ In (CallUpsample nb) (fst (main args)))
  /\ (forall sft,
        snd (main args) = Saved sft ->
        (nb_streamlines_of loaded <= nb_streamlines args)%Z ->
        sft = if keep_invalid_streamlines args then loaded
              else remove_invalid_streamlines loaded).
Proof.
  intros Hnever loaded. unfold main, resample_main. rewrite Hnever.
  fold loaded. cbn [andb].
  destruct (given_and_le0 (point_wise_std args)
            || given_and_le0 (streamline_wise_std args));
    [split; [intros nb []|intros sft H; discriminate]|].
  destruct (assert_inputs_exist (in_tractogram args));
    [split; [intros nb []|intros sft H; discriminate]|].
  destruct (assert_outputs_exist (out_tractogram args) (overwrite args));
    [split; [intros nb []|intros sft H; discriminate]|].
  assert (Hno : forall (nb : Z) (l : list resample_call),
            Forall (fun c => match c with CallUpsample _ => False | _ => True end)
                   l ->
            ~ In (CallUpsample nb) l).
  { intros nb l Hl Hin. rewrite Forall_forall in Hl. exact (Hl _ Hin). }
  destruct (nb_streamlines_of loaded <? nb_streamlines args)%Z eqn:Eup.
  - cbv beta iota. rewrite Z.ltb_irrefl.
    destruct (keep_invalid_streamlines args).
    + split; [|intros sft H _; simpl in H; now injection H as <-].
      intros nb. apply Hno. simpl. repeat constructor.
    + split; [|intros sft H _; simpl in H; now injection H as <-].
      intros nb. apply Hno. simpl. repeat constructor.
  - cbv beta iota. rewrite Eup. apply Z.ltb_ge in Eup.
    destruct (nb_streamlines args <? nb_streamlines_of loaded)%Z eqn:Edown.
    + apply Z.ltb_lt in Edown.
      destruct (keep_invalid_streamlines args).
      * split; [|intros sft _ Hle; lia].
        intros nb. apply Hno. simpl. repeat constructor.
      * split; [|intros sft _ Hle; lia].
        intros nb. apply Hno. simpl. repeat constructor.
    + destruct (keep_invalid_streamlines args).
      * split; [|intros sft H _; simpl in H; now injection H as <-].
        intros nb. apply Hno. simpl. repeat constructor.
      * split; [|intros sft H _; simpl in H; now injection H as <-].
        intros nb. apply Hno. simpl. repeat constructor.
Qed.

(** X7.  Once the standard deviations have passed the first test (in an
    arithmetic where a number equal to zero is at most zero, as in
    binary64), a request for more streamlines than the tractogram has, made
    without [--never_upsample], ends in the error about the missing
    argument exactly when neither standard deviation is given, after the
    tractogram was loaded and before anything is saved; otherwise the
    tractogram is upsampled to the requested number and saved. *)
Theorem resample_upsample_needs_std (args : resample_args) :
  (forall v : T, eqb v zero = true -> leb v zero = true) ->
  given_and_le0 (point_wise_std args)
  || given_and_le0 (streamline_wise_std args) = false ->
  assert_inputs_exist (in_tractogram args) = None ->
  assert_outputs_exist (out_tractogram args) (overwrite args) = None ->
  never_upsample args = false ->
  let loaded := load_tractogram_with_reference (in_tractogram args) in
  (nb_streamlines_of loaded < nb_streamlines args)%Z ->
  let upsampled :=
    upsample_tractogram loaded (nb_streamlines args) (point_wise_std args)
      (streamline_wise_std args) (gaussian args) (spline args) (seed args) in
  (point_wise_std args = None /\ streamline_wise_std args = None ->
   main args
   = ([CallLoad (in_tractogram args)],
      ParserError Sft
        "one of the arguments --point_wise_std --streamline_wise_std is required"%string))
  /\ (point_wise_std args <> None \/ streamline_wise_std args <> None ->
      main args
      = ([CallLoad (in_tractogram args); CallUpsample (nb_streamlines args)]
         ++ (if keep_invalid_streamlines args then [] else [CallRemoveInvalid])
         ++ [CallSave (out_tractogram args)
               (negb (keep_invalid_streamlines args))],
         Saved (if keep_invalid_streamlines args then upsampled
                else remove_invalid_streamlines upsampled))).
Proof.
  intros Hle Hstd Hin Hout Hnever loaded Hup upsampled.
  unfold main, resample_main. rewrite Hstd, Hin, Hout, Hnever.
  fold loaded. cbn [andb].
  apply Z.ltb_lt in Hup. rewrite Hup.
  apply orb_false_iff in Hstd. destruct Hstd as [Hp Hs].
  assert (Hnot : forall x : option T,
            given_and_le0 x = false -> py_not x = true -> x = None).
  { intros [v|] Hg Hn; [|reflexivity]. cbn in Hg, Hn.
    rewrite (Hle v Hn) in Hg. discriminate. }
  split.
  - intros [-> ->]. reflexivity.
  - intros Hgiven.
    destruct (py_not (point_wise_std args)) eqn:E1;
      destruct (py_not (streamline_wise_std args)) eqn:E2; cbn [andb].
    + exfalso. destruct Hgiven as [H|H]; apply H; now apply Hnot.
    + fold upsampled. now destruct (keep_invalid_streamlines args).
    + fold upsampled. now destruct (keep_invalid_streamlines args).
    + fold upsampled. now destruct (keep_invalid_streamlines args).
Qed.

End ResampleFacts.

(** ** scilpy.dwi.utils: the loop of [rescale_dwi] *)

Section RescaleLoop.
Context {R : Type}.
Variable F : R -> R.

Lemma skipn_min_length (k : nat) (l : list R) :
  skipn (Nat.min k (length l)) l = skipn k l.
Proof.
  destruct (Nat.le_ge_cases k (length l)) as [H|H].
  - now rewrite Nat.min_l.
  - rewrite Nat.min_r by exact H. now rewrite !skipn_all2.
Qed.

(** One pass of the loop: the rows from [lo] to [hi] are rewritten, those
    before [lo] already are. *)
Lemma rescale_step (bc : list R) (lo hi : nat) :
  lo <= hi ->
  assign_slice lo hi
    (map F (slice lo hi (map F (firstn lo bc) ++ skipn lo bc)))
    (map F (firstn lo bc) ++ skipn lo bc)
  = map F (firstn hi bc) ++ skipn hi bc.
Proof.
  revert lo hi. induction bc as [|x r IH]; intros lo hi Hle.
  - unfold assign_slice, slice.
    now rewrite !firstn_nil, !skipn_nil, !firstn_nil.
  - destruct lo as [|lo].
    + unfold assign_slice, slice. cbn [firstn skipn map app Nat.add].
      rewrite Nat.sub_0_r, firstn_map, firstn_firstn, Nat.min_id.
      rewrite length_map, length_firstn, skipn_min_length. reflexivity.
    + destruct hi as [|hi]; [lia|].
      specialize (IH lo hi ltac:(lia)).
      unfold assign_slice, slice in IH |- *.
      cbn [firstn skipn map app Nat.add Nat.sub]. f_equal. exact IH.
Qed.

End RescaleLoop.

Lemma arange_bounds (n step : nat) :
  0 < step ->
  let m := (n + (step - 1)) / step in
  (forall i, i < m -> i * step < n) /\ n <= m * step.
Proof.
  intros Hs m.
  pose proof (Nat.div_mod_eq (n + (step - 1)) step) as E. fold m in E.
  pose proof (Nat.mod_upper_bound (n + (step - 1)) step ltac:(lia)) as Hr.
  split.
  - intros i Hi. nia.
  - nia.
Qed.

Lemma nth_arange_chunk (n step i : nat) :
  0 < step ->
  i <= (n + (step - 1)) / step ->
  nth i (arange n step ++ [n]) 0 = Nat.min (i * step) n.
Proof.
  intros Hs Hi. destruct (arange_bounds n Hs) as [Hlt Hge].
  unfold arange.
  destruct (Nat.eq_dec i ((n + (step - 1)) / step)) as [->|Hne].
  - rewrite app_nth2 by (rewrite length_map, length_seq; lia).
    rewrite length_map, length_seq, Nat.sub_diag. cbn [nth]. lia.
  - assert (Hi' : i < (n + (step - 1)) / step) by lia.
    rewrite app_nth1 by (rewrite length_map, length_seq; exact Hi').
    rewrite (nth_map_lt (fun k => k * step) (seq 0 ((n + (step - 1)) / step))
               0 0) by (rewrite length_seq; exact Hi').
    rewrite seq_nth by exact Hi'. specialize (Hlt i Hi'). cbn [Nat.add]. lia.
Qed.

Section RescaleFacts.
Context {T : Type} {A : Arith T} {N : Num T}.

(** The loop rescales the first [len_in] slabs of [bc_data], whatever the
    size of its passes. *)
Lemma rescale_loop_rows (step len_in : nat) (slope in_max bc_max : T)
    (bc_data : list (list T)) :
  0 < step ->
  rescale_loop step len_in slope in_max bc_max bc_data
  = rescale_func (firstn len_in bc_data) slope in_max bc_max
    ++ skipn len_in bc_data.
Proof.
  intros Hs. unfold rescale_loop.
  set (chunk := arange len_in step ++ [len_in]).
  set (m := (len_in + (step - 1)) / step).
  set (F := map (fun val : T =>
                   to_float32 (_rescale_intensity val slope in_max bc_max))).
  assert (Hlen : length chunk - 1 = m).
  { unfold chunk, arange. rewrite length_app, length_map, length_seq.
    cbn [length]. fold m. lia. }
  rewrite Hlen.
  pose (P := fun (i : nat) (st : list (list T)) =>
    st = map F (firstn (Nat.min (i * step) len_in) bc_data)
         ++ skipn (Nat.min (i * step) len_in) bc_data).
  assert (HP : P m (fold_left
                      (fun (bc : list (list T)) (i : nat) =>
                         assign_slice (nth i chunk 0) (nth (i + 1) chunk 0)
                           (rescale_func
                              (slice (nth i chunk 0) (nth (i + 1) chunk 0) bc)
                              slope in_max bc_max) bc)
                      (seq 0 m) bc_data)).
  { apply loop_invariant_upto.
    - unfold P. cbn [Nat.mul Nat.min firstn skipn map app]. reflexivity.
    - intros i st Hi Hst. unfold P in Hst |- *. subst st.
      unfold chunk. rewrite !nth_arange_chunk by (fold m; lia).
      replace (S i) with (i + 1) by lia.
      unfold rescale_func. fold F.
      apply rescale_step. nia. }
  unfold P in HP. rewrite HP.
  destruct (arange_bounds len_in Hs) as [_ Hge]. fold m in Hge.
  rewrite Nat.min_r by exact Hge. reflexivity.
Qed.

Lemma np_amin_ok (a : list (list T)) :
  concat a <> [] -> np_amin a = Ok (arr_min (concat a)).
Proof. unfold np_amin. destruct (concat a); [congruence|reflexivity]. Qed.

Lemma np_amax_ok (a : list (list T)) :
  concat a <> [] -> np_amax a = Ok (arr_max (concat a)).
Proof. unfold np_amax. destruct (concat a); [congruence|reflexivity]. Qed.

Lemma chunk_rows_pos : 0 < chunk_rows.
Proof. unfold chunk_rows. lia. Qed.

(** X8.  On two arrays with at least one element each, [rescale_dwi]
    rewrites the first [len(in_data)] slabs of [bc_data], element by
    element, with [in_max - slope * (bc_max - val)] stored as float32, where
    the slope and the maxima are those of the arrays as they were given;
    the slabs of [bc_data] past [len(in_data)] are returned as they were.
    The passes of 100000 slabs do not show in the result. *)
Theorem rescale_dwi_rescales_first_slabs (in_data bc_data : list (list T)) :
  concat in_data <> [] ->
  concat bc_data <> [] ->
  let in_min := arr_min (concat in_data) in
  let in_max := arr_max (concat in_data) in
  let bc_min := arr_min (concat bc_data) in
  let bc_max := arr_max (concat bc_data) in
  let slope := div (sub in_max in_min) (sub bc_max bc_min) in
  let f := fun val => to_float32 (sub in_max (mul slope (sub bc_max val))) in
  rescale_dwi in_data bc_data
  = Ok (map (map f) (firstn (length in_data) bc_data)
        ++ skipn (length in_data) bc_data)
  /\ (length in_data = length bc_data ->
      rescale_dwi in_data bc_data = Ok (map (map f) bc_data)).
Proof.
  intros Hin Hbc in_min in_max bc_min bc_max slope f.
  assert (E : rescale_dwi in_data bc_data
              = Ok (map (map f) (firstn (length in_data) bc_data)
                    ++ skipn (length in_data) bc_data)).
  { unfold rescale_dwi.
    rewrite (np_amin_ok in_data Hin), (np_amax_ok in_data Hin),
      (np_amin_ok bc_data Hbc), (np_amax_ok bc_data Hbc).
    cbn [bind].
    rewrite (@rescale_loop_rows chunk_rows (length in_data) _ _ _ bc_data
               chunk_rows_pos).
    reflexivity. }
  split; [exact E|].
  intros Hlen. rewrite E, Hlen, firstn_all, skipn_all, app_nil_r. reflexivity.
Qed.

(** X9.  [rescale_dwi] returns exactly when both arrays have an element;
    otherwise it raises the [ValueError] of [np.amin] on an empty array,
    before [bc_data] is touched. *)
Theorem rescale_dwi_raises_iff_empty :
  forall (in_data bc_data : list (list T)),
    ((exists out, rescale_dwi in_data bc_data = Ok out)
     <-> concat in_data <> [] /\ concat bc_data <> [])
    /\ (rescale_dwi in_data bc_data
        = Raise (ValueError "zero-size array to reduction operation minimum which has no identity")
        <-> concat in_data = [] \/ concat bc_data = []).
Proof.
  intros in_data bc_data. unfold rescale_dwi, np_amin, np_amax.
  destruct (concat in_data) as [|x r]; cbn [bind].
  - split; split.
    + intros [out H]. discriminate.
    + intros [H _]. congruence.
    + intros _. now left.
    + reflexivity.
  - destruct (concat bc_data) as [|y s]; cbn [bind].
    + split; split.
      * intros [out H]. discriminate.
      * intros [_ H]. congruence.
      * intros _. now right.
      * reflexivity.
    + split; split.
      * intros _. split; discriminate.
      * intros _. eexists. reflexivity.
      * discriminate.
      * intros [H|H]; discriminate.
Qed.

End RescaleFacts.

(** ** Rows filled one index at a time *)

Section FillRows.
Context {X Y : Type}.
Variables (f : X -> Y) (z : Y) (l : list X) (d : X).

Lemma fill_next_set (k : nat) :
  k < length l ->
  set_nth k (f (nth k l d))
          (map f (firstn k l) ++ repeat z (length l - k))
  = map f (firstn (S k) l) ++ repeat z (length l - S k).
Proof.
  intros Hk. rewrite (repeat_tail z Hk).
  rewrite set_nth_app_mid by (apply length_map_firstn; lia).
  apply map_firstn_S. exact Hk.
Qed.

Lemma fill_next_keep (k : nat) :
  k < length l ->
  f (nth k l d) = z ->
  map f (firstn k l) ++ repeat z (length l - k)
  = map f (firstn (S k) l) ++ repeat z (length l - S k).
Proof.
  intros Hk Hz. rewrite (repeat_tail z Hk), <- Hz.
  apply map_firstn_S. exact Hk.
Qed.

Lemma fill_length (k : nat) :
  k <= length l ->
  length (map f (firstn k l) ++ repeat z (length l - k)) = length l.
Proof.
  intros Hk. rewrite length_app, length_map, length_firstn, repeat_length. lia.
Qed.

End FillRows.

(** ** The loop of [_maps_from_sh_loop], voxel by voxel *)

Section MapsLoop.
Context {T : Type} {A : Arith T} {N : Num T}.
Variable gfa : list T -> T.
Variables (B : list (list T)) (sphere : Sphere T) (gfa_thr : T).

Local Notation "'mv'" := (maps_voxel gfa B sphere gfa_thr).

Lemma maps_body_step (Tr : list (list T * list T * list Z)) (k : nat)
    (st : maps_state) :
  k < length Tr ->
  maps_filled gfa B sphere gfa_thr Tr k st ->
  maps_filled gfa B sphere gfa_thr Tr (S k)
    (_maps_from_sh_body gfa (map (fun v => fst (fst v)) Tr)
       (map (fun v => snd (fst v)) Tr) (map snd Tr) B sphere gfa_thr st k).
Proof.
  intros Hk (Hn & Hm & Hs & Hg & Hr).
  set (d := (@nil T, @nil T, @nil Z)).
  unfold _maps_from_sh_body.
  rewrite (nth_map_lt (fun v => fst (fst v)) Tr [] d Hk).
  rewrite (nth_map_lt (fun v => snd (fst v)) Tr [] d Hk).
  rewrite (nth_map_lt snd Tr [] d Hk).
  assert (Hlen : k < length (gfa_map st))
    by (rewrite Hg, fill_length; lia).
  assert (Hv : forall r, r = mv (nth k Tr d) -> mv (nth k Tr d) = r)
    by (intros r ->; reflexivity).
  specialize (Hv _ eq_refl). unfold maps_voxel in Hv at 2.
  destruct (any (fst (fst (nth k Tr d)))).
  - cbv zeta in Hv |- *.
    rewrite (@nth_set_nth_same T k _ zero (gfa_map st) Hlen).
    set (odf := clip_min zero (np_dot (fst (fst (nth k Tr d))) B)) in *.
    assert (Hrgb :
      (if ltb zero (np_sum odf)
       then set_nth k
              (map (fun x => mul x (np_sum odf))
                   (map (fun x => div x (norm (abs_vertices_dot sphere odf)))
                        (abs_vertices_dot sphere odf)))
              (rgb_map st)
       else rgb_map st)
      = map (fun v => rgb_of (mv v)) (firstn (S k) Tr)
        ++ repeat (zeros 3) (length Tr - S k)).
    { rewrite Hr.
      destruct (ltb zero (np_sum odf)).
      - rewrite <- (@fill_next_set _ _ (fun v => rgb_of (mv v)) (zeros 3) Tr d k Hk).
        f_equal.
        destruct (ltb (gfa odf) gfa_thr); [now rewrite Hv|].
        destruct (negb _); now rewrite Hv.
      - apply (@fill_next_keep _ _ (fun v => rgb_of (mv v)) (zeros 3) Tr d k Hk).
        destruct (ltb (gfa odf) gfa_thr); [now rewrite Hv|].
        destruct (negb _); now rewrite Hv. }
    assert (Hgfa :
      set_nth k (gfa odf) (gfa_map st)
      = map (fun v => gfa_of (mv v)) (firstn (S k) Tr)
        ++ repeat zero (length Tr - S k)).
    { rewrite Hg.
      rewrite <- (@fill_next_set _ _ (fun v => gfa_of (mv v)) zero Tr d k Hk).
      f_equal.
      destruct (ltb (gfa odf) gfa_thr); [now rewrite Hv|].
      destruct (negb _); now rewrite Hv. }
    destruct (ltb (gfa odf) gfa_thr).
    + unfold maps_filled.
      cbn [nufo_map afd_max afd_sum gfa_map rgb_map].
      rewrite Hn, Hm, Hs. repeat split.
      * apply fill_next_keep with (d := d); [exact Hk|now rewrite Hv].
      * apply fill_next_keep with (d := d); [exact Hk|now rewrite Hv].
      * apply fill_next_keep with (d := d); [exact Hk|now rewrite Hv].
      * exact Hgfa.
      * exact Hrgb.
    + destruct (negb (count_valid (snd (nth k Tr d)) =? 0)).
      * unfold maps_filled.
        cbn [nufo_map afd_max afd_sum gfa_map rgb_map].
        rewrite Hn, Hm, Hs. repeat split.
        -- rewrite <- (@fill_next_set _ _ (fun v => nufo_of (mv v)) zero Tr d k Hk).
           now rewrite Hv.
        -- rewrite <- (@fill_next_set _ _ (fun v => afd_max_of (mv v)) zero Tr d k Hk).
           now rewrite Hv.
        -- rewrite <- (@fill_next_set _ _ (fun v => afd_sum_of (mv v)) zero Tr d k Hk).
           now rewrite Hv.
        -- exact Hgfa.
        -- exact Hrgb.
      * unfold maps_filled.
        cbn [nufo_map afd_max afd_sum gfa_map rgb_map].
        rewrite Hn, Hm, Hs. repeat split.
        -- apply fill_next_keep with (d := d); [exact Hk|now rewrite Hv].
        -- apply fill_next_keep with (d := d); [exact Hk|now rewrite Hv].
        -- apply fill_next_keep with (d := d); [exact Hk|now rewrite Hv].
        -- exact Hgfa.
        -- exact Hrgb.
  - unfold maps_filled. rewrite Hn, Hm, Hs, Hg, Hr. repeat split;
      (apply fill_next_keep with (d := d); [exact Hk|now rewrite Hv]).
Qed.

(** The loop computes the entry of each voxel in the four scalar maps and
    in the RGB map from that voxel alone. *)
Lemma maps_loop_voxelwise (Tr : list (list T * list T * list Z)) :
  let st := _maps_from_sh_loop gfa (map (fun v => fst (fst v)) Tr)
              (map (fun v => snd (fst v)) Tr) (map snd Tr) B sphere gfa_thr in
  nufo_map st = map (fun v => nufo_of (mv v)) Tr
  /\ afd_max st = map (fun v => afd_max_of (mv v)) Tr
  /\ afd_sum st = map (fun v => afd_sum_of (mv v)) Tr
  /\ gfa_map st = map (fun v => gfa_of (mv v)) Tr
  /\ rgb_map st = map (fun v => rgb_of (mv v)) Tr.
Proof.
  cbv zeta. unfold _maps_from_sh_loop. rewrite !length_map.
  assert (HP : maps_filled gfa B sphere gfa_thr Tr (length Tr)
                 (fold_left
                    (_maps_from_sh_body gfa (map (fun v => fst (fst v)) Tr)
                       (map (fun v => snd (fst v)) Tr) (map snd Tr) B sphere
                       gfa_thr)
                    (seq 0 (length Tr))
                    {| nufo_map := zeros (length Tr);
                       afd_max := zeros (length Tr);
                       afd_sum := zeros (length Tr);
                       rgb_map := zeros2 (length Tr) 3;
                       gfa_map := zeros (length Tr);
                       qa_map :=
                         Qa2D (zeros2 (length Tr)
                                 (ncols (map (fun v => snd (fst v)) Tr)));
                       max_odf := zero;
                       global_max := neg_inf |})).
  { apply loop_invariant_upto.
    - unfold maps_filled. cbn [nufo_map afd_max afd_sum gfa_map rgb_map].
      rewrite Nat.sub_0_r. cbn [firstn map app]. repeat split.
    - intros k st Hk Hst. now apply maps_body_step. }
  destruct HP as (Hn & Hm & Hs & Hg & Hr).
  rewrite Hn, Hm, Hs, Hg, Hr, Nat.sub_diag, firstn_all. cbn [repeat].
  now rewrite !app_nil_r.
Qed.

End MapsLoop.

(** ** Masks, chunks and rows kept side by side *)

Lemma mask_select_map {X Y : Type} (f : X -> Y) (m : list bool) (l : list X) :
  mask_select m (map f l) = map f (mask_select m l).
Proof.
  revert l. induction m as [|b m IH]; intros l; [reflexivity|].
  destruct l as [|x l]; [now destruct b|].
  destruct b; cbn [mask_select map]; now rewrite IH.
Qed.

Lemma map_fst_combine {X Y : Type} (a : list X) (b : list Y) :
  length a = length b -> map fst (combine a b) = a.
Proof.
  revert b. induction a as [|x a IH]; intros b H; [reflexivity|].
  destruct b as [|y b]; [discriminate|].
  cbn [combine map fst]. f_equal. apply IH. now injection H.
Qed.

Lemma map_snd_combine {X Y : Type} (a : list X) (b : list Y) :
  length a = length b -> map snd (combine a b) = b.
Proof.
  revert b. induction a as [|x a IH]; intros b H;
    [now destruct b|].
  destruct b as [|y b]; [discriminate|].
  cbn [combine map snd]. f_equal. apply IH. now injection H.
Qed.

Lemma combine_map_left {X Y W : Type} (f : X -> Y) (l : list X) (l' : list W) :
  combine (map f l) l' = map (fun p => (f (fst p), snd p)) (combine l l').
Proof.
  revert l'. induction l as [|x l IH]; intros l'; [reflexivity|].
  destruct l' as [|w l']; [reflexivity|].
  cbn [map combine fst snd]. now rewrite IH.
Qed.

Lemma slice_map {X Y : Type} (f : X -> Y) (lo hi : nat) (l : list X) :
  slice lo hi (map f l) = map f (slice lo hi l).
Proof. unfold slice. now rewrite skipn_map, firstn_map. Qed.

Lemma array_split_map {X Y : Type} (f : X -> Y) (l : list X) (n : Z)
    (chunks : list (list X)) :
  array_split l n = Ok chunks ->
  array_split (map f l) n = Ok (map (map f) chunks).
Proof.
  unfold array_split. destruct (n <=? 0)%Z; [discriminate|].
  intros H. injection H as <-. rewrite length_map, map_map. f_equal.
  apply map_ext. intros i. apply slice_map.
Qed.

Lemma chunk_offsets_map {X Y : Type} (f : X -> Y) (chunks : list (list X)) :
  chunk_offsets (map (map f) chunks) = chunk_offsets chunks.
Proof.
  unfold chunk_offsets. do 2 f_equal. rewrite map_map. apply map_ext.
  intros c. apply length_map.
Qed.

Lemma count_nonzero_firstn_lt (m : list bool) (i : nat) :
  nth i m false = true -> count_nonzero (firstn i m) < count_nonzero m.
Proof.
  revert i. induction m as [|b m IH]; intros i H; [now destruct i|].
  destruct i as [|i]; cbn [nth] in H.
  - subst b. unfold count_nonzero. cbn. lia.
  - specialize (IH i H). unfold count_nonzero in *.
    cbn [firstn filter]. destruct b; cbn [length]; lia.
Qed.

Lemma nth_mask_select {X : Type} (m : list bool) (a : list X) (i : nat) (d : X) :
  nth i m false = true ->
  nth (count_nonzero (firstn i m)) (mask_select m a) d = nth i a d.
Proof.
  revert a i. induction m as [|b m IH]; intros a i H; [now destruct i|].
  destruct i as [|i]; cbn [nth] in H.
  - subst b. destruct a as [|x a]; reflexivity.
  - destruct a as [|x a].
    + destruct b; cbn [mask_select]; now destruct (count_nonzero _).
    + unfold count_nonzero in *. cbn [firstn filter].
      destruct b; cbn [mask_select length nth]; now apply IH.
Qed.

(** The row a scatter leaves at a voxel of the mask, when the rows scattered
    were computed from the voxels of the mask one by one. *)
Lemma nth_mask_assign_map_select {X Y : Type} (f : X -> Y) (m : list bool)
    (a : list X) (base : list Y) (i : nat) (d : Y) (d' : X) :
  length m = length a ->
  length base = length a ->
  i < length a ->
  nth i m false = true ->
  nth i (mask_assign m (map f (mask_select m a)) base) d = f (nth i a d').
Proof.
  intros Hm Hb Hi Ht.
  assert (Hs : length (mask_select m a) = count_nonzero m)
    by (now apply mask_select_length).
  rewrite (@mask_assign_inside Y m (map f (mask_select m a)) base i d Ht)
    by (rewrite ?length_map; lia).
  rewrite (nth_map_lt f (mask_select m a) d d')
    by (rewrite Hs; now apply count_nonzero_firstn_lt).
  now rewrite nth_mask_select.
Qed.

(** ** [maps_from_sh]: the maps that do not depend on the worker count *)

Section MapsWorkers.
Context {T : Type} {A : Arith T} {N : Num T}.
Variable cpu_count : Z.
Variable order_from_ncoef : nat -> bool -> Z.
Variable sh_to_sf_matrix :
  Sphere T -> Z -> basis -> bool -> bool -> list (list T) * list (list T).
Variable gfa : list T -> T.

(** The reduction loop reassembles each array on its own. *)
Lemma maps_reduce_rows (chunk_len : list nat)
    (results : list (nat * @maps_state T)) (init : @maps_state T) :
  let tmp := maps_reduce chunk_len results init in
  nufo_map tmp
  = rows_reassemble chunk_len
      (map (fun r : nat * @maps_state T => (fst r, nufo_map (snd r))) results)
      (nufo_map init)
  /\ afd_max tmp
     = rows_reassemble chunk_len
         (map (fun r : nat * @maps_state T => (fst r, afd_max (snd r))) results)
         (afd_max init)
  /\ afd_sum tmp
     = rows_reassemble chunk_len
         (map (fun r : nat * @maps_state T => (fst r, afd_sum (snd r))) results)
         (afd_sum init)
  /\ gfa_map tmp
     = rows_reassemble chunk_len
         (map (fun r : nat * @maps_state T => (fst r, gfa_map (snd r))) results)
         (gfa_map init)
  /\ rgb_map tmp
     = rows_reassemble chunk_len
         (map (fun r : nat * @maps_state T => (fst r, rgb_map (snd r))) results)
         (rgb_map init).
Proof.
  cbv zeta. unfold maps_reduce, rows_reassemble.
  revert init. induction results as [|r results IH]; intros init.
  - repeat split.
  - cbn [fold_left map fst snd].
    destruct (IH (maps_reduce_step chunk_len init r)) as (Hn & Hm & Hs & Hg & Hr).
    rewrite Hn, Hm, Hs, Hg, Hr. repeat split.
Qed.

(** The tmp arrays of [maps_from_sh], for every worker count but 0: the
    four scalar maps and the RGB rows are those of the voxels of the mask,
    one by one. *)
Lemma maps_from_sh_tmp_arrays (shm_coeff peak_values : list (list T))
    (peak_indices : list (list Z)) (sphere : Sphere T)
    (mask : option (list bool)) (gfa_thr : T) (sh_basis_type : basis)
    (nbr_processes : option Z) :
  (1 <= cpu_count)%Z ->
  nbr_processes <> Some 0%Z ->
  (forall m, mask = Some m -> length m = length shm_coeff) ->
  length peak_values = length shm_coeff ->
  length peak_indices = length shm_coeff ->
  let m := maps_from_sh_mask shm_coeff mask in
  let B := fst (sh_to_sf_matrix sphere
                  (order_from_ncoef (ncols shm_coeff) false) sh_basis_type
                  false true) in
  let mv := maps_voxel gfa B sphere gfa_thr in
  let Tr := mask_select m (combine (combine shm_coeff peak_values)
                                   peak_indices) in
  exists tmp,
    maps_from_sh_tmp cpu_count order_from_ncoef sh_to_sf_matrix gfa shm_coeff
      peak_values peak_indices sphere mask gfa_thr sh_basis_type nbr_processes
    = Ok tmp
    /\ nufo_map tmp = map (fun v => nufo_of (mv v)) Tr
    /\ afd_max tmp = map (fun v => afd_max_of (mv v)) Tr
    /\ afd_sum tmp = map (fun v => afd_sum_of (mv v)) Tr
    /\ gfa_map tmp = map (fun v => gfa_of (mv v)) Tr
    /\ rgb_map tmp = map (fun v => rgb_of (mv v)) Tr.
Proof.
  intros Hcpu Hnz Hmask Hpv Hpi m B mv Tr.
  unfold maps_from_sh_tmp. fold m. fold B.
  set (All := combine (combine shm_coeff peak_values) peak_indices) in *.
  assert (HX : mask_select m shm_coeff = map (fun v => fst (fst v)) Tr).
  { unfold Tr. rewrite <- mask_select_map. f_equal. unfold All.
    rewrite <- (map_map fst fst), map_fst_combine, map_fst_combine;
      [reflexivity|now symmetry|].
    rewrite length_combine, Hpv, Hpi. lia. }
  assert (HPV : mask_select m peak_values = map (fun v => snd (fst v)) Tr).
  { unfold Tr. rewrite <- mask_select_map. f_equal. unfold All.
    rewrite <- (map_map fst snd), map_fst_combine, map_snd_combine;
      [reflexivity|now symmetry|].
    rewrite length_combine, Hpv, Hpi. lia. }
  assert (HPI : mask_select m peak_indices = map snd Tr).
  { unfold Tr. rewrite <- mask_select_map. f_equal. unfold All.
    rewrite map_snd_combine; [reflexivity|].
    rewrite length_combine, Hpv, Hpi. lia. }
  rewrite HX, HPV, HPI.
  assert (Hm : length m = length All).
  { unfold All. rewrite !length_combine, Hpv, Hpi, !Nat.min_id.
    unfold m, maps_from_sh_mask. destruct mask as [m'|]; [now apply Hmask|].
    unfold default_mask. apply length_map. }
  assert (HTr : length Tr = count_nonzero m)
    by (apply mask_select_length; exact Hm).
  set (n := resolve_lt0 cpu_count nbr_processes).
  assert (Hn : (1 <= n)%Z) by (now apply resolve_lt0_pos).
  destruct (n =? 1)%Z.
  - eexists. split; [reflexivity|].
    exact (maps_loop_voxelwise gfa B sphere gfa_thr Tr).
  - destruct (array_split_ok Tr Hn) as [trs Hc].
    rewrite (array_split_map (fun v => fst (fst v)) Tr n Hc),
      (array_split_map (fun v => snd (fst v)) Tr n Hc),
      (array_split_map snd Tr n Hc).
    cbn [bind].
    destruct (concat_array_split Tr n Hc) as [Hcat _].
    eexists. split; [reflexivity|].
    rewrite chunk_offsets_map, length_map.
    rewrite !combine_map_same, combine_map_left, map_map.
    match goal with
    | |- context [maps_reduce ?cl ?rs ?init] =>
        destruct (maps_reduce_rows cl rs init) as (Hn' & Hm' & Hs' & Hg' & Hr')
    end.
    rewrite Hn', Hm', Hs', Hg', Hr'.
    cbn [nufo_map afd_max afd_sum gfa_map rgb_map]. rewrite !map_map.
    rewrite (reassemble_map_chunks (fun v => nufo_of (mv v)) trs).
    rewrite (reassemble_map_chunks (fun v => afd_max_of (mv v)) trs).
    rewrite (reassemble_map_chunks (fun v => afd_sum_of (mv v)) trs).
    rewrite (reassemble_map_chunks (fun v => gfa_of (mv v)) trs).
    rewrite (reassemble_map_chunks (fun v => rgb_of (mv v)) trs).
    + rewrite Hcat. repeat split.
    + apply map_ext. intros ci. cbn [fst snd _maps_from_sh_parallel].
      f_equal. apply (maps_loop_voxelwise gfa B sphere gfa_thr (fst ci)).
    + rewrite Hcat, HTr. unfold zeros2. apply repeat_length.
    + apply map_ext. intros ci. cbn [fst snd _maps_from_sh_parallel].
      f_equal. apply (maps_loop_voxelwise gfa B sphere gfa_thr (fst ci)).
    + rewrite Hcat, HTr. apply repeat_length.
    + apply map_ext. intros ci. cbn [fst snd _maps_from_sh_parallel].
      f_equal. apply (maps_loop_voxelwise gfa B sphere gfa_thr (fst ci)).
    + rewrite Hcat, HTr. apply repeat_length.
    + apply map_ext. intros ci. cbn [fst snd _maps_from_sh_parallel].
      f_equal. apply (maps_loop_voxelwise gfa B sphere gfa_thr (fst ci)).
    + rewrite Hcat, HTr. apply repeat_length.
    + apply map_ext. intros ci. cbn [fst snd _maps_from_sh_parallel].
      f_equal. apply (maps_loop_voxelwise gfa B sphere gfa_thr (fst ci)).
    + rewrite Hcat, HTr. apply repeat_length.
Qed.

End MapsWorkers.

Section MapsArrays.
Context {T : Type} {A : Arith T} {N : Num T}.
Variable cpu_count : Z.
Variable order_from_ncoef : nat -> bool -> Z.
Variable sh_to_sf_matrix :
  Sphere T -> Z -> basis -> bool -> bool -> list (list T) * list (list T).
Variable gfa : list T -> T.
Variables (shm_coeff peak_values : list (list T))
          (peak_indices : list (list Z)) (sphere : Sphere T)
          (mask : option (list bool)) (gfa_thr : T) (sh_basis_type : basis).

Hypothesis cpu_count_pos : (1 <= cpu_count)%Z.
Hypothesis mask_shape : forall m, mask = Some m -> length m = length shm_coeff.
Hypothesis peak_values_shape : length peak_values = length shm_coeff.
Hypothesis peak_indices_shape : length peak_indices = length shm_coeff.

Local Notation "'the_mask'" := (maps_from_sh_mask shm_coeff mask).
Local Notation "'mv'" :=
  (maps_voxel gfa
     (fst (sh_to_sf_matrix sphere (order_from_ncoef (ncols shm_coeff) false)
             sh_basis_type false true))
     sphere gfa_thr).
Local Notation "'voxels'" :=
  (combine (combine shm_coeff peak_values) peak_indices).

Lemma maps_voxels_length : length voxels = length shm_coeff.
Proof.
  rewrite !length_combine, peak_values_shape, peak_indices_shape. lia.
Qed.

Lemma maps_mask_length : length the_mask = length shm_coeff.
Proof.
  unfold maps_from_sh_mask. destruct mask as [m'|]; [now apply mask_shape|].
  unfold default_mask. apply length_map.
Qed.

Lemma nth_maps_voxels (i : nat) :
  nth i voxels ([], [], [])
  = (nth i shm_coeff [], nth i peak_values [], nth i peak_indices []).
Proof.
  rewrite combine_nth
    by (rewrite length_combine, peak_values_shape, peak_indices_shape; lia).
  rewrite combine_nth by (now symmetry). reflexivity.
Qed.

(** The arrays [maps_from_sh] returns, for every worker count but 0. *)
Lemma maps_from_sh_arrays (nbr_processes : option Z) :
  nbr_processes <> Some 0%Z ->
  exists tmp out,
    maps_from_sh_tmp cpu_count order_from_ncoef sh_to_sf_matrix gfa shm_coeff
      peak_values peak_indices sphere mask gfa_thr sh_basis_type nbr_processes
    = Ok tmp
    /\ maps_from_sh cpu_count order_from_ncoef sh_to_sf_matrix gfa shm_coeff
         peak_values peak_indices sphere mask gfa_thr sh_basis_type
         nbr_processes = Ok out
    /\ nufo_map_array out
       = mask_assign the_mask
           (map (fun v => nufo_of (mv v)) (mask_select the_mask voxels))
           (zeros (length shm_coeff))
    /\ afd_max_array out
       = mask_assign the_mask
           (map (fun v => afd_max_of (mv v)) (mask_select the_mask voxels))
           (zeros (length shm_coeff))
    /\ afd_sum_array out
       = mask_assign the_mask
           (map (fun v => afd_sum_of (mv v)) (mask_select the_mask voxels))
           (zeros (length shm_coeff))
    /\ gfa_map_array out
       = mask_assign the_mask
           (map (fun v => gfa_of (mv v)) (mask_select the_mask voxels))
           (zeros (length shm_coeff))
    /\ rgb_map_array out
       = map (map (fun x => mul (div x (max_odf tmp)) (of_Z 255)))
           (mask_assign the_mask
              (map (fun v => rgb_of (mv v)) (mask_select the_mask voxels))
              (zeros2 (length shm_coeff) 3)).
Proof.
  intros Hnz.
  destruct (@maps_from_sh_tmp_arrays T A N cpu_count order_from_ncoef
              sh_to_sf_matrix gfa shm_coeff peak_values peak_indices sphere
              mask gfa_thr sh_basis_type nbr_processes cpu_count_pos Hnz
              mask_shape peak_values_shape peak_indices_shape)
    as (tmp & Htmp & Hn & Hm & Hs & Hg & Hr).
  exists tmp. eexists. split; [exact Htmp|].
  unfold maps_from_sh. rewrite Htmp. cbn [bind]. split; [reflexivity|].
  unfold maps_normalize, maps_scatter.
  cbn [nufo_map_array afd_max_array afd_sum_array gfa_map_array rgb_map_array].
  rewrite Hn, Hm, Hs, Hg, Hr. repeat split.
Qed.

(** X10.  For every worker count but 0, [maps_from_sh] returns the same
    NUFO, AFD-max, AFD-sum and GFA maps: the entries the loop computes from
    each voxel of the mask alone, scattered through the mask into zeros.
    The RGB map is the scatter of the rows the loop computes voxel by voxel,
    divided by the max-ODF tracker of the run and multiplied by 255. *)
Theorem maps_from_sh_scalar_maps_any_worker_count (nbr_processes : option Z) :
  nbr_processes <> Some 0%Z ->
  exists tmp out,
    maps_from_sh_tmp cpu_count order_from_ncoef sh_to_sf_matrix gfa shm_coeff
      peak_values peak_indices sphere mask gfa_thr sh_basis_type nbr_processes
    = Ok tmp
    /\ maps_from_sh cpu_count order_from_ncoef sh_to_sf_matrix gfa shm_coeff
         peak_values peak_indices sphere mask gfa_thr sh_basis_type
         nbr_processes = Ok out
    /\ nufo_map_array out
       = mask_assign the_mask
           (map (fun v => nufo_of (mv v)) (mask_select the_mask voxels))
           (zeros (length shm_coeff))
    /\ afd_max_array out
       = mask_assign the_mask
           (map (fun v => afd_max_of (mv v)) (mask_select the_mask voxels))
           (zeros (length shm_coeff))
    /\ afd_sum_array out
       = mask_assign the_mask
           (map (fun v => afd_sum_of (mv v)) (mask_select the_mask voxels))
           (zeros (length shm_coeff))
    /\ gfa_map_array out
       = mask_assign the_mask
           (map (fun v => gfa_of (mv v)) (mask_select the_mask voxels))
           (zeros (length shm_coeff))
    /\ rgb_map_array out
       = map (map (fun x => mul (div x (max_odf tmp)) (of_Z 255)))
           (mask_assign the_mask
              (map (fun v => rgb_of (mv v)) (mask_select the_mask voxels))
              (zeros2 (length shm_coeff) 3)).
Proof. exact (@maps_from_sh_arrays nbr_processes). Qed.

(** The entries of a voxel of the mask, for every worker count but 0. *)
Lemma maps_from_sh_at_voxel (nbr_processes : option Z) (i : nat) :
  nbr_processes <> Some 0%Z ->
  i < length shm_coeff ->
  nth i the_mask false = true ->
  let v := (nth i shm_coeff [], nth i peak_values [], nth i peak_indices []) in
  exists tmp out,
    maps_from_sh_tmp cpu_count order_from_ncoef sh_to_sf_matrix gfa shm_coeff
      peak_values peak_indices sphere mask gfa_thr sh_basis_type nbr_processes
    = Ok tmp
    /\ maps_from_sh cpu_count order_from_ncoef sh_to_sf_matrix gfa shm_coeff
         peak_values peak_indices sphere mask gfa_thr sh_basis_type
         nbr_processes = Ok out
    /\ nth_error (nufo_map_array out) i = Some (nufo_of (mv v))
    /\ nth_error (afd_max_array out) i = Some (afd_max_of (mv v))
    /\ nth_error (afd_sum_array out) i = Some (afd_sum_of (mv v))
    /\ nth_error (gfa_map_array out) i = Some (gfa_of (mv v))
    /\ nth_error (rgb_map_array out) i
       = Some (map (fun x => mul (div x (max_odf tmp)) (of_Z 255))
                   (rgb_of (mv v))).
Proof.
  intros Hnz Hi Hin v.
  destruct (maps_from_sh_arrays Hnz)
    as (tmp & out & Htmp & Hout & Hn & Hm & Hs & Hg & Hr).
  exists tmp, out. split; [exact Htmp|]. split; [exact Hout|].
  pose proof maps_voxels_length as HV. pose proof maps_mask_length as HM.
  assert (Hscal : forall (f : list T * list T * list Z -> T),
            nth_error
              (mask_assign the_mask (map f (mask_select the_mask voxels))
                 (zeros (length shm_coeff))) i
            = Some (f v)).
  { intros f.
    rewrite (nth_error_nth' _ zero)
      by (rewrite mask_assign_length; unfold zeros; rewrite repeat_length;
          exact Hi).
    f_equal. unfold v. rewrite <- nth_maps_voxels.
    apply nth_mask_assign_map_select; try lia; try exact Hin.
    unfold zeros. rewrite repeat_length. lia. }
  rewrite Hn, Hm, Hs, Hg, Hr.
  rewrite (Hscal (fun v => nufo_of (mv v))), (Hscal (fun v => afd_max_of (mv v))),
    (Hscal (fun v => afd_sum_of (mv v))), (Hscal (fun v => gfa_of (mv v))).
  repeat split.
  rewrite nth_error_map.
  rewrite (nth_error_nth' _ [])
    by (rewrite mask_assign_length; unfold zeros2; rewrite repeat_length;
        exact Hi).
  cbn [option_map]. do 2 f_equal. unfold v. rewrite <- nth_maps_voxels.
  apply (@nth_mask_assign_map_select _ _ (fun v => rgb_of (mv v)));
    try lia; try exact Hin.
  unfold zeros2. rewrite repeat_length. lia.
Qed.


(** X11.  For every worker count but 0 and every voxel of the mask, the
    NUFO, AFD-max, AFD-sum and GFA values [maps_from_sh] returns at the
    voxel are those the loop computes from the coefficients, the peak values
    and the peak indices of that voxel alone, and its RGB row is the row so
    computed, divided by the max-ODF tracker and multiplied by 255. *)
Theorem maps_from_sh_voxel_inside_mask (nbr_processes : option Z) (i : nat) :
  nbr_processes <> Some 0%Z ->
  i < length shm_coeff ->
  nth i the_mask false = true ->
  let v := (nth i shm_coeff [], nth i peak_values [], nth i peak_indices []) in
  exists tmp out,
    maps_from_sh_tmp cpu_count order_from_ncoef sh_to_sf_matrix gfa shm_coeff
      peak_values peak_indices sphere mask gfa_thr sh_basis_type nbr_processes
    = Ok tmp
    /\ maps_from_sh cpu_count order_from_ncoef sh_to_sf_matrix gfa shm_coeff
         peak_values peak_indices sphere mask gfa_thr sh_basis_type
         nbr_processes = Ok out
    /\ nth_error (nufo_map_array out) i = Some (nufo_of (mv v))
    /\ nth_error (afd_max_array out) i = Some (afd_max_of (mv v))
    /\ nth_error (afd_sum_array out) i = Some (afd_sum_of (mv v))
    /\ nth_error (gfa_map_array out) i = Some (gfa_of (mv v))
    /\ nth_error (rgb_map_array out) i
       = Some (map (fun x => mul (div x (max_odf tmp)) (of_Z 255))
                   (rgb_of (mv v))).
Proof. exact (@maps_from_sh_at_voxel nbr_processes i). Qed.

(** X12.  For every worker count but 0, a voxel whose coefficients are all
    zero has the value zero in the NUFO, AFD-max, AFD-sum and GFA maps,
    whether the mask holds it or not, and its RGB row is zero divided by the
    max-ODF tracker and multiplied by 255. *)
Theorem maps_from_sh_zero_voxel_contributes_nothing
    (nbr_processes : option Z) (i : nat) :
  nbr_processes <> Some 0%Z ->
  i < length shm_coeff ->
  any (nth i shm_coeff []) = false ->
  exists tmp out,
    maps_from_sh_tmp cpu_count order_from_ncoef sh_to_sf_matrix gfa shm_coeff
      peak_values peak_indices sphere mask gfa_thr sh_basis_type nbr_processes
    = Ok tmp
    /\ maps_from_sh cpu_count order_from_ncoef sh_to_sf_matrix gfa shm_coeff
         peak_values peak_indices sphere mask gfa_thr sh_basis_type
         nbr_processes = Ok out
    /\ nth_error (nufo_map_array out) i = Some zero
    /\ nth_error (afd_max_array out) i = Some zero
    /\ nth_error (afd_sum_array out) i = Some zero
    /\ nth_error (gfa_map_array out) i = Some zero
    /\ nth_error (rgb_map_array out) i
       = Some (repeat (mul (div zero (max_odf tmp)) (of_Z 255)) 3).
Proof.
  intros Hnz Hi Hzero.
  destruct (nth i the_mask false) eqn:Hin.
  - destruct (@maps_from_sh_at_voxel nbr_processes i Hnz Hi Hin)
      as (tmp & out & Htmp & Hout & Hn & Hm & Hs & Hg & Hr).
    exists tmp, out. split; [exact Htmp|]. split; [exact Hout|].
    rewrite Hn, Hm, Hs, Hg, Hr. unfold maps_voxel. cbn [fst snd].
    rewrite Hzero. cbn [nufo_of afd_max_of afd_sum_of gfa_of rgb_of].
    repeat split.
  - destruct (@maps_from_sh_outside_mask T A N cpu_count order_from_ncoef
                sh_to_sf_matrix gfa cpu_count_pos shm_coeff peak_values
                peak_indices sphere mask gfa_thr sh_basis_type nbr_processes i
                Hnz Hi Hin)
      as (tmp & out & Htmp & Hout & Hn & Hm & Hs & Hg & Hr & _).
    exists tmp, out. repeat split; assumption.
Qed.

End MapsArrays.

(** ** [peaks_from_sh]: the slots of a voxel of the mask *)

Lemma skipn_repeat_sub {R : Type} (x : R) (n k : nat) :
  skipn k (repeat x n) = repeat x (n - k).
Proof.
  revert k. induction n as [|n IH]; intros k; [now destruct k|].
  destruct k as [|k]; [reflexivity|]. cbn [repeat skipn Nat.sub]. apply IH.
Qed.

Lemma firstn_app_exact {R : Type} (n : nat) (a b : list R) :
  length a = n -> firstn n (a ++ b) = a.
Proof.
  intros <-. rewrite firstn_app, Nat.sub_diag, firstn_all. cbn [firstn].
  apply app_nil_r.
Qed.

Lemma skipn_app_exact {R : Type} (n : nat) (a b : list R) :
  length a = n -> skipn n (a ++ b) = b.
Proof.
  intros <-. rewrite skipn_app, Nat.sub_diag, skipn_all. reflexivity.
Qed.

Section PeaksSlots.
Context {T : Type} {A : Arith T} {N : Num T}.
Variable cpu_count : Z.
Variable order_from_ncoef : nat -> bool -> Z.
Variable sh_to_sf_matrix :
  Sphere T -> Z -> basis -> bool -> bool -> list (list T) * list (list T).
Variable peak_directions :
  list T -> Sphere T -> T -> T -> bool -> list (list T) * list T * list Z.
Variables (shm_coeff : list (list T)) (sphere : Sphere T)
          (mask : option (list bool)) (rel thr sep : T) (normalize : bool)
          (npeaks : nat) (sh_basis_type : basis) (legacy : bool)
          (full sym : bool).

Hypothesis cpu_count_pos : (1 <= cpu_count)%Z.
Hypothesis mask_shape : forall m, mask = Some m -> length m = length shm_coeff.

Local Notation "'the_mask'" :=
  (match mask with None => default_mask shm_coeff | Some m => m end).
Local Notation "'the_B'" :=
  (fst (sh_to_sf_matrix sphere (order_from_ncoef (ncols shm_coeff) full)
          sh_basis_type full legacy)).
Local Notation "'pv'" :=
  (peaks_voxel peak_directions the_B sphere rel thr sep npeaks normalize sym).

(** The three arrays [peaks_from_sh] returns, for every worker count. *)
Lemma peaks_from_sh_rows (nbr_processes : option Z) :
  peaks_from_sh cpu_count order_from_ncoef sh_to_sf_matrix peak_directions
    shm_coeff sphere mask rel thr sep normalize npeaks sh_basis_type legacy
    nbr_processes full sym
  = Ok (mask_assign the_mask
          (map (fun c => fst (fst (pv c))) (mask_select the_mask shm_coeff))
          (repeat (zeros2 npeaks 3) (length shm_coeff)),
        mask_assign the_mask
          (map (fun c => snd (fst (pv c))) (mask_select the_mask shm_coeff))
          (zeros2 (length shm_coeff) npeaks),
        mask_assign the_mask
          (map (fun c => snd (pv c)) (mask_select the_mask shm_coeff))
          (repeat (repeat 0%Z npeaks) (length shm_coeff))).
Proof.
  unfold peaks_from_sh.
  set (m := the_mask). set (X := mask_select m shm_coeff).
  assert (Hm : length m = length shm_coeff).
  { unfold m. destruct mask as [m'|]; [now apply mask_shape|].
    unfold default_mask. apply length_map. }
  assert (HX : length X = count_nonzero m)
    by (apply mask_select_length; exact Hm).
  set (n := resolve_le0 cpu_count nbr_processes).
  assert (Hn : (1 <= n)%Z) by (apply resolve_le0_pos; exact cpu_count_pos).
  destruct (n =? 1)%Z.
  - cbn [bind]. rewrite peaks_loop_voxelwise. reflexivity.
  - destruct (array_split_ok X Hn) as [chunks Hc]. rewrite Hc. cbn [bind].
    destruct (concat_array_split X n Hc) as [Hcat _].
    rewrite peaks_reassemble_rows. cbn [fst snd]. rewrite !map_map.
    unfold _peaks_from_sh_parallel. cbn [fst snd].
    rewrite (reassemble_map_chunks (fun c => fst (fst (pv c))) chunks).
    rewrite (reassemble_map_chunks (fun c => snd (fst (pv c))) chunks).
    rewrite (reassemble_map_chunks (fun c => snd (pv c)) chunks).
    + now rewrite Hcat.
    + apply map_ext. intros ci. now rewrite peaks_loop_voxelwise.
    + rewrite Hcat, HX. apply repeat_length.
    + apply map_ext. intros ci. now rewrite peaks_loop_voxelwise.
    + rewrite Hcat, HX. unfold zeros2. apply repeat_length.
    + apply map_ext. intros ci. now rewrite peaks_loop_voxelwise.
    + rewrite Hcat, HX. apply repeat_length.
Qed.

(** The slots the loop leaves for one voxel: the first
    [min(npeaks, number of peaks found)] hold the peaks [peak_directions]
    found, in its order, and the others are as allocated. *)
Lemma peaks_voxel_slots (coeff : list T) :
  let odf := map (fun x => if ltb x thr then zero else x) (np_dot coeff the_B) in
  let found := peak_directions odf sphere rel sep sym in
  let dirs := fst (fst found) in
  let peaks := snd (fst found) in
  let ind := snd found in
  let n := Nat.min npeaks (length peaks) in
  snd (pv coeff)
  = (if any coeff then firstn n ind ++ repeat (-1)%Z (npeaks - n)
     else repeat (-1)%Z npeaks)
  /\ snd (fst (pv coeff))
     = (if any coeff
        then (if normalize
              then map (fun v => div v (nth 0 peaks zero)) (firstn n peaks)
              else firstn n peaks)
             ++ zeros (npeaks - n)
        else zeros npeaks)
  /\ (normalize = false ->
      fst (fst (pv coeff))
      = if any coeff then firstn n dirs ++ zeros2 (npeaks - n) 3
        else zeros2 npeaks 3).
Proof.
  cbv zeta. unfold peaks_voxel.
  destruct (any coeff); [|repeat split].
  cbv zeta.
  destruct (peak_directions _ sphere rel sep sym) as [[dirs peaks] ind].
  cbn [fst snd].
  assert (Hfn : length (firstn (Nat.min npeaks (length peaks)) peaks)
                = Nat.min npeaks (length peaks))
    by (rewrite length_firstn; lia).
  destruct (length peaks =? 0) eqn:E0; cbn [negb].
  - apply Nat.eqb_eq in E0. rewrite E0, Nat.min_0_r, Nat.sub_0_r.
    cbn [firstn app map]. destruct normalize; repeat split.
  - unfold assign_prefix, zeros, zeros2. rewrite !skipn_repeat_sub.
    destruct normalize; cbn [fst snd].
    + rewrite (firstn_app_exact _ _ Hfn), (skipn_app_exact _ _ Hfn).
      repeat split. discriminate.
    + repeat split.
Qed.

(** X13.  For every worker count and every voxel of the mask, the index row
    [peaks_from_sh] returns holds the indices of the first
    [min(npeaks, number of peaks found)] peaks that [peak_directions] found
    for the voxel, then -1 in every unused slot; the value row holds their
    values (divided by the first one when the peaks are normalized), then
    zeros; and without normalization the direction rows are their
    directions, then zero rows.  A voxel of the mask without a non-zero
    coefficient has -1 and zero in every slot. *)
Theorem peaks_from_sh_slots_inside_mask (nbr_processes : option Z) (i : nat) :
  i < length shm_coeff ->
  nth i the_mask false = true ->
  let coeff := nth i shm_coeff [] in
  let odf := map (fun x => if ltb x thr then zero else x) (np_dot coeff the_B) in
  let found := peak_directions odf sphere rel sep sym in
  let dirs := fst (fst found) in
  let peaks := snd (fst found) in
  let ind := snd found in
  let n := Nat.min npeaks (length peaks) in
  exists peak_dirs peak_values peak_indices,
    peaks_from_sh cpu_count order_from_ncoef sh_to_sf_matrix peak_directions
      shm_coeff sphere mask rel thr sep normalize npeaks sh_basis_type legacy
      nbr_processes full sym
    = Ok (peak_dirs, peak_values, peak_indices)
    /\ nth_error peak_indices i
       = Some (if any coeff then firstn n ind ++ repeat (-1)%Z (npeaks - n)
               else repeat (-1)%Z npeaks)
    /\ nth_error peak_values i
       = Some (if any coeff
               then (if normalize
                     then map (fun v => div v (nth 0 peaks zero))
                              (firstn n peaks)
                     else firstn n peaks)
                    ++ zeros (npeaks - n)
               else zeros npeaks)
    /\ (normalize = false ->
        nth_error peak_dirs i
        = Some (if any coeff then firstn n dirs ++ zeros2 (npeaks - n) 3
                else zeros2 npeaks 3)).
Proof.
  intros Hi Hin coeff odf found dirs peaks ind n.
  do 3 eexists. split; [apply peaks_from_sh_rows|].
  assert (Hm : length the_mask = length shm_coeff).
  { destruct mask as [m'|]; [now apply mask_shape|].
    unfold default_mask. apply length_map. }
  destruct (peaks_voxel_slots coeff) as (Hind & Hval & Hdir).
  split; [|split].
  - rewrite (nth_error_nth' _ [])
      by (rewrite mask_assign_length, repeat_length; exact Hi).
    f_equal.
    rewrite (@nth_mask_assign_map_select _ _ (fun c => snd (pv c)) the_mask
               shm_coeff _ i [] []); try lia; try exact Hin.
    + exact Hind.
    + apply repeat_length.
  - rewrite (nth_error_nth' _ [])
      by (rewrite mask_assign_length; unfold zeros2; rewrite repeat_length;
          exact Hi).
    f_equal.
    rewrite (@nth_mask_assign_map_select _ _ (fun c => snd (fst (pv c)))
               the_mask shm_coeff _ i [] []); try lia; try exact Hin.
    + exact Hval.
    + unfold zeros2. apply repeat_length.
  - intros Hnorm.
    rewrite (nth_error_nth' _ [])
      by (rewrite mask_assign_length, repeat_length; exact Hi).
    f_equal.
    rewrite (@nth_mask_assign_map_select _ _ (fun c => fst (fst (pv c)))
               the_mask shm_coeff _ i [] []); try lia; try exact Hin.
    + exact (Hdir Hnorm).
    + apply repeat_length.
Qed.

End PeaksSlots.

(** ** The conversions, voxel by voxel *)

Section ConvertVoxels.
Context {T : Type} {A : Arith T} {N : Num T}.
Variable cpu_count : Z.
Variable order_from_ncoef : nat -> bool -> Z.
Variable sh_to_sf_matrix :
  Sphere T -> Z -> basis -> bool -> bool -> list (list T) * list (list T).

(** A scatter through a mask, read at one voxel. *)
Lemma nth_error_scatter {X Y : Type} (f : X -> Y) (m : list bool)
    (a : list X) (z : Y) (i : nat) (d' : X) :
  length m = length a ->
  i < length a ->
  nth_error (mask_assign m (map f (mask_select m a)) (repeat z (length a))) i
  = Some (if nth i m false then f (nth i a d') else z).
Proof.
  intros Hm Hi.
  rewrite (nth_error_nth' _ z)
    by (rewrite mask_assign_length, repeat_length; exact Hi).
  f_equal. destruct (nth i m false) eqn:Hin.
  - apply nth_mask_assign_map_select; try lia; try exact Hin.
    apply repeat_length.
  - rewrite mask_assign_outside by exact Hin. now apply nth_repeat_lt.
Qed.

(** The array [convert_sh_to_sf] returns for a worker count of 1 or more. *)
Lemma convert_sh_to_sf_rows (shm_coeff : @ndarray T) (sphere : Sphere T)
    (mask : option (list bool)) (d : dtype) (input_basis : basis)
    (full legacy : bool) (n : Z) :
  (1 <= n)%Z ->
  (forall m, mask = Some m -> length m = length (rows shm_coeff)) ->
  let m := match mask with
           | None => default_mask (rows shm_coeff)
           | Some m => m
           end in
  let B_in :=
    astype d
      {| dtype_of := Float64;
         rows := fst (sh_to_sf_matrix sphere
                        (order_from_ncoef (ncols (rows shm_coeff)) full)
                        input_basis full legacy) |} in
  convert_sh_to_sf order_from_ncoef sh_to_sf_matrix shm_coeff sphere mask d
    input_basis full legacy (Some n)
  = Ok {| dtype_of := d;
          rows := mask_assign m
                    (map (sf_voxel (dtype_of shm_coeff) B_in
                            (length (vertices sphere)))
                         (mask_select m (rows shm_coeff)))
                    (zeros2 (length (rows shm_coeff))
                            (length (vertices sphere))) |}.
Proof.
  intros Hn Hmask m B_in. unfold convert_sh_to_sf.
  fold m. fold B_in.
  set (D := length (vertices sphere)).
  set (X := mask_select m (rows shm_coeff)).
  assert (Hm : length m = length (rows shm_coeff)).
  { unfold m. destruct mask as [m'|]; [now apply Hmask|].
    unfold default_mask. apply length_map. }
  assert (HX : length X = count_nonzero m)
    by (apply mask_select_length; exact Hm).
  unfold is_one, array_split_py.
  destruct (n =? 1)%Z.
  - cbn [bind]. unfold astype at 1. cbn [dtype_of rows].
    change (dtype_of (_convert_sh_to_sf_loop _ D B_in)) with Float32.
    now rewrite store_from_float32, convert_sh_to_sf_loop_voxelwise.
  - cbn [rows]. destruct (array_split_ok X Hn) as [chunks Hc]. rewrite Hc.
    cbn [bind]. destruct (concat_array_split X n Hc) as [Hcat _].
    unfold astype at 1. cbn [dtype_of rows]. rewrite store_same_dtype.
    rewrite map_map.
    rewrite (reassemble_map_chunks (sf_voxel (dtype_of shm_coeff) B_in D)
               chunks).
    + now rewrite Hcat.
    + apply map_ext. intros ci. unfold _convert_sh_to_sf_parallel.
      cbn [fst snd]. unfold astype. cbn [rows].
      change (dtype_of (_convert_sh_to_sf_loop _ D B_in)) with Float32.
      now rewrite store_from_float32, convert_sh_to_sf_loop_voxelwise.
    + rewrite Hcat, HX. unfold zeros2. apply repeat_length.
Qed.

(** X14.  For a worker count of 1 or more, [convert_sh_to_sf] returns an
    array of the requested dtype with one row per voxel.  The row of a voxel
    of the mask with a non-zero coefficient is the product of its
    coefficients with the matrix of the basis, computed in the promoted
    dtype of the two and stored as float32; every other row is zero in each
    of the directions of the sphere. *)
Theorem convert_sh_to_sf_voxel (shm_coeff : @ndarray T) (sphere : Sphere T)
    (mask : option (list bool)) (d : dtype) (input_basis : basis)
    (full legacy : bool) (n : Z) (i : nat) :
  (1 <= n)%Z ->
  (forall m, mask = Some m -> length m = length (rows shm_coeff)) ->
  i < length (rows shm_coeff) ->
  let m := match mask with
           | None => default_mask (rows shm_coeff)
           | Some m => m
           end in
  let B := fst (sh_to_sf_matrix sphere
                  (order_from_ncoef (ncols (rows shm_coeff)) full)
                  input_basis full legacy) in
  let B_in := map (map (store Float64 d)) B in
  let p := promote (dtype_of shm_coeff) d in
  let coeff := nth i (rows shm_coeff) [] in
  exists sf,
    convert_sh_to_sf order_from_ncoef sh_to_sf_matrix shm_coeff sphere mask d
      input_basis full legacy (Some n) = Ok sf
    /\ dtype_of sf = d
    /\ length (rows sf) = length (rows shm_coeff)
    /\ nth_error (rows sf) i
       = Some (if nth i m false && any coeff
               then map (store p Float32) (np_dot_in p coeff B_in)
               else zeros (length (vertices sphere))).
Proof.
  intros Hn Hmask Hi m B B_in p coeff.
  eexists.
  split; [apply (@convert_sh_to_sf_rows shm_coeff sphere mask d input_basis
                   full legacy n Hn Hmask)|].
  cbn [dtype_of rows]. split; [reflexivity|].
  assert (Hm : length m = length (rows shm_coeff)).
  { unfold m. destruct mask as [m'|]; [now apply Hmask|].
    unfold default_mask. apply length_map. }
  split.
  - rewrite mask_assign_length. unfold zeros2. apply repeat_length.
  - unfold zeros2. fold m.
    rewrite (nth_error_scatter _ m (rows shm_coeff) _ [] Hm Hi).
    f_equal. fold coeff. unfold sf_voxel, astype. cbn [dtype_of rows].
    fold B. fold B_in. fold p.
    destruct (nth i m false); [|reflexivity].
    destruct (any coeff); reflexivity.
Qed.

(** The array [convert_sh_basis] returns between two different bases, for
    every worker count but 0. *)
Lemma convert_sh_basis_rows (shm_coeff : list (list T)) (sphere : Sphere T)
    (mask : option (list bool)) (input_basis output_basis : basis)
    (is_input_legacy is_output_legacy : bool) (nbr_processes : option Z) :
  (1 <= cpu_count)%Z ->
  nbr_processes <> Some 0%Z ->
  (forall m, mask = Some m -> length m = length shm_coeff) ->
  basis_eqb input_basis output_basis
    && Bool.eqb is_input_legacy is_output_legacy = false ->
  let m := match mask with None => default_mask shm_coeff | Some m => m end in
  let sh_order := order_from_ncoef (ncols shm_coeff) false in
  let B_in :=
    fst (sh_to_sf_matrix sphere sh_order input_basis false is_input_legacy) in
  let invB_out :=
    snd (sh_to_sf_matrix sphere sh_order output_basis false
           is_output_legacy) in
  convert_sh_basis cpu_count order_from_ncoef sh_to_sf_matrix shm_coeff sphere
    mask input_basis output_basis is_input_legacy is_output_legacy
    nbr_processes
  = Ok (mask_assign m
          (map (convert_basis_voxel B_in invB_out) (mask_select m shm_coeff))
          (zeros2 (length shm_coeff) (ncols shm_coeff))).
Proof.
  intros Hcpu Hnz Hmask Hb m sh_order B_in invB_out. unfold convert_sh_basis.
  rewrite Hb. fold m. fold sh_order. fold B_in. fold invB_out.
  cbn [fst snd].
  set (X := mask_select m shm_coeff).
  assert (Hm : length m = length shm_coeff).
  { unfold m. destruct mask as [m'|]; [now apply Hmask|].
    unfold default_mask. apply length_map. }
  assert (HX : length X = count_nonzero m)
    by (apply mask_select_length; exact Hm).
  set (n := resolve_lt0 cpu_count nbr_processes).
  assert (Hn : (1 <= n)%Z) by (now apply resolve_lt0_pos).
  destruct (n =? 1)%Z.
  - cbn [bind]. now rewrite convert_sh_basis_loop_voxelwise.
  - destruct (array_split_ok X Hn) as [chunks Hc]. rewrite Hc. cbn [bind].
    destruct (concat_array_split X n Hc) as [Hcat _].
    rewrite (reassemble_map_chunks (convert_basis_voxel B_in invB_out) chunks).
    + now rewrite Hcat.
    + apply map_ext. intros ci. unfold _convert_sh_basis_parallel.
      now rewrite convert_sh_basis_loop_voxelwise.
    + rewrite Hcat, HX. unfold zeros2. apply repeat_length.
Qed.


End ConvertVoxels.

(** ** The statements above at concrete inputs *)

(** Ten streamlines, twenty requested with [--never_upsample]: the ten are
    saved, without their invalid streamlines. *)
Lemma resample_never_upsample_witness :
  let args :=
    {| in_tractogram := "in.trk"; nb_streamlines := 20;
       out_tractogram := "out.trk"; point_wise_std := Some 0.5%float;
       streamline_wise_std := None; gaussian := None; spline := None;
       never_upsample := true; keep_invalid_streamlines := false;
       seed := None; overwrite := false |} in
  let main :=
    resample_main (fun s : list nat => Z.of_nat (length s)) (fun _ => None)
      (fun _ _ => None) (fun _ => seq 0 10)
      (fun s nb _ _ _ _ _ => seq 0 (Z.to_nat nb))
      (fun s nb _ => firstn (Z.to_nat nb) s) (filter (fun k => Nat.ltb k 8)) in
  never_upsample args = true
  /\ snd (main args) = Saved (seq 0 8)
  /\ (In (CallUpsample 20) (fst (main args)) -> False).
Proof.
  intros args main.
  destruct (@resample_never_upsample float float64_arith float64 (list nat)
              (fun s : list nat => Z.of_nat (length s)) (fun _ => None)
              (fun _ _ => None) (fun _ => seq 0 10)
              (fun s nb _ _ _ _ _ => seq 0 (Z.to_nat nb))
              (fun s nb _ => firstn (Z.to_nat nb) s)
              (filter (fun k => Nat.ltb k 8)) args eq_refl) as [Hno Hsaved].
  split; [reflexivity|]. split; [reflexivity|]. exact (Hno 20%Z).
Defined.

(** Ten streamlines, twenty requested with a point-wise standard deviation
    of 0.5: the tractogram is upsampled. *)
Lemma resample_upsample_needs_std_witness :
  let args :=
    {| in_tractogram := "in.trk"; nb_streamlines := 20;
       out_tractogram := "out.trk"; point_wise_std := Some 0.5%float;
       streamline_wise_std := None; gaussian := None; spline := None;
       never_upsample := false; keep_invalid_streamlines := true;
       seed := None; overwrite := false |} in
  resample_main (fun s : list nat => Z.of_nat (length s)) (fun _ => None)
    (fun _ _ => None) (fun _ => seq 0 10)
    (fun s nb _ _ _ _ _ => seq 0 (Z.to_nat nb))
    (fun s nb _ => firstn (Z.to_nat nb) s) (filter (fun k => Nat.ltb k 8)) args
  = ([CallLoad "in.trk"; CallUpsample 20; CallSave "out.trk" false],
     Saved (seq 0 20)).
Proof.
  intros args.
  assert (Hup : (Z.of_nat (length (seq 0 10)) < nb_streamlines args)%Z)
    by (vm_compute; reflexivity).
  destruct (@resample_upsample_needs_std float float64_arith float64 (list nat)
              (fun s : list nat => Z.of_nat (length s)) (fun _ => None)
              (fun _ _ => None) (fun _ => seq 0 10)
              (fun s nb _ _ _ _ _ => seq 0 (Z.to_nat nb))
              (fun s nb _ => firstn (Z.to_nat nb) s)
              (filter (fun k => Nat.ltb k 8)) args
              (fun v => @float64_eqb_leb v PrimFloat.zero) eq_refl eq_refl
              eq_refl eq_refl Hup) as [_ Hgiven].
  rewrite Hgiven; [reflexivity|]. left. discriminate.
Defined.

(** Two slabs of two elements: the input ranges over 0..6 and the bias field
    over 1..5, so the slope is 1.5. *)
Lemma rescale_dwi_rescales_first_slabs_witness :
  rescale_dwi [[0; 2]; [4; 6]]%float [[1; 2]; [3; 5]]%float
  = Ok [[0; 1.5]; [3; 6]]%float.
Proof.
  assert (Hin : concat [[0; 2]; [4; 6]]%float <> []) by discriminate.
  assert (Hbc : concat [[1; 2]; [3; 5]]%float <> []) by discriminate.
  destruct (@rescale_dwi_rescales_first_slabs float float64_arith float64 [[0; 2]; [4; 6]]%float
              [[1; 2]; [3; 5]]%float Hin Hbc) as [_ Hsame].
  rewrite (Hsame eq_refl). vm_compute. reflexivity.
Defined.

(** Three voxels of one coefficient, the last one zero and so outside the
    default mask; the first one has a valid peak.  Two workers. *)
Lemma maps_from_sh_scalar_maps_witness :
  exists out,
    Run.maps_run [[4]; [2]; [0]]%float [[3; 0]; [0; 0]; [0; 0]]%float
      [[0; -1]; [-1; -1]; [-1; -1]]%Z None 0%float (Some 2%Z) = Ok out
    /\ nufo_map_array out = [1; 0; 0]%float
    /\ afd_max_array out = [3; 0; 0]%float.
Proof.
  assert (Hcpu : (1 <= 8)%Z) by lia.
  assert (Hmask : forall m : list bool,
            @None (list bool) = Some m
            -> length m = length [[4]; [2]; [0]]%float) by discriminate.
  assert (Hnz : Some 2%Z <> Some 0%Z) by discriminate.
  destruct (@maps_from_sh_scalar_maps_any_worker_count float float64_arith float64 8%Z
              dipy_order_from_ncoef Run.sh_to_sf_matrix0 dipy_gfa
              [[4]; [2]; [0]]%float [[3; 0]; [0; 0]; [0; 0]]%float
              [[0; -1]; [-1; -1]; [-1; -1]]%Z Run.sphere2 None 0%float
              descoteaux07 Hcpu Hmask eq_refl eq_refl (Some 2%Z) Hnz)
    as (tmp & out & Htmp & Hout & Hn & Hm & _).
  exists out. split; [exact Hout|].
  split; [rewrite Hn|rewrite Hm]; vm_compute; reflexivity.
Defined.

Lemma maps_from_sh_voxel_inside_mask_witness :
  exists out,
    Run.maps_run [[4]; [2]; [0]]%float [[3; 0]; [0; 0]; [0; 0]]%float
      [[0; -1]; [-1; -1]; [-1; -1]]%Z None 0%float (Some 2%Z) = Ok out
    /\ nth_error (nufo_map_array out) 0 = Some 1%float
    /\ nth_error (afd_sum_array out) 0 = Some 4%float.
Proof.
  assert (Hcpu : (1 <= 8)%Z) by lia.
  assert (Hmask : forall m : list bool,
            @None (list bool) = Some m
            -> length m = length [[4]; [2]; [0]]%float) by discriminate.
  assert (Hnz : Some 2%Z <> Some 0%Z) by discriminate.
  assert (Hi : 0 < length [[4]; [2]; [0]]%float) by (cbn; lia).
  destruct (@maps_from_sh_voxel_inside_mask float float64_arith float64 8%Z
              dipy_order_from_ncoef Run.sh_to_sf_matrix0 dipy_gfa
              [[4]; [2]; [0]]%float [[3; 0]; [0; 0]; [0; 0]]%float
              [[0; -1]; [-1; -1]; [-1; -1]]%Z Run.sphere2 None 0%float
              descoteaux07 Hcpu Hmask eq_refl eq_refl (Some 2%Z) 0 Hnz Hi
              eq_refl)
    as (tmp & out & Htmp & Hout & Hn & _ & Hs & _).
  exists out. split; [exact Hout|].
  split; [rewrite Hn|rewrite Hs]; vm_compute; reflexivity.
Defined.

Lemma maps_from_sh_zero_voxel_witness :
  exists out,
    Run.maps_run [[4]; [2]; [0]]%float [[3; 0]; [0; 0]; [0; 0]]%float
      [[0; -1]; [-1; -1]; [-1; -1]]%Z None 0%float (Some 2%Z) = Ok out
    /\ nth_error (nufo_map_array out) 2 = Some 0%float
    /\ nth_error (gfa_map_array out) 2 = Some 0%float.
Proof.
  assert (Hcpu : (1 <= 8)%Z) by lia.
  assert (Hmask : forall m : list bool,
            @None (list bool) = Some m
            -> length m = length [[4]; [2]; [0]]%float) by discriminate.
  assert (Hnz : Some 2%Z <> Some 0%Z) by discriminate.
  assert (Hi : 2 < length [[4]; [2]; [0]]%float) by (cbn; lia).
  destruct (@maps_from_sh_zero_voxel_contributes_nothing float float64_arith float64 8%Z
              dipy_order_from_ncoef Run.sh_to_sf_matrix0 dipy_gfa
              [[4]; [2]; [0]]%float [[3; 0]; [0; 0]; [0; 0]]%float
              [[0; -1]; [-1; -1]; [-1; -1]]%Z Run.sphere2 None 0%float
              descoteaux07 Hcpu Hmask eq_refl eq_refl (Some 2%Z) 2 Hnz Hi
              eq_refl)
    as (tmp & out & Htmp & Hout & Hn & _ & _ & Hg & _).
  exists out. split; [exact Hout|]. split; [exact Hn|exact Hg].
Defined.

(** Three voxels, the second one zero; five slots; the stand-in for
    [peak_directions] finds one peak, at the first vertex. *)
Lemma peaks_from_sh_slots_witness :
  exists peak_dirs peak_values peak_indices,
    Run.peaks_run [[1]; [2]; [3]]%float (Some [true; false; true]) (Some 2%Z)
    = Ok (peak_dirs, peak_values, peak_indices)
    /\ nth_error peak_indices 0 = Some [0; -1; -1; -1; -1]%Z
    /\ nth_error peak_values 0 = Some [Run.Y00; 0; 0; 0; 0]%float.
Proof.
  assert (Hcpu : (1 <= 8)%Z) by lia.
  assert (Hmask : forall m : list bool,
            Some [true; false; true] = Some m
            -> length m = length [[1]; [2]; [3]]%float)
    by (intros m H; injection H as <-; reflexivity).
  assert (Hi : 0 < length [[1]; [2]; [3]]%float) by (cbn; lia).
  destruct (@peaks_from_sh_slots_inside_mask float float64_arith float64 8%Z
              dipy_order_from_ncoef Run.sh_to_sf_matrix0
              Run.peak_directions_argmax [[1]; [2]; [3]]%float Run.sphere2
              (Some [true; false; true]) 0.5%float 0%float 25%float false 5
              descoteaux07 true false true Hcpu Hmask (Some 2%Z) 0 Hi eq_refl)
    as (peak_dirs & peak_values & peak_indices & Hrun & Hind & Hval & _).
  exists peak_dirs, peak_values, peak_indices. split; [exact Hrun|].
  split; [rewrite Hind|rewrite Hval]; vm_compute; reflexivity.
Defined.

Lemma convert_sh_to_sf_voxel_witness :
  exists sf,
    Run.sf_run [[1]; [0]; [2]]%float Float64 (Some 2%Z) = Ok sf
    /\ length (rows sf) = 3
    /\ nth_error (rows sf) 1 = Some [0; 0]%float.
Proof.
  assert (Hn : (1 <= 2)%Z) by lia.
  assert (Hmask : forall m : list bool,
            @None (list bool) = Some m
            -> length m = length [[1]; [0]; [2]]%float) by discriminate.
  assert (Hi : 1 < length [[1]; [0]; [2]]%float) by (cbn; lia).
  destruct (@convert_sh_to_sf_voxel float float64_arith float64 dipy_order_from_ncoef
              Run.sh_to_sf_matrix0
              {| dtype_of := Float64; rows := [[1]; [0]; [2]]%float |}
              Run.sphere2 None Float64 descoteaux07 false true 2%Z 1 Hn Hmask
              Hi)
    as (sf & Hrun & _ & Hlen & Hrow).
  exists sf. split; [exact Hrun|]. split; [exact Hlen|].
  rewrite Hrow. vm_compute. reflexivity.
Defined.


(** ** [maps_from_sh]: the QA map of a run on one worker *)

Lemma last_some_snoc {R : Type} (l : list (option R)) (o : option R) :
  last_some (l ++ [o])
  = match o with Some r => Some r | None => last_some l end.
Proof. unfold last_some. rewrite fold_left_app. reflexivity. Qed.

Lemma nth_mask_assign_row_inside {R : Type} (mask : list bool) (row : R)
    (a : list R) (i : nat) (d : R) :
  nth i mask false = true ->
  i < length a ->
  nth i (mask_assign_row mask row a) d = row.
Proof.
  revert a i. induction mask as [|b m IH]; intros a i Hm Hi;
    [now destruct i|].
  destruct a as [|x r]; [simpl in Hi; lia|].
  destruct i as [|i]; cbn [nth] in Hm.
  - subst b. reflexivity.
  - destruct b; cbn [mask_assign_row nth]; apply IH; simpl in Hi; auto; lia.
Qed.

Lemma mask_select_incl {R : Type} (mask : list bool) (a : list R) (x : R) :
  In x (mask_select mask a) -> In x a.
Proof.
  revert a. induction mask as [|b m IH]; intros a H; [contradiction|].
  destruct a as [|y r]; [now destruct b|].
  destruct b; cbn [mask_select] in H.
  - destruct H as [<-|H]; [now left|right; now apply IH].
  - right. now apply IH.
Qed.

Section QaLoop.
Context {T : Type} {A : Arith T} {N : Num T}.
Variable gfa : list T -> T.
Variables (B : list (list T)) (sphere : Sphere T) (gfa_thr : T).

(** One pass of the loop either rebinds [qa_map] to the row of the voxel or
    leaves it as it is. *)
Lemma maps_body_qa (Tr : list (list T * list T * list Z)) (k : nat)
    (st : maps_state) :
  k < length Tr ->
  length (gfa_map st) = length Tr ->
  qa_map (_maps_from_sh_body gfa (map (fun v => fst (fst v)) Tr)
            (map (fun v => snd (fst v)) Tr) (map snd Tr) B sphere gfa_thr st k)
  = match qa_voxel gfa B gfa_thr (nth k Tr ([], [], [])) with
    | Some r => Qa1D r
    | None => qa_map st
    end.
Proof.
  intros Hk Hlen. set (d := (@nil T, @nil T, @nil Z)).
  unfold _maps_from_sh_body, qa_voxel.
  rewrite (nth_map_lt (fun v => fst (fst v)) Tr [] d Hk).
  rewrite (nth_map_lt (fun v => snd (fst v)) Tr [] d Hk).
  rewrite (nth_map_lt snd Tr [] d Hk).
  destruct (any (fst (fst (nth k Tr d)))); [|reflexivity].
  cbv zeta.
  rewrite (@nth_set_nth_same T k _ zero (gfa_map st)) by (rewrite Hlen; exact Hk).
  destruct (ltb _ gfa_thr); [reflexivity|].
  destruct (negb _); reflexivity.
Qed.

(** After the loop, [qa_map] is the row of the last voxel that bound it, or
    the array of zeros it was allocated as. *)
Lemma maps_loop_qa (Tr : list (list T * list T * list Z)) :
  qa_map (_maps_from_sh_loop gfa (map (fun v => fst (fst v)) Tr)
            (map (fun v => snd (fst v)) Tr) (map snd Tr) B sphere gfa_thr)
  = match last_some (map (qa_voxel gfa B gfa_thr) Tr) with
    | Some r => Qa1D r
    | None => Qa2D (zeros2 (length Tr) (ncols (map (fun v => snd (fst v)) Tr)))
    end.
Proof.
  unfold _maps_from_sh_loop. rewrite !length_map.
  set (c := ncols (map (fun v => snd (fst v)) Tr)).
  pose (P := fun (k : nat) (st : @maps_state T) =>
    length (gfa_map st) = length Tr
    /\ qa_map st
       = match last_some (map (qa_voxel gfa B gfa_thr) (firstn k Tr)) with
         | Some r => Qa1D r
         | None => Qa2D (zeros2 (length Tr) c)
         end).
  match goal with
  | |- qa_map (fold_left ?f ?l ?s) = _ =>
      assert (HP : P (length Tr) (fold_left f l s))
  end.
  { apply loop_invariant_upto.
    - split; [cbn [gfa_map]; unfold zeros; apply repeat_length|reflexivity].
    - intros k st Hk [Hlen Hqa]. split.
      + now rewrite maps_body_gfa_length.
      + rewrite (maps_body_qa Tr st Hk Hlen).
        rewrite (firstn_S_nth Tr ([], [], []) Hk), map_app. cbn [map].
        rewrite last_some_snoc. destruct (qa_voxel gfa B gfa_thr _); [reflexivity|exact Hqa]. }
  destruct HP as [_ HP]. rewrite HP, firstn_all. reflexivity.
Qed.

End QaLoop.

Section QaOneWorker.
Context {T : Type} {A : Arith T} {N : Num T}.
Variable cpu_count : Z.
Variable order_from_ncoef : nat -> bool -> Z.
Variable sh_to_sf_matrix :
  Sphere T -> Z -> basis -> bool -> bool -> list (list T) * list (list T).
Variable gfa : list T -> T.
Variables (shm_coeff peak_values : list (list T))
          (peak_indices : list (list Z)) (sphere : Sphere T)
          (mask : option (list bool)) (gfa_thr : T) (sh_basis_type : basis).

Hypothesis mask_shape : forall m, mask = Some m -> length m = length shm_coeff.
Hypothesis peak_values_shape : length peak_values = length shm_coeff.
Hypothesis peak_indices_shape : length peak_indices = length shm_coeff.
Hypothesis peak_values_rows :
  Forall (fun r => length r = ncols peak_values) peak_values.

Local Notation "'the_mask'" := (maps_from_sh_mask shm_coeff mask).
Local Notation "'the_B'" :=
  (fst (sh_to_sf_matrix sphere (order_from_ncoef (ncols shm_coeff) false)
          sh_basis_type false true)).
Local Notation "'voxels'" :=
  (combine (combine shm_coeff peak_values) peak_indices).

(** X16.  On one worker, every voxel of the mask gets the same QA row from
    [maps_from_sh]: the peak values minus the ODF minimum of the last voxel
    of the mask that has a non-zero coefficient, a GFA not below [gfa_thr]
    and a valid peak, divided by the global-max tracker; or zero divided by
    the tracker when the mask holds no such voxel. *)
Theorem maps_from_sh_qa_one_worker (i : nat) :
  i < length shm_coeff ->
  nth i the_mask false = true ->
  let row :=
    match last_some (map (qa_voxel gfa the_B gfa_thr)
                         (mask_select the_mask voxels)) with
    | Some r => r
    | None => zeros (ncols peak_values)
    end in
  exists tmp out,
    maps_from_sh_tmp cpu_count order_from_ncoef sh_to_sf_matrix gfa shm_coeff
      peak_values peak_indices sphere mask gfa_thr sh_basis_type (Some 1%Z)
    = Ok tmp
    /\ maps_from_sh cpu_count order_from_ncoef sh_to_sf_matrix gfa shm_coeff
         peak_values peak_indices sphere mask gfa_thr sh_basis_type
         (Some 1%Z) = Ok out
    /\ nth_error (qa_map_array out) i
       = Some (map (fun x => div x (global_max tmp)) row).
Proof.
  intros Hi Hin row.
  set (m := the_mask) in *. set (Tr := mask_select m voxels) in *.
  assert (HX : mask_select m shm_coeff = map (fun v => fst (fst v)) Tr).
  { unfold Tr. rewrite <- mask_select_map. f_equal.
    rewrite <- (map_map fst fst), map_fst_combine, map_fst_combine;
      [reflexivity|now symmetry|].
    rewrite length_combine, peak_values_shape, peak_indices_shape. lia. }
  assert (HPV : mask_select m peak_values = map (fun v => snd (fst v)) Tr).
  { unfold Tr. rewrite <- mask_select_map. f_equal.
    rewrite <- (map_map fst snd), map_fst_combine, map_snd_combine;
      [reflexivity|now symmetry|].
    rewrite length_combine, peak_values_shape, peak_indices_shape. lia. }
  assert (HPI : mask_select m peak_indices = map snd Tr).
  { unfold Tr. rewrite <- mask_select_map. f_equal.
    rewrite map_snd_combine; [reflexivity|].
    rewrite length_combine, peak_values_shape, peak_indices_shape. lia. }
  assert (Hm : length m = length shm_coeff).
  { unfold m, maps_from_sh_mask. destruct mask as [m'|]; [now apply mask_shape|].
    unfold default_mask. apply length_map. }
  assert (HTr : length Tr = count_nonzero m).
  { unfold Tr. apply mask_select_length.
    rewrite !length_combine, peak_values_shape, peak_indices_shape, !Nat.min_id.
    exact Hm. }
  assert (Htmp :
    maps_from_sh_tmp cpu_count order_from_ncoef sh_to_sf_matrix gfa shm_coeff
      peak_values peak_indices sphere mask gfa_thr sh_basis_type (Some 1%Z)
    = Ok (_maps_from_sh_loop gfa (map (fun v => fst (fst v)) Tr)
            (map (fun v => snd (fst v)) Tr) (map snd Tr) the_B sphere gfa_thr)).
  { unfold maps_from_sh_tmp. fold m. rewrite HX, HPV, HPI. reflexivity. }
  eexists. eexists. split; [exact Htmp|].
  unfold maps_from_sh. rewrite Htmp. cbn [bind]. split; [reflexivity|].
  unfold maps_normalize, maps_scatter. cbn [qa_map_array]. fold m.
  rewrite maps_loop_qa. fold row.
  rewrite nth_error_map.
  assert (Hcols : ncols (map (fun v => snd (fst v)) Tr) = ncols peak_values).
  { rewrite <- HPV. unfold ncols at 1.
    assert (Hpos : 0 < length (mask_select m peak_values)).
    { rewrite (mask_select_same_length m peak_values shm_coeff
                 peak_values_shape).
      rewrite (mask_select_length m shm_coeff Hm).
      pose proof (count_nonzero_firstn_lt m i Hin). lia. }
    destruct (mask_select m peak_values) as [|r0 rest] eqn:E;
      [simpl in Hpos; lia|].
    cbn [hd]. rewrite Forall_forall in peak_values_rows.
    apply peak_values_rows. apply (mask_select_incl m). rewrite E. now left. }
  unfold row.
  destruct (last_some (map (qa_voxel gfa the_B gfa_thr) Tr)) as [r|].
  - cbn [mask_assign_qa].
    rewrite (nth_error_nth' _ [])
      by (rewrite mask_assign_row_length; unfold zeros2;
          rewrite repeat_length; exact Hi).
    cbn [option_map]. do 2 f_equal.
    apply nth_mask_assign_row_inside; [exact Hin|].
    unfold zeros2. rewrite repeat_length. exact Hi.
  - cbn [mask_assign_qa].
    rewrite (nth_error_nth' _ [])
      by (rewrite mask_assign_length; unfold zeros2;
          rewrite repeat_length; exact Hi).
    cbn [option_map]. do 2 f_equal.
    rewrite (@mask_assign_inside _ m _ _ i [] Hin).
    + rewrite Hcols. unfold zeros2. apply nth_repeat_lt.
      rewrite HTr. now apply count_nonzero_firstn_lt.
    + unfold zeros2. rewrite repeat_length. exact Hi.
    + unfold zeros2. rewrite repeat_length, HTr. lia.
Qed.

End QaOneWorker.

(** ** The reduction loop of [maps_from_sh] *)

Section ReductionTrackers.
Context {T : Type} {A : Arith T} {N : Num T}.

Lemma maps_reduce_global_max (chunk_len : list nat)
    (results : list (nat * @maps_state T)) (init : @maps_state T) :
  global_max (maps_reduce chunk_len results init)
  = fold_left py_max (map (fun r => global_max (snd r)) results)
      (global_max init).
Proof.
  unfold maps_reduce. revert init.
  induction results as [|r results IH]; intros init; [reflexivity|].
  cbn [fold_left map]. rewrite IH. reflexivity.
Qed.

(** X17.  After the reduction loop of [maps_from_sh] over the results of
    the chunks, the all-time global max is Python's running maximum of the
    global-max trackers of the chunks, and the all-time max ODF is the
    maximum of the global-max trackers of the chunks before the last and of
    the max-ODF tracker of the last chunk alone: the max-ODF trackers of the
    other chunks do not enter it. *)
Theorem maps_reduce_trackers_after_the_loop :
  forall (chunk_len : list nat) (results : list (nat * @maps_state T))
         (last : nat * @maps_state T) (init : @maps_state T),
    global_max (maps_reduce chunk_len (results ++ [last]) init)
    = fold_left py_max
        (map (fun r => global_max (snd r)) (results ++ [last]))
        (global_max init)
    /\ max_odf (maps_reduce chunk_len (results ++ [last]) init)
       = py_max
           (fold_left py_max (map (fun r => global_max (snd r)) results)
              (global_max init))
           (max_odf (snd last)).
Proof.
  intros chunk_len results last init. split.
  - apply maps_reduce_global_max.
  - unfold maps_reduce at 1. rewrite fold_left_app. cbn [fold_left].
    unfold maps_reduce_step at 1. cbn [max_odf].
    f_equal. apply maps_reduce_global_max.
Qed.

End ReductionTrackers.

(** Two voxels with valid peaks, of values (3, 0) and (5, 1): on one worker
    the first voxel gets the row of the second. *)
Lemma maps_from_sh_qa_one_worker_witness :
  exists out,
    Run.maps_run [[4]; [2]]%float [[3; 0]; [5; 1]]%float [[0; -1]; [0; 1]]%Z
      None 0%float (Some 1%Z) = Ok out
    /\ nth_error (qa_map_array out) 0
       = Some [(5 - 2 * Run.Y00) / 5; (1 - 2 * Run.Y00) / 5]%float.
Proof.
  assert (Hmask : forall m : list bool,
            @None (list bool) = Some m
            -> length m = length [[4]; [2]]%float) by discriminate.
  assert (Hrows : Forall (fun r : list float =>
                            length r = ncols [[3; 0]; [5; 1]]%float)
                         [[3; 0]; [5; 1]]%float)
    by (repeat constructor).
  assert (Hi : 0 < length [[4]; [2]]%float) by (cbn; lia).
  destruct (@maps_from_sh_qa_one_worker float float64_arith float64 8%Z
              dipy_order_from_ncoef Run.sh_to_sf_matrix0 dipy_gfa
              [[4]; [2]]%float [[3; 0]; [5; 1]]%float [[0; -1]; [0; 1]]%Z
              Run.sphere2 None 0%float descoteaux07 Hmask eq_refl eq_refl
              Hrows 0 Hi eq_refl)
    as (tmp & out & Htmp & Hout & Hqa).
  exists out. split; [exact Hout|].
  rewrite Hqa. vm_compute in Htmp. injection Htmp as <-.
  vm_compute. reflexivity.
Defined.
